(** * NFL RetroVault: the records engine of the league records tab

    A shallow embedding of the statistics engine of the records tab
    (leaderboards, guarded ratio metrics, season scores and tiers, pace to
    records, single-season boards) together with the properties its
    specification states about it.

    Conventions of the embedding.
    - A JavaScript [number] is a [number] below: a finite value, carried as an
      exact rational, or one of [Infinity], [-Infinity], [NaN].  Stored stat
      fields are finite; the results of arithmetic are [number]s, so a
      division by zero shows up as [NaN] or an infinity exactly where the
      source would produce one.  Signed zeros are not modelled.  Rounding is
      modelled where the last bit of a computed value decides an order: the
      season scores are the doubles the source computes, every operation
      rounded to the nearest binary64 value.
    - [Array.prototype.sort] is the stable sort the language prescribes; it is
      written as a stable insertion sort driven by the sign of the comparator.
    - Arrays that the code copies, filters and sorts appear twice: as pure
      list functions, and as programs over a store of mutable arrays, related
      by a refinement lemma. *)

From Stdlib Require Import QArith Qround Qpower Qabs ZArith List String Ascii.
From Stdlib Require Import Bool Lia Lqa.
From Stdlib Require Import Sorting.Sorted Sorting.Permutation.
Import ListNotations.

Set Implicit Arguments.

(* ================================================================== *)
(** ** JavaScript numbers *)

Inductive number : Type :=
| Fin (q : Q)
| PosInf
| NegInf
| NaN.

Coercion Fin : Q >-> number.

Declare Scope js_scope.
Delimit Scope js_scope with js.
Bind Scope js_scope with number.

Definition Qpos_b (q : Q) : bool := negb (Qle_bool q 0).
Definition Qneg_b (q : Q) : bool := negb (Qle_bool 0 q).

Definition nopp (a : number) : number :=
  match a with
  | Fin q => Fin (- q)
  | PosInf => NegInf
  | NegInf => PosInf
  | NaN => NaN
  end.

Definition nadd (a b : number) : number :=
  match a, b with
  | NaN, _ | _, NaN => NaN
  | Fin x, Fin y => Fin (x + y)
  | PosInf, NegInf | NegInf, PosInf => NaN
  | PosInf, _ | _, PosInf => PosInf
  | NegInf, _ | _, NegInf => NegInf
  end.

Definition nsub (a b : number) : number := nadd a (nopp b).

(** An infinity times a finite value: the sign decides, zero gives [NaN]. *)
Definition inf_scaled (positive : bool) (q : Q) : number :=
  if Qeq_bool q 0 then NaN
  else if Bool.eqb positive (Qpos_b q) then PosInf else NegInf.

Definition nmul (a b : number) : number :=
  match a, b with
  | NaN, _ | _, NaN => NaN
  | Fin x, Fin y => Fin (x * y)
  | PosInf, Fin y => inf_scaled true y
  | NegInf, Fin y => inf_scaled false y
  | Fin x, PosInf => inf_scaled true x
  | Fin x, NegInf => inf_scaled false x
  | PosInf, PosInf | NegInf, NegInf => PosInf
  | PosInf, NegInf | NegInf, PosInf => NegInf
  end.

(** [x / y].  A finite value over zero is an infinity of the sign of the
    numerator, [0 / 0] is [NaN]; a finite value over an infinity is zero. *)
Definition ndiv (a b : number) : number :=
  match a, b with
  | NaN, _ | _, NaN => NaN
  | Fin x, Fin y =>
      if Qeq_bool y 0 then
        (if Qeq_bool x 0 then NaN else if Qpos_b x then PosInf else NegInf)
      else Fin (x / y)
  | Fin _, (PosInf | NegInf) => Fin 0
  | PosInf, Fin y => if Qneg_b y then NegInf else PosInf
  | NegInf, Fin y => if Qneg_b y then PosInf else NegInf
  | (PosInf | NegInf), (PosInf | NegInf) => NaN
  end.

(** [a <= b] and [a < b]; every comparison with [NaN] is false. *)
Definition nle (a b : number) : bool :=
  match a, b with
  | NaN, _ | _, NaN => false
  | Fin x, Fin y => Qle_bool x y
  | NegInf, _ | _, PosInf => true
  | _, NegInf | PosInf, _ => false
  end.

Definition nlt (a b : number) : bool :=
  match a, b with
  | NaN, _ | _, NaN => false
  | Fin x, Fin y => negb (Qle_bool y x)
  | PosInf, _ | _, NegInf => false
  | NegInf, _ | _, PosInf => true
  end.

Definition nge (a b : number) : bool := nle b a.
Definition ngt (a b : number) : bool := nlt b a.

(** [a === b] on numbers. *)
Definition jseq (a b : number) : bool :=
  match a, b with
  | Fin x, Fin y => Qeq_bool x y
  | PosInf, PosInf | NegInf, NegInf => true
  | _, _ => false
  end.

(** [Math.ceil]. *)
Definition Math_ceil (a : number) : number :=
  match a with
  | Fin q => Fin (inject_Z (Qceiling q))
  | other => other
  end.

(** [Math.max(...xs)]: [-Infinity] on no argument, [NaN] as soon as one
    argument is [NaN]. *)
Definition max2 (a b : number) : number :=
  match a, b with
  | NaN, _ | _, NaN => NaN
  | _, _ => if nle a b then b else a
  end.

Definition Math_max (xs : list number) : number := fold_left max2 xs NegInf.

(** The same value up to the representation of the rational. *)
Definition num_same (a b : number) : Prop :=
  match a, b with
  | Fin x, Fin y => x == y
  | PosInf, PosInf | NegInf, NegInf | NaN, NaN => True
  | _, _ => False
  end.

Definition finite (a : number) : Prop :=
  match a with Fin _ => True | _ => False end.

(** Not [NaN]. *)
Definition defined (a : number) : Prop := a <> NaN.

Infix "+" := nadd : js_scope.
Infix "-" := nsub : js_scope.
Infix "*" := nmul : js_scope.
Infix "/" := ndiv : js_scope.
Infix "<=?" := nle : js_scope.
Infix "<?" := nlt : js_scope.
Infix ">=?" := nge (at level 70) : js_scope.
Infix ">?" := ngt (at level 70) : js_scope.
Infix "===" := jseq (at level 70) : js_scope.

(** Literals of the source. *)
Definition num (z : Z) : number := Fin (inject_Z z).

(* ================================================================== *)
(** ** Doubles

    A computed value whose last bit decides an order is carried as the
    double the source computes: the exact result of each operation, rounded
    to the nearest binary64 value, ties to the even significand. *)

Definition pow2 (k : Z) : Q := 2 ^ k.

(** [floor (log2 q)] of a positive [q]. *)
Definition ilog2 (q : Q) : Z :=
  let e := (Z.log2 (Qnum q) - Z.log2 (Z.pos (Qden q)))%Z in
  if Qle_bool (pow2 e) q then e else (e - 1)%Z.

(** The integer nearest to [q]; of two equally near, the even one. *)
Definition nearestEven (q : Q) : Z :=
  let f := Qfloor q in
  match Qcompare (q - inject_Z f) (1 # 2) with
  | Lt => f
  | Gt => (f + 1)%Z
  | Eq => if Z.even f then f else (f + 1)%Z
  end.

(** The exponent of the unit in the last place at a positive [q]: 53
    significant bits, and no unit below [2 ^ -1074]. *)
Definition ulpExp (q : Q) : Z := Z.max (ilog2 q - 52) (-1074).

(** The multiple of that unit nearest to [q]. *)
Definition nearestMultiple (q : Q) : Q :=
  inject_Z (nearestEven (q / pow2 (ulpExp q))) * pow2 (ulpExp q).

(** The double nearest to a positive [q]; [Infinity] from [2 ^ 1024] on. *)
Definition roundPos (q : Q) : number :=
  let v := nearestMultiple q in
  if Qle_bool (pow2 1024) v then PosInf else Fin (Qred v).

Definition roundQ (q : Q) : number :=
  match Qcompare q 0 with
  | Eq => Fin 0
  | Gt => roundPos q
  | Lt => nopp (roundPos (- q))
  end.

Definition round64 (a : number) : number :=
  match a with
  | Fin q => roundQ q
  | other => other
  end.

(** A value a double can hold: a multiple of [2 ^ -1074], an infinity or
    [NaN]. *)
Definition isDouble (a : number) : Prop :=
  match a with
  | Fin q => exists z : Z, q == inject_Z z * pow2 (-1074)
  | _ => True
  end.

(** Finite and of magnitude at most [2 ^ k]. *)
Definition bounded (k : Z) (a : number) : Prop :=
  match a with
  | Fin q => Qabs q <= pow2 k
  | _ => False
  end.

(** [a + b], [a - b], [a * b] and [a / b] on doubles. *)
Definition add64 (a b : number) : number := round64 (a + b)%js.
Definition sub64 (a b : number) : number := round64 (a - b)%js.
Definition mul64 (a b : number) : number := round64 (a * b)%js.
Definition div64 (a b : number) : number := round64 (a / b)%js.

Declare Scope double_scope.
Delimit Scope double_scope with double.

Arguments add64 (a b)%_double.
Arguments sub64 (a b)%_double.
Arguments mul64 (a b)%_double.
Arguments div64 (a b)%_double.

Infix "+" := add64 : double_scope.
Infix "-" := sub64 : double_scope.
Infix "*" := mul64 : double_scope.
Infix "/" := div64 : double_scope.

(* ================================================================== *)
(** ** Arrays: sort, slice, find *)

Section ArrayOps.
Variable A : Type.

(** [xs.sort(cmp)]: [x] stays in front of [y] unless [cmp(x, y) > 0]; an
    undefined comparison ([NaN]) counts as [0]. *)
Fixpoint sort_insert (cmp : A -> A -> number) (x : A) (l : list A) : list A :=
  match l with
  | [] => [x]
  | y :: l' =>
      if (cmp x y >? num 0)%js then y :: sort_insert cmp x l'
      else x :: y :: l'
  end.

Definition js_sort (cmp : A -> A -> number) (l : list A) : list A :=
  fold_right (sort_insert cmp) [] l.

(** [xs.slice(0, n)] for a count [n]. *)
Definition slice0 (n : nat) (l : list A) : list A := firstn n l.

(** [xs[0]], [undefined] on the empty array. *)
Definition first (l : list A) : option A := hd_error l.

End ArrayOps.

(* ================================================================== *)
(** ** Career players

    The declarations of [@/types/player] are reconstructed from the fields the
    records tab reads.  [Player] is the base interface; every position type
    extends it, which is the [base] projection of the position records. *)

Module Player.
Record t : Type := mk {
  name : string;
  team : option string;
  position : string;
  status : string;
  games : Q;
  rings : Q;
  mvp : Q;
  careerLegacy : Q;
  dominance : Q;
  tpg : Q
}.
End Player.

Class IsPlayer (T : Type) : Type := { base : T -> Player.t }.

#[export] Instance Player_IsPlayer : IsPlayer Player.t := {| base := fun p => p |}.

Module QB.
Record t : Type := mk {
  player : Player.t;
  passYds : Q;
  passTD : Q;
  attempts : Q;
  completions : Q;
  interceptions : Q;
  rushYds : Q;
  rushTD : Q
}.
End QB.

Module RB.
Record t : Type := mk {
  player : Player.t;
  rushYds : Q;
  rushTD : Q;
  rushAtt : Q;
  recYds : Q
}.
End RB.

Module WR.
Record t : Type := mk {
  player : Player.t;
  recYds : Q;
  recTD : Q;
  receptions : Q
}.
End WR.

Module TE.
Record t : Type := mk {
  player : Player.t;
  recYds : Q;
  recTD : Q
}.
End TE.

(** [LBPlayer | DBPlayer | DLPlayer]: the tab reads the same fields of the
    three. *)
Module Def.
Record t : Type := mk {
  player : Player.t;
  tackles : Q;
  sacks : Q;
  interceptions : Q;
  forcedFumbles : Q
}.
End Def.

#[export] Instance QB_IsPlayer : IsPlayer QB.t := {| base := QB.player |}.
#[export] Instance RB_IsPlayer : IsPlayer RB.t := {| base := RB.player |}.
#[export] Instance WR_IsPlayer : IsPlayer WR.t := {| base := WR.player |}.
#[export] Instance TE_IsPlayer : IsPlayer TE.t := {| base := TE.player |}.
#[export] Instance Def_IsPlayer : IsPlayer Def.t := {| base := Def.player |}.

Definition name {T} `{IsPlayer T} (p : T) : string := Player.name (base p).
Definition team {T} `{IsPlayer T} (p : T) : option string := Player.team (base p).
Definition position {T} `{IsPlayer T} (p : T) : string := Player.position (base p).
Definition status {T} `{IsPlayer T} (p : T) : string := Player.status (base p).
Definition games {T} `{IsPlayer T} (p : T) : Q := Player.games (base p).

Record CareerData : Type := mkCareerData {
  quarterbacks : list QB.t;
  runningbacks : list RB.t;
  widereceivers : list WR.t;
  tightends : list TE.t;
  offensiveline : list Player.t;
  linebackers : list Def.t;
  defensivebacks : list Def.t;
  defensiveline : list Def.t
}.

(* ================================================================== *)
(** ** Value objects of the tab *)

Module RecordEntry.
Record t : Type := mk {
  stat : string;
  value : number;
  playerName : string;
  team : option string;
  position : string;
  season : option string
}.
End RecordEntry.

Module TopNRecord.
Record t : Type := mk {
  stat : string;
  description : string;
  entries : list RecordEntry.t
}.
End TopNRecord.

(** The [icon] of a metric is a component of the presentation and is left
    out. *)
Module AdvancedMetric.
Record t : Type := mk {
  name : string;
  value : number;
  playerName : string;
  team : option string;
  position : string;
  description : string;
  color : string
}.
End AdvancedMetric.

Module PaceToRecord.
Record t : Type := mk {
  playerName : string;
  position : string;
  team : option string;
  recordName : string;
  currentValue : number;
  recordValue : number;
  recordHolder : string;
  seasonsToBreak : number;
  pacePerSeason : number;
  percentToRecord : number
}.
End PaceToRecord.

(* ================================================================== *)
(** ** [findTopN] *)

Section FindTopN.
Context {T : Type} `{IsPlayer T}.

(** The comparator [(a, b) => getValue(b) - getValue(a)]. *)
Definition byValueDesc (getValue : T -> number) (a b : T) : number :=
  (getValue b - getValue a)%js.

(** The local [sorted]: copy, keep the positive values, sort descending,
    keep the first [n]. *)
Definition topPlayers (players : list T) (getValue : T -> number) (n : nat)
  : list T :=
  slice0 n
    (js_sort (byValueDesc getValue)
       (filter (fun p => (getValue p >? num 0)%js) players)).

Definition toEntry (getValue : T -> number) (stat : string) (p : T)
  : RecordEntry.t :=
  {| RecordEntry.stat := stat;
     RecordEntry.value := getValue p;
     RecordEntry.playerName := name p;
     RecordEntry.team := team p;
     RecordEntry.position := position p;
     RecordEntry.season := None |}.

(** [n] is the number of rows asked for (5 at every call, which is also the
    default); [null] is [None]. *)
Definition findTopN (players : list T) (getValue : T -> number)
  (stat description : string) (n : nat) : option TopNRecord.t :=
  if (List.length players =? 0)%nat then None
  else
    let sorted := topPlayers players getValue n in
    if (List.length sorted =? 0)%nat then None
    else
      Some {| TopNRecord.stat := stat;
              TopNRecord.description := description;
              TopNRecord.entries := map (toEntry getValue stat) sorted |}.

(** [xs.filter(keep).sort(cmp)[0]], the shape of every single-leader
    metric. *)
Definition leader (keep : T -> bool) (cmp : T -> T -> number) (xs : list T)
  : option T :=
  first (js_sort cmp (filter keep xs)).

End FindTopN.

(* ================================================================== *)
(** ** All-time records, advanced metrics, pace to records *)

Local Open Scope string_scope.

(** The value functions of the ratio leaderboards. *)
Definition qbYPA_value (p : QB.t) : number :=
  if (QB.attempts p >? num 0)%js then (QB.passYds p / QB.attempts p)%js
  else num 0.

Definition qbTDINT_value (p : QB.t) : number :=
  if (QB.interceptions p >? num 0)%js
  then (QB.passTD p / QB.interceptions p)%js
  else QB.passTD p.

Definition rbYPC_value (p : RB.t) : number :=
  if (RB.rushAtt p >? num 0)%js then (RB.rushYds p / RB.rushAtt p)%js
  else num 0.

Definition rbYPG_value (p : RB.t) : number :=
  if (games p >? num 0)%js
  then ((RB.rushYds p + RB.recYds p) / games p)%js
  else num 0.

Definition wrYPR_value (p : WR.t) : number :=
  if (WR.receptions p >? num 0)%js then (WR.recYds p / WR.receptions p)%js
  else num 0.

Definition wrTDPG_value (p : WR.t) : number :=
  if (games p >? num 0)%js then ((WR.recTD p / games p) * num 16)%js
  else num 0.

Definition defTPG_value (p : Def.t) : number :=
  if (games p >? num 0)%js then (Def.tackles p / games p)%js
  else num 0.

Definition allDef (c : CareerData) : list Def.t :=
  linebackers c ++ defensivebacks c ++ defensiveline c.

Definition allPlayers (c : CareerData) : list Player.t :=
  map base (quarterbacks c) ++ map base (runningbacks c)
  ++ map base (widereceivers c) ++ map base (tightends c)
  ++ offensiveline c
  ++ map base (linebackers c) ++ map base (defensivebacks c)
  ++ map base (defensiveline c).

Module AllTime.
Record t : Type := mk {
  qbPassYds : option TopNRecord.t;
  qbPassTD : option TopNRecord.t;
  qbYPA : option TopNRecord.t;
  qbTDINT : option TopNRecord.t;
  qbTotalTD : option TopNRecord.t;
  qbTotalYds : option TopNRecord.t;
  rbRushYds : option TopNRecord.t;
  rbRushTD : option TopNRecord.t;
  rbYPC : option TopNRecord.t;
  rbScrimmage : option TopNRecord.t;
  rbYPG : option TopNRecord.t;
  wrRecYds : option TopNRecord.t;
  wrRecTD : option TopNRecord.t;
  wrYPR : option TopNRecord.t;
  wrTDPG : option TopNRecord.t;
  teRecYds : option TopNRecord.t;
  teRecTD : option TopNRecord.t;
  defTackles : option TopNRecord.t;
  defSacks : option TopNRecord.t;
  defINT : option TopNRecord.t;
  defTurnovers : option TopNRecord.t;
  defTPG : option TopNRecord.t;
  rings : option TopNRecord.t;
  mvp : option TopNRecord.t;
  legacy : option TopNRecord.t;
  dominance : option TopNRecord.t
}.
End AllTime.

Definition records (c : CareerData) : AllTime.t :=
  let qbs := quarterbacks c in
  let rbs := runningbacks c in
  let wrs := widereceivers c in
  let tes := tightends c in
  {| AllTime.qbPassYds := findTopN qbs (fun p => Fin (QB.passYds p)) "Career Passing Yards" "Total passing yards" 5;
     AllTime.qbPassTD := findTopN qbs (fun p => Fin (QB.passTD p)) "Career Passing TDs" "Total TD passes" 5;
     AllTime.qbYPA := findTopN qbs qbYPA_value "Yards Per Attempt" "Pass efficiency" 5;
     AllTime.qbTDINT := findTopN qbs qbTDINT_value "TD/INT Ratio" "Decision making" 5;
     AllTime.qbTotalTD := findTopN qbs (fun p => QB.passTD p + QB.rushTD p)%js "Total TDs" "Combined TDs" 5;
     AllTime.qbTotalYds := findTopN qbs (fun p => QB.passYds p + QB.rushYds p)%js "Total Yards" "Pass + Rush" 5;
     AllTime.rbRushYds := findTopN rbs (fun p => Fin (RB.rushYds p)) "Career Rushing Yards" "Total rushing yards" 5;
     AllTime.rbRushTD := findTopN rbs (fun p => Fin (RB.rushTD p)) "Career Rushing TDs" "Total rushing TDs" 5;
     AllTime.rbYPC := findTopN rbs rbYPC_value "Yards Per Carry" "Rushing efficiency" 5;
     AllTime.rbScrimmage := findTopN rbs (fun p => RB.rushYds p + RB.recYds p)%js "Scrimmage Yards" "Rush + Receiving" 5;
     AllTime.rbYPG := findTopN rbs rbYPG_value "Yds/Game" "Avg per game" 5;
     AllTime.wrRecYds := findTopN wrs (fun p => Fin (WR.recYds p)) "Career Receiving Yards" "Total receiving yards" 5;
     AllTime.wrRecTD := findTopN wrs (fun p => Fin (WR.recTD p)) "Career Receiving TDs" "Total receiving TDs" 5;
     AllTime.wrYPR := findTopN wrs wrYPR_value "Yards Per Rec" "Catch efficiency" 5;
     AllTime.wrTDPG := findTopN wrs wrTDPG_value "TDs/16 Games" "TD rate" 5;
     AllTime.teRecYds := findTopN tes (fun p => Fin (TE.recYds p)) "TE Receiving Yards" "Total receiving yards" 5;
     AllTime.teRecTD := findTopN tes (fun p => Fin (TE.recTD p)) "TE Receiving TDs" "Total receiving TDs" 5;
     AllTime.defTackles := findTopN (allDef c) (fun p => Fin (Def.tackles p)) "Career Tackles" "Total tackles" 5;
     AllTime.defSacks := findTopN (allDef c) (fun p => Fin (Def.sacks p)) "Career Sacks" "Total sacks" 5;
     AllTime.defINT := findTopN (allDef c) (fun p => Fin (Def.interceptions p)) "Career INTs" "Total interceptions" 5;
     AllTime.defTurnovers := findTopN (allDef c) (fun p => Def.interceptions p + Def.forcedFumbles p)%js "Turnovers Created" "INTs + FF" 5;
     AllTime.defTPG := findTopN (allDef c) defTPG_value "Tackles/Game" "Avg tackles" 5;
     AllTime.rings := findTopN (allPlayers c) (fun p => Fin (Player.rings p)) "Championships" "Rings won" 5;
     AllTime.mvp := findTopN (allPlayers c) (fun p => Fin (Player.mvp p)) "MVP Awards" "League MVPs" 5;
     AllTime.legacy := findTopN (allPlayers c) (fun p => Fin (Player.careerLegacy p)) "Career Legacy" "Overall impact" 5;
     AllTime.dominance := findTopN (allPlayers c) (fun p => Fin (Player.dominance p)) "Peak Dominance" "Best at peak" 5 |}.

(** What the ratio guard promises of a value function and its denominator:
    the value is always finite, and on a zero denominator it is [0] and the
    player is in no top-[n] selection on that value. *)
Definition zero_guarded {T : Type} (den : T -> Q) (value : T -> number)
  : Prop :=
  forall p : T,
    finite (value p)
    /\ (den p == 0 ->
        value p = num 0
        /\ forall (players : list T) (n : nat),
             ~ In p (topPlayers players value n)).

(** *** Single-leader metrics *)

Definition ypa (p : QB.t) : number := (QB.passYds p / QB.attempts p)%js.
Definition tdint (p : QB.t) : number := (QB.passTD p / QB.interceptions p)%js.
Definition compRate (p : QB.t) : number := (QB.completions p / QB.attempts p)%js.
Definition ypc (p : RB.t) : number := (RB.rushYds p / RB.rushAtt p)%js.
Definition scrimmageYPG (p : RB.t) : number :=
  ((RB.rushYds p + RB.recYds p) / games p)%js.
Definition ypr (p : WR.t) : number := (WR.recYds p / WR.receptions p)%js.
Definition recYPG (p : WR.t) : number := (WR.recYds p / games p)%js.
Definition sackRate (p : Def.t) : number := (Def.sacks p / games p)%js.
Definition ballHawk (p : Def.t) : number :=
  ((Def.interceptions p + Def.forcedFumbles p) / games p)%js.

Definition topQBEff (qbs : list QB.t) : option QB.t :=
  leader (fun p => (QB.attempts p >? num 200)%js) (byValueDesc ypa) qbs.

Definition topTDINT (qbs : list QB.t) : option QB.t :=
  leader (fun p => (QB.interceptions p >? num 0)%js) (byValueDesc tdint) qbs.

Definition topCompPct (qbs : list QB.t) : option QB.t :=
  leader (fun p => (QB.attempts p >? num 200)%js) (byValueDesc compRate) qbs.

Definition topYPC (rbs : list RB.t) : option RB.t :=
  leader (fun p => (RB.rushAtt p >? num 100)%js) (byValueDesc ypc) rbs.

Definition topScrimmageYPG (rbs : list RB.t) : option RB.t :=
  leader (fun p => (games p >? num 16)%js) (byValueDesc scrimmageYPG) rbs.

Definition topYPR (wrs : list WR.t) : option WR.t :=
  leader (fun p => (WR.receptions p >? num 50)%js) (byValueDesc ypr) wrs.

Definition topRecYPG (wrs : list WR.t) : option WR.t :=
  leader (fun p => (games p >? num 16)%js) (byValueDesc recYPG) wrs.

Definition topSackRate (defs : list Def.t) : option Def.t :=
  leader (fun p => (games p >? num 32)%js) (byValueDesc sackRate) defs.

Definition topBallHawk (defs : list Def.t) : option Def.t :=
  leader (fun p => (games p >? num 32)%js) (byValueDesc ballHawk) defs.

(** [if (top) metrics.push({...})]. *)
Definition pushIf {T} `{IsPlayer T} (top : option T) (mname : string)
  (value : T -> number) (pos : T -> string) (description color : string)
  : list AdvancedMetric.t :=
  match top with
  | Some p =>
      [ {| AdvancedMetric.name := mname;
           AdvancedMetric.value := value p;
           AdvancedMetric.playerName := name p;
           AdvancedMetric.team := team p;
           AdvancedMetric.position := pos p;
           AdvancedMetric.description := description;
           AdvancedMetric.color := color |} ]
  | None => []
  end.

Definition metrics (c : CareerData) : list AdvancedMetric.t :=
  let qbs := quarterbacks c in
  let rbs := runningbacks c in
  let wrs := widereceivers c in
  pushIf (topQBEff qbs) "Best Yards/Attempt" ypa (fun _ => "QB")
    "Highest career yards per pass attempt (min 200 attempts)" "#3b82f6"
  ++ pushIf (topTDINT qbs) "Best TD/INT Ratio" tdint (fun _ => "QB")
    "Most touchdowns per interception thrown" "#10b981"
  ++ pushIf (topCompPct qbs) "Completion %"
    (fun p => compRate p * num 100)%js (fun _ => "QB")
    "Highest career completion percentage" "#8b5cf6"
  ++ pushIf (topYPC rbs) "Best Yards/Carry" ypc (fun _ => "RB")
    "Highest career yards per rush attempt" "#f59e0b"
  ++ pushIf (topScrimmageYPG rbs) "Scrimmage Yds/Game" scrimmageYPG
    (fun _ => "RB") "Combined rushing + receiving yards per game" "#ef4444"
  ++ pushIf (topYPR wrs) "Best Yards/Catch" ypr (fun _ => "WR")
    "Highest yards per reception (min 50 catches)" "#a855f7"
  ++ pushIf (topRecYPG wrs) "Receiving Yds/Game" recYPG (fun _ => "WR")
    "Highest receiving yards per game played" "#06b6d4"
  ++ pushIf (topSackRate (allDef c)) "Sacks/Game" sackRate position
    "Highest sacks per game (min 32 games)" "#dc2626"
  ++ pushIf (topBallHawk (allDef c)) "Turnovers/Game" ballHawk position
    "Interceptions + forced fumbles per game" "#f97316".

(** *** Pace to break records

    The three loops (quarterbacks on passing yards, running backs on rushing
    yards, wide receivers on receiving yards) are the same text up to the
    field read and the two labels, which are the parameters here. *)

Section Pace.
Context {T : Type} `{IsPlayer T}.
Variable stat : T -> Q.
Variables pos recordName : string.

(** [xs.length > 0 ? Math.max(...xs.map(stat)) : 0]. *)
Definition careerRecord (players : list T) : number :=
  if (0 <? List.length players)%nat
  then Math_max (map (fun q => Fin (stat q)) players)
  else num 0.

(** [xs.find(q => stat(q) === record)]. *)
Definition careerHolder (players : list T) : option T :=
  find (fun q => (stat q === careerRecord players)%js) players.

Definition isActive16 (q : T) : bool :=
  (status q =? "Active") && (games q >=? num 16)%js.

Definition pacePerSeasonOf (q : T) : number :=
  if (games q >? num 0)%js then ((stat q / games q) * num 16)%js else num 0.

(** The body of the loop: what one player pushes onto [paceRecords]. *)
Definition paceBody (record : number) (holder : option T) (q : T)
  : list PaceToRecord.t :=
  let ydsPerSeason := pacePerSeasonOf q in
  if (ydsPerSeason >? num 0)%js && (stat q <? record)%js then
    match holder with
    | Some h =>
        let remaining := (record - stat q)%js in
        let seasonsToBreak := Math_ceil (remaining / ydsPerSeason)%js in
        if (seasonsToBreak <=? num 5)%js then
          [ {| PaceToRecord.playerName := name q;
               PaceToRecord.position := pos;
               PaceToRecord.team := team q;
               PaceToRecord.recordName := recordName;
               PaceToRecord.currentValue := stat q;
               PaceToRecord.recordValue := record;
               PaceToRecord.recordHolder := name h;
               PaceToRecord.seasonsToBreak := seasonsToBreak;
               PaceToRecord.pacePerSeason := ydsPerSeason;
               PaceToRecord.percentToRecord :=
                 ((stat q / record) * num 100)%js |} ]
        else []
    | None => []
    end
  else [].

Definition paceLoop (players : list T) : list PaceToRecord.t :=
  flat_map (paceBody (careerRecord players) (careerHolder players))
    (filter isActive16 players).

(** The pace record of the specification for player [q], a record of [m]
    held by [h]: pace (total / games) * 16, seasons
    ceil((record - current) / pace), percent current / record * 100. *)
Definition paceEntryOf (q : T) (m : Q) (h : T) : PaceToRecord.t :=
  let pace := stat q / games q * 16 in
  {| PaceToRecord.playerName := name q;
     PaceToRecord.position := pos;
     PaceToRecord.team := team q;
     PaceToRecord.recordName := recordName;
     PaceToRecord.currentValue := Fin (stat q);
     PaceToRecord.recordValue := Fin m;
     PaceToRecord.recordHolder := name h;
     PaceToRecord.seasonsToBreak :=
       Fin (inject_Z (Qceiling ((m - stat q) / pace)));
     PaceToRecord.pacePerSeason := Fin pace;
     PaceToRecord.percentToRecord := Fin (stat q / m * 100) |}.

(** The contract of one pace loop: an active player with at least 16 games,
    a positive pace and a total below the record pushes the pace record of
    the specification exactly when its seasons are at most 5. *)
Definition pace_contract : Prop :=
  forall (players : list T) (q : T),
    In q players ->
    status q = "Active" ->
    16 <= games q ->
    0 < stat q / games q * 16 ->
    (Fin (stat q) <? careerRecord players)%js = true ->
    exists (m : Q) (h : T),
      careerRecord players = Fin m
      /\ careerHolder players = Some h
      /\ In h players /\ stat h == m
      /\ (forall p, In p players -> stat p <= m)
      /\ paceBody (careerRecord players) (careerHolder players) q
         = (if (Qceiling ((m - stat q) / (stat q / games q * 16)) <=? 5)%Z
            then [paceEntryOf q m h] else [])
      /\ ((Qceiling ((m - stat q) / (stat q / games q * 16)) <= 5)%Z ->
          In (paceEntryOf q m h) (paceLoop players)).

End Pace.

Definition bySeasonsToBreak (a b : PaceToRecord.t) : number :=
  (PaceToRecord.seasonsToBreak a - PaceToRecord.seasonsToBreak b)%js.

Definition qbPace (qbs : list QB.t) : list PaceToRecord.t :=
  paceLoop QB.passYds "QB" "Career Passing Yards" qbs.

Definition rbPace (rbs : list RB.t) : list PaceToRecord.t :=
  paceLoop RB.rushYds "RB" "Career Rushing Yards" rbs.

Definition wrPace (wrs : list WR.t) : list PaceToRecord.t :=
  paceLoop WR.recYds "WR" "Career Receiving Yards" wrs.

Definition paceToRecords (c : CareerData) : list PaceToRecord.t :=
  js_sort bySeasonsToBreak
    (qbPace (quarterbacks c) ++ rbPace (runningbacks c)
     ++ wrPace (widereceivers c)).

Module CareerBoards.
Record t : Type := mk {
  allTimeRecords : option AllTime.t;
  advancedMetrics : list AdvancedMetric.t;
  paceToRecords : list PaceToRecord.t
}.
End CareerBoards.

(** The first [useMemo] of the tab; [careerData] is absent before an
    upload. *)
Definition careerBoards (careerData : option CareerData) : CareerBoards.t :=
  match careerData with
  | None =>
      {| CareerBoards.allTimeRecords := None;
         CareerBoards.advancedMetrics := [];
         CareerBoards.paceToRecords := [] |}
  | Some c =>
      {| CareerBoards.allTimeRecords := Some (records c);
         CareerBoards.advancedMetrics := metrics c;
         CareerBoards.paceToRecords := paceToRecords c |}
  end.

(* ================================================================== *)
(** ** Season history

    [SeasonSnapshot] comes from [@/utils/seasonHistory]: a season label and
    optional numeric fields, absent when the upload did not carry them.  The
    history object is kept as its [Object.entries]: the player keys in
    insertion order, each with its snapshots. *)

Module Snapshot.
Record t : Type := mk {
  season : string;
  passYds : option Q;
  passTD : option Q;
  rushYds : option Q;
  rushTD : option Q;
  interceptions : option Q;
  recYds : option Q;
  recTD : option Q;
  receptions : option Q;
  tackles : option Q;
  sacks : option Q;
  forcedFumbles : option Q;
  mvp : option Q;
  opoy : option Q;
  sbmvp : option Q;
  roty : option Q;
  rings : option Q
}.
End Snapshot.

Definition SeasonHistory : Type := list (string * list Snapshot.t).

(** [x || 0] on an optional field: the field when it is present and not
    zero, [0] otherwise. *)
Definition orZero (x : option Q) : Q :=
  match x with
  | Some q => if Qeq_bool q 0 then 0 else q
  | None => 0
  end.

Definition or0 (x : option Q) : number := Fin (orZero x).

(** [if (x)] on an optional field. *)
Definition truthy (x : option Q) : bool :=
  match x with
  | Some q => negb (Qeq_bool q 0)
  | None => false
  end.

(** The reading of an optional field in the specification: its value, [0]
    when absent. *)
Definition absentAs0 (x : option Q) : Q :=
  match x with
  | Some q => q
  | None => 0
  end.

Definition awardBonus (snapshot : Snapshot.t) : number :=
  (or0 (Snapshot.mvp snapshot) * num 100
   + or0 (Snapshot.opoy snapshot) * num 75
   + or0 (Snapshot.sbmvp snapshot) * num 80
   + or0 (Snapshot.roty snapshot) * num 50
   + or0 (Snapshot.rings snapshot) * num 60)%js.

Definition calculateSeasonScore (snapshot : Snapshot.t) (position : string)
  : number :=
  if position =? "QB" then
    (or0 (Snapshot.passYds snapshot) / num 50
     + or0 (Snapshot.passTD snapshot) * num 10
     + or0 (Snapshot.rushYds snapshot) / num 20
     + or0 (Snapshot.rushTD snapshot) * num 15
     - or0 (Snapshot.interceptions snapshot) * num 5
     + awardBonus snapshot)%js
  else if position =? "RB" then
    (or0 (Snapshot.rushYds snapshot) / num 20
     + or0 (Snapshot.rushTD snapshot) * num 15
     + or0 (Snapshot.recYds snapshot) / num 30
     + or0 (Snapshot.recTD snapshot) * num 10
     + awardBonus snapshot)%js
  else if (position =? "WR") || (position =? "TE") then
    (or0 (Snapshot.recYds snapshot) / num 20
     + or0 (Snapshot.receptions snapshot) * num 2
     + or0 (Snapshot.recTD snapshot) * num 15
     + awardBonus snapshot)%js
  else
    (or0 (Snapshot.tackles snapshot) * num 2
     + or0 (Snapshot.sacks snapshot) * num 15
     + or0 (Snapshot.interceptions snapshot) * num 20
     + or0 (Snapshot.forcedFumbles snapshot) * num 10
     + awardBonus snapshot)%js.

(** *** The score as the source computes it

    The same expression on doubles: a stored field is read as the double
    nearest to it, and every product, quotient, sum and difference is
    rounded, from left to right as the source associates them.  This is the
    value that [greatestSeasons] stores and sorts by. *)

Definition stat64 (x : option Q) : number := round64 (or0 x).

Definition awardBonus64 (snapshot : Snapshot.t) : number :=
  (stat64 (Snapshot.mvp snapshot) * num 100
   + stat64 (Snapshot.opoy snapshot) * num 75
   + stat64 (Snapshot.sbmvp snapshot) * num 80
   + stat64 (Snapshot.roty snapshot) * num 50
   + stat64 (Snapshot.rings snapshot) * num 60)%double.

Definition calculateSeasonScore64 (snapshot : Snapshot.t) (position : string)
  : number :=
  if position =? "QB" then
    (stat64 (Snapshot.passYds snapshot) / num 50
     + stat64 (Snapshot.passTD snapshot) * num 10
     + stat64 (Snapshot.rushYds snapshot) / num 20
     + stat64 (Snapshot.rushTD snapshot) * num 15
     - stat64 (Snapshot.interceptions snapshot) * num 5
     + awardBonus64 snapshot)%double
  else if position =? "RB" then
    (stat64 (Snapshot.rushYds snapshot) / num 20
     + stat64 (Snapshot.rushTD snapshot) * num 15
     + stat64 (Snapshot.recYds snapshot) / num 30
     + stat64 (Snapshot.recTD snapshot) * num 10
     + awardBonus64 snapshot)%double
  else if (position =? "WR") || (position =? "TE") then
    (stat64 (Snapshot.recYds snapshot) / num 20
     + stat64 (Snapshot.receptions snapshot) * num 2
     + stat64 (Snapshot.recTD snapshot) * num 15
     + awardBonus64 snapshot)%double
  else
    (stat64 (Snapshot.tackles snapshot) * num 2
     + stat64 (Snapshot.sacks snapshot) * num 15
     + stat64 (Snapshot.interceptions snapshot) * num 20
     + stat64 (Snapshot.forcedFumbles snapshot) * num 10
     + awardBonus64 snapshot)%double.

(** Stored fields of a magnitude the score cannot overflow on: at most
    [2 ^ 1000]. *)
Definition fieldInRange (x : option Q) : Prop := Qabs (orZero x) <= pow2 1000.

Definition snapshotInRange (snapshot : Snapshot.t) : Prop :=
  Forall fieldInRange
    [ Snapshot.passYds snapshot; Snapshot.passTD snapshot;
      Snapshot.rushYds snapshot; Snapshot.rushTD snapshot;
      Snapshot.interceptions snapshot; Snapshot.recYds snapshot;
      Snapshot.recTD snapshot; Snapshot.receptions snapshot;
      Snapshot.tackles snapshot; Snapshot.sacks snapshot;
      Snapshot.forcedFumbles snapshot; Snapshot.mvp snapshot;
      Snapshot.opoy snapshot; Snapshot.sbmvp snapshot;
      Snapshot.roty snapshot; Snapshot.rings snapshot ].

Module Tier.
Record t : Type := mk {
  label : string;
  color : string;
  bg : string;
  border : string
}.
End Tier.

Definition getSeasonTier (score : number) : Tier.t :=
  if (score >=? num 800)%js then
    Tier.mk "LEGENDARY" "text-amber-400" "bg-amber-500/15" "border-amber-500/40"
  else if (score >=? num 600)%js then
    Tier.mk "ELITE" "text-purple-400" "bg-purple-500/15" "border-purple-500/40"
  else if (score >=? num 400)%js then
    Tier.mk "GREAT" "text-blue-400" "bg-blue-500/15" "border-blue-500/40"
  else if (score >=? num 250)%js then
    Tier.mk "NOTABLE" "text-emerald-400" "bg-emerald-500/15" "border-emerald-500/40"
  else
    Tier.mk "SOLID" "text-slate-400" "bg-slate-500/15" "border-slate-500/40".

(** *** Player keys: [playerKey.split(':')] and [nameParts.join(':')] *)

Definition colon : ascii := ":"%char.

Fixpoint split_on (c : ascii) (s : string) : list string :=
  match s with
  | EmptyString => [EmptyString]
  | String a rest =>
      if Ascii.eqb a c then EmptyString :: split_on c rest
      else
        match split_on c rest with
        | [] => [String a EmptyString]
        | part :: parts => String a part :: parts
        end
  end.

Fixpoint join_with (sep : string) (parts : list string) : string :=
  match parts with
  | [] => EmptyString
  | [part] => part
  | part :: rest => part ++ sep ++ join_with sep rest
  end.

(** [const [position, ...nameParts] = playerKey.split(':')]. *)
Definition keyPosition (playerKey : string) : string :=
  hd EmptyString (split_on colon playerKey).

Definition keyName (playerKey : string) : string :=
  join_with ":" (tl (split_on colon playerKey)).

Definition startsWith (pre : string) (k : string) : bool := String.prefix pre k.

(** A key of the form position, colon, name. *)
Definition colonKey (k : string) : Prop :=
  k = (keyPosition k ++ ":" ++ keyName k)%string.

(** *** Single-season records *)

Module Keyed.
Record t : Type := mk {
  playerKey : string;
  snapshot : Snapshot.t
}.
End Keyed.

(** The first loop of both season memos: the snapshots of the keys that
    store more than one season. *)
Definition allSnapshots (history : SeasonHistory) : list Keyed.t :=
  flat_map
    (fun entry =>
       let '(playerKey, snapshots) := entry in
       if (List.length snapshots <=? 1)%nat then []
       else map (fun snapshot => Keyed.mk playerKey snapshot) snapshots)
    history.

Definition bySnapshotDesc (getValue : Snapshot.t -> number) (a b : Keyed.t)
  : number :=
  (getValue (Keyed.snapshot b) - getValue (Keyed.snapshot a))%js.

Definition topSnapshots (all : list Keyed.t) (keep : string -> bool)
  (getValue : Snapshot.t -> number) (n : nat) : list Keyed.t :=
  slice0 n
    (js_sort (bySnapshotDesc getValue)
       (filter (fun ks => (getValue (Keyed.snapshot ks) >? num 0)%js)
          (filter (fun ks => keep (Keyed.playerKey ks)) all))).

Definition toSeasonEntry (getValue : Snapshot.t -> number) (stat : string)
  (ks : Keyed.t) : RecordEntry.t :=
  {| RecordEntry.stat := stat;
     RecordEntry.value := getValue (Keyed.snapshot ks);
     RecordEntry.playerName := keyName (Keyed.playerKey ks);
     RecordEntry.team := None;
     RecordEntry.position := keyPosition (Keyed.playerKey ks);
     RecordEntry.season := Some (Snapshot.season (Keyed.snapshot ks)) |}.

Definition findTopNSeason (all : list Keyed.t) (keep : string -> bool)
  (getValue : Snapshot.t -> number) (stat description : string) (n : nat)
  : option TopNRecord.t :=
  let filtered := filter (fun ks => keep (Keyed.playerKey ks)) all in
  if (List.length filtered =? 0)%nat then None
  else
    let sorted := topSnapshots all keep getValue n in
    if (List.length sorted =? 0)%nat then None
    else
      Some {| TopNRecord.stat := stat;
              TopNRecord.description := description;
              TopNRecord.entries := map (toSeasonEntry getValue stat) sorted |}.

(** The shape of an entry of a single-season board of [history]: built from
    a snapshot of a colon key that stores more than one season. *)
Definition fromMultiSeason (history : SeasonHistory) (stat : string)
  (e : RecordEntry.t) : Prop :=
  exists k snaps s getValue,
    In (k, snaps) history
    /\ (1 < List.length snaps)%nat
    /\ In s snaps
    /\ colonKey k
    /\ e = toSeasonEntry getValue stat (Keyed.mk k s).

Definition isDefKey (k : string) : bool :=
  existsb (fun p => startsWith p k) ["LB:"; "DB:"; "DL:"].

Module SingleSeason.
Record t : Type := mk {
  qbPassYds : option TopNRecord.t;
  qbPassTD : option TopNRecord.t;
  qbTotalTD : option TopNRecord.t;
  rbRushYds : option TopNRecord.t;
  rbRushTD : option TopNRecord.t;
  rbScrimmage : option TopNRecord.t;
  wrRecYds : option TopNRecord.t;
  wrRecTD : option TopNRecord.t;
  teRecYds : option TopNRecord.t;
  defTackles : option TopNRecord.t;
  defSacks : option TopNRecord.t;
  defINT : option TopNRecord.t
}.

Definition boards (r : t) : list (option TopNRecord.t) :=
  [ qbPassYds r; qbPassTD r; qbTotalTD r; rbRushYds r; rbRushTD r;
    rbScrimmage r; wrRecYds r; wrRecTD r; teRecYds r; defTackles r;
    defSacks r; defINT r ].
End SingleSeason.

Definition singleSeasonRecords (history : SeasonHistory)
  : option SingleSeason.t :=
  let all := allSnapshots history in
  if (List.length all =? 0)%nat then None
  else
    let top := findTopNSeason all in
    Some
      {| SingleSeason.qbPassYds := top (startsWith "QB:") (fun s => or0 (Snapshot.passYds s)) "Passing Yards" "Single season" 5%nat;
         SingleSeason.qbPassTD := top (startsWith "QB:") (fun s => or0 (Snapshot.passTD s)) "Passing TDs" "Single season" 5%nat;
         SingleSeason.qbTotalTD := top (startsWith "QB:") (fun s => or0 (Snapshot.passTD s) + or0 (Snapshot.rushTD s))%js "Total TDs" "Pass + Rush" 5%nat;
         SingleSeason.rbRushYds := top (startsWith "RB:") (fun s => or0 (Snapshot.rushYds s)) "Rushing Yards" "Single season" 5%nat;
         SingleSeason.rbRushTD := top (startsWith "RB:") (fun s => or0 (Snapshot.rushTD s)) "Rushing TDs" "Single season" 5%nat;
         SingleSeason.rbScrimmage := top (startsWith "RB:") (fun s => or0 (Snapshot.rushYds s) + or0 (Snapshot.recYds s))%js "Scrimmage Yds" "Rush + Rec" 5%nat;
         SingleSeason.wrRecYds := top (startsWith "WR:") (fun s => or0 (Snapshot.recYds s)) "Receiving Yards" "Single season" 5%nat;
         SingleSeason.wrRecTD := top (startsWith "WR:") (fun s => or0 (Snapshot.recTD s)) "Receiving TDs" "Single season" 5%nat;
         SingleSeason.teRecYds := top (startsWith "TE:") (fun s => or0 (Snapshot.recYds s)) "TE Rec Yards" "Single season" 5%nat;
         SingleSeason.defTackles := top isDefKey (fun s => or0 (Snapshot.tackles s)) "Tackles" "Single season" 5%nat;
         SingleSeason.defSacks := top isDefKey (fun s => or0 (Snapshot.sacks s)) "Sacks" "Single season" 5%nat;
         SingleSeason.defINT := top isDefKey (fun s => or0 (Snapshot.interceptions s)) "INTs" "Single season" 5%nat |}.

(** *** Greatest seasons *)

Module Awards.
Record t : Type := mk {
  mvp : number;
  opoy : number;
  sbmvp : number;
  roty : number;
  rings : number
}.
End Awards.

Module GreatSeason.
Record t : Type := mk {
  playerName : string;
  position : string;
  team : option string;
  season : string;
  score : number;
  stats : list (string * Q);
  awards : Awards.t
}.
End GreatSeason.

(** [if (x) stats.push({ label, value: x })]. *)
Definition statIf (label : string) (x : option Q) : list (string * Q) :=
  match x with
  | Some q => if truthy x then [(label, q)] else []
  | None => []
  end.

Definition keyStats (snapshot : Snapshot.t) (position : string)
  : list (string * Q) :=
  if position =? "QB" then
    statIf "Pass Yds" (Snapshot.passYds snapshot)
    ++ statIf "Pass TD" (Snapshot.passTD snapshot)
    ++ statIf "Rush Yds" (Snapshot.rushYds snapshot)
  else if position =? "RB" then
    statIf "Rush Yds" (Snapshot.rushYds snapshot)
    ++ statIf "Rush TD" (Snapshot.rushTD snapshot)
    ++ statIf "Rec Yds" (Snapshot.recYds snapshot)
  else if (position =? "WR") || (position =? "TE") then
    statIf "Rec Yds" (Snapshot.recYds snapshot)
    ++ statIf "Rec" (Snapshot.receptions snapshot)
    ++ statIf "Rec TD" (Snapshot.recTD snapshot)
  else
    statIf "Tackles" (Snapshot.tackles snapshot)
    ++ statIf "Sacks" (Snapshot.sacks snapshot)
    ++ statIf "INTs" (Snapshot.interceptions snapshot).

(** What the inner loop pushes for one snapshot of one key. *)
Definition greatSeasonOf (playerKey : string) (snapshot : Snapshot.t)
  : GreatSeason.t :=
  let position := keyPosition playerKey in
  let playerName := keyName playerKey in
  {| GreatSeason.playerName := playerName;
     GreatSeason.position := position;
     GreatSeason.team := None;
     GreatSeason.season := Snapshot.season snapshot;
     GreatSeason.score := calculateSeasonScore64 snapshot position;
     GreatSeason.stats := keyStats snapshot position;
     GreatSeason.awards :=
       {| Awards.mvp := or0 (Snapshot.mvp snapshot);
          Awards.opoy := or0 (Snapshot.opoy snapshot);
          Awards.sbmvp := or0 (Snapshot.sbmvp snapshot);
          Awards.roty := or0 (Snapshot.roty snapshot);
          Awards.rings := or0 (Snapshot.rings snapshot) |} |}.

(** The local [seasons] before it is sorted. *)
Definition scoredSeasons (history : SeasonHistory) : list GreatSeason.t :=
  flat_map
    (fun entry =>
       let '(playerKey, snapshots) := entry in
       if (List.length snapshots <=? 1)%nat then []
       else map (greatSeasonOf playerKey) snapshots)
    history.

(** The specification's reading of the same list: the keys with more than
    one recorded season, and all their snapshots, scored. *)
Definition multiSeason (history : SeasonHistory) : SeasonHistory :=
  filter (fun entry => (1 <? List.length (snd entry))%nat) history.

Definition scoredOfMultiSeason (history : SeasonHistory) : list GreatSeason.t :=
  flat_map (fun entry => map (greatSeasonOf (fst entry)) (snd entry))
    (multiSeason history).

Definition byScoreDesc (a b : GreatSeason.t) : number :=
  (GreatSeason.score b - GreatSeason.score a)%double.

Definition greatestSeasons (history : SeasonHistory) : list GreatSeason.t :=
  slice0 20 (js_sort byScoreDesc (scoredSeasons history)).

(** No score of the history is [NaN]: the comparator of the sort is then
    an order.  (A score is [NaN] only when two of its terms overflow to
    opposite infinities.) *)
Definition scoresDefined (history : SeasonHistory) : Prop :=
  Forall (fun season => defined (GreatSeason.score season))
    (scoredSeasons history).

Definition historyInRange (history : SeasonHistory) : Prop :=
  forall playerKey snapshots snapshot,
    In (playerKey, snapshots) history -> In snapshot snapshots ->
    snapshotInRange snapshot.

(* ================================================================== *)
(** ** Arrays in a store

    To speak about what a computation does to the array it is handed, arrays
    live in a store and are passed by reference.  [[...xs]], [filter] and
    [slice] allocate a fresh array; [sort] rearranges its receiver in place
    and returns the same reference. *)

Section Store.
Variable T : Type.

Definition ref : Type := nat.
Definition store : Type := list (list T).

Definition M (X : Type) : Type := store -> X * store.

Definition ret {X} (x : X) : M X := fun s => (x, s).

Definition bind {X Y} (m : M X) (k : X -> M Y) : M Y :=
  fun s => let (x, s') := m s in k x s'.

Definition read (s : store) (r : ref) : list T := nth r s [].

Fixpoint update (r : ref) (l : list T) (s : store) : store :=
  match s, r with
  | [], _ => []
  | _ :: s', O => l :: s'
  | x :: s', S r' => x :: update r' l s'
  end.

Definition alloc (l : list T) : M ref :=
  fun s => (List.length s, (s ++ [l])%list).

Definition arr_length (r : ref) : M nat :=
  fun s => (List.length (read s r), s).

Definition arr_copy (r : ref) : M ref :=
  fun s => alloc (read s r) s.

Definition arr_filter (keep : T -> bool) (r : ref) : M ref :=
  fun s => alloc (filter keep (read s r)) s.

Definition arr_sort (cmp : T -> T -> number) (r : ref) : M ref :=
  fun s => (r, update r (js_sort cmp (read s r)) s).

Definition arr_slice0 (n : nat) (r : ref) : M ref :=
  fun s => alloc (slice0 n (read s r)) s.

Definition arr_first (r : ref) : M (option T) :=
  fun s => (first (read s r), s).

(** [s'] has every array of [s], unchanged. *)
Definition keeps (s s' : store) : Prop :=
  (List.length s <= List.length s')%nat
  /\ forall r, (r < List.length s)%nat -> read s' r = read s r.

(** [xs.map(f)] into value objects, which are returned rather than stored. *)
Definition arr_map {Y} (f : T -> Y) (r : ref) : M (list Y) :=
  fun s => (map f (read s r), s).

End Store.

Arguments ret {T X} x.
Arguments bind {T X Y} m k.

Notation "x <- m ;; k" := (bind m (fun x => k))
  (at level 61, m at next level, right associativity).

Section StoreProgs.
Context {T : Type} `{IsPlayer T}.

Definition findTopN_m (players : ref) (getValue : T -> number)
  (stat description : string) (n : nat) : M T (option TopNRecord.t) :=
  len <- arr_length players ;;
  if (len =? 0)%nat then ret None
  else
    copy <- arr_copy players ;;
    kept <- arr_filter (fun p => (getValue p >? num 0)%js) copy ;;
    srt <- arr_sort (byValueDesc getValue) kept ;;
    sorted <- arr_slice0 n srt ;;
    slen <- arr_length sorted ;;
    if (slen =? 0)%nat then ret None
    else
      entries <- arr_map (toEntry getValue stat) sorted ;;
      ret (Some {| TopNRecord.stat := stat;
                   TopNRecord.description := description;
                   TopNRecord.entries := entries |}).

Definition leader_m (keep : T -> bool) (cmp : T -> T -> number) (xs : ref)
  : M T (option T) :=
  kept <- arr_filter keep xs ;;
  srt <- arr_sort cmp kept ;;
  arr_first srt.

End StoreProgs.

Definition topQBEff_m (qbs : ref) : M QB.t (option QB.t) :=
  leader_m (fun p => (QB.attempts p >? num 200)%js) (byValueDesc ypa) qbs.

(** Where a pace record comes from: an active player [q] of [players] with
    at least 16 games, a positive pace and a total below the record [m] held
    by [h], whose seasons are at most 5; the record is the one the
    specification describes. *)
Definition pace_source {T : Type} `{IsPlayer T} (stat : T -> Q)
  (pos recordName : string) (players : list T) (e : PaceToRecord.t) : Prop :=
  exists (q : T) (m : Q) (h : T),
    In q players
    /\ status q = "Active"
    /\ 16 <= games q
    /\ 0 < stat q / games q * 16
    /\ stat q < m
    /\ careerRecord stat players = Fin m
    /\ careerHolder stat players = Some h
    /\ (Qceiling ((m - stat q) / (stat q / games q * 16)) <= 5)%Z
    /\ e = paceEntryOf stat pos recordName q m h.


(** A string with no colon in it. *)
Fixpoint noColon (s : string) : bool :=
  match s with
  | EmptyString => true
  | String a rest => negb (Ascii.eqb a colon) && noColon rest
  end.

(** A single-leader selection [top] picks, among the players that pass
    [keep], one whose [value] is the largest: there is no leader exactly
    when nobody passes, and the leader passes, has a finite value, and no
    player that passes has a larger one. *)
Definition best_among {T : Type} (keep : T -> bool) (value : T -> number)
  (top : list T -> option T) : Prop :=
  forall xs : list T,
    (top xs = None <-> forall q, In q xs -> keep q = false)
    /\ forall p, top xs = Some p ->
         In p xs /\ keep p = true /\ finite (value p)
         /\ forall q, In q xs -> keep q = true ->
              (value q <=? value p)%js = true.

(* ================================================================== *)
(** ** The first records tab: [findMax]

    The earlier version of the tab reports one holder per statistic.  Its
    entries have the fields of [RecordEntry] but for the season, which is
    absent here. *)

(** [xs.reduce(f)] without an initial value: the first element starts the
    fold; on the empty array the call throws, which is [None]. *)
Definition reduce1 {A : Type} (f : A -> A -> A) (xs : list A) : option A :=
  match xs with
  | [] => None
  | x :: rest => Some (fold_left f rest x)
  end.

Section FindMax.
Context {T : Type} `{IsPlayer T}.

(** [(a, b) => (getValue(a) > getValue(b) ? a : b)]. *)
Definition keepGreater (getValue : T -> number) (a b : T) : T :=
  if (getValue a >? getValue b)%js then a else b.

Definition findMax (players : list T) (getValue : T -> number)
  (stat : string) : option RecordEntry.t :=
  if (List.length players =? 0)%nat then None
  else
    match reduce1 (keepGreater getValue) players with
    | Some max => Some (toEntry getValue stat max)
    | None => None
    end.

End FindMax.

(* ================================================================== *)
(** ** The season tab: performances of one uploaded season *)

Module SeasonTier.
Inductive t : Type := legendary | great | good | average | poor.

Definition eqb (a b : t) : bool :=
  match a, b with
  | legendary, legendary | great, great | good, good
  | average, average | poor, poor => true
  | _, _ => false
  end.
End SeasonTier.

Module Thresholds.
Record t : Type := mk {
  legendary : number;
  great : number;
  good : number;
  average : number
}.
End Thresholds.

Module Performance.
Record t (T : Type) : Type := mk {
  player : T;
  seasonStats : T;
  tier : SeasonTier.t;
  summary : string;
  keyStats : list (string * number)
}.
Arguments mk {T} _ _ _ _ _.
Arguments player {T} _.
Arguments seasonStats {T} _.
Arguments tier {T} _.
Arguments summary {T} _.
Arguments keyStats {T} _.
End Performance.

(** [const tierOrder = { legendary: 0, great: 1, good: 2, average: 3,
    poor: 4 }]. *)
Definition tierOrder (t : SeasonTier.t) : number :=
  match t with
  | SeasonTier.legendary => num 0
  | SeasonTier.great => num 1
  | SeasonTier.good => num 2
  | SeasonTier.average => num 3
  | SeasonTier.poor => num 4
  end.

(** The cascade that assigns the tier of a primary stat. *)
Definition tierFor (thresholds : Thresholds.t) (primaryStat : number)
  : SeasonTier.t :=
  if (primaryStat >=? Thresholds.legendary thresholds)%js
  then SeasonTier.legendary
  else if (primaryStat >=? Thresholds.great thresholds)%js
  then SeasonTier.great
  else if (primaryStat >=? Thresholds.good thresholds)%js
  then SeasonTier.good
  else if (primaryStat >=? Thresholds.average thresholds)%js
  then SeasonTier.average
  else SeasonTier.poor.

Section SeasonPerformances.
(** [Number.prototype.toLocaleString] and [String.prototype.toLowerCase] of
    the host. *)
Variable toLocaleString : number -> string.
Variable toLowerCase : string -> string.
Context {T : Type} `{IsPlayer T}.

Definition generateSummary (p : T) (tier : SeasonTier.t)
  (stats : list (string * number)) : string :=
  match stats with
  | [] => ""
  | (label, value) :: _ =>
      match tier with
      | SeasonTier.legendary =>
          "Absolutely dominant with " ++ toLocaleString value ++ " "
          ++ toLowerCase label ++ "."
      | SeasonTier.great =>
          "Excellent production: " ++ toLocaleString value ++ " "
          ++ toLowerCase label ++ "."
      | SeasonTier.good =>
          "Solid performance with " ++ toLocaleString value ++ " "
          ++ toLowerCase label ++ "."
      | SeasonTier.average =>
          "Modest output of " ++ toLocaleString value ++ " "
          ++ toLowerCase label ++ "."
      | SeasonTier.poor =>
          "Limited action: " ++ toLocaleString value ++ " "
          ++ toLowerCase label ++ "."
      end
  end.

(** The callback of [map]: the performance of one season row. *)
Definition performanceOf (careerPlayers : list T)
  (getKeyStats : T -> list (string * number)) (getPrimaryStat : T -> number)
  (thresholds : Thresholds.t) (sp : T) : Performance.t T :=
  let careerPlayer := find (fun c => name c =? name sp) careerPlayers in
  let primaryStat := getPrimaryStat sp in
  let tier := tierFor thresholds primaryStat in
  let keyStats := getKeyStats sp in
  let summary := generateSummary sp tier keyStats in
  {| Performance.player :=
       match careerPlayer with Some c => c | None => sp end;
     Performance.seasonStats := sp;
     Performance.tier := tier;
     Performance.summary := summary;
     Performance.keyStats := keyStats |}.

Definition byTierOrder (a b : Performance.t T) : number :=
  (tierOrder (Performance.tier a) - tierOrder (Performance.tier b))%js.

Definition getPerformances (seasonPlayers careerPlayers : list T)
  (getKeyStats : T -> list (string * number)) (getPrimaryStat : T -> number)
  (thresholds : Thresholds.t) : list (Performance.t T) :=
  js_sort byTierOrder
    (map (performanceOf careerPlayers getKeyStats getPrimaryStat thresholds)
       (filter (fun sp => (getPrimaryStat sp >? num 0)%js) seasonPlayers)).

(** The three lists of cards: legendary; great or good; average or poor. *)
Definition legendarySection (performances : list (Performance.t T))
  : list (Performance.t T) :=
  filter (fun p => SeasonTier.eqb (Performance.tier p) SeasonTier.legendary)
    performances.

Definition strongSection (performances : list (Performance.t T))
  : list (Performance.t T) :=
  filter (fun p => SeasonTier.eqb (Performance.tier p) SeasonTier.great
                   || SeasonTier.eqb (Performance.tier p) SeasonTier.good)
    performances.

Definition otherSection (performances : list (Performance.t T))
  : list (Performance.t T) :=
  filter (fun p => SeasonTier.eqb (Performance.tier p) SeasonTier.average
                   || SeasonTier.eqb (Performance.tier p) SeasonTier.poor)
    performances.

End SeasonPerformances.

(** *** The season label of an uploaded file: [filename.match(/y(\d+)/i)] *)

Definition isY (c : ascii) : bool :=
  Ascii.eqb c "y"%char || Ascii.eqb c "Y"%char.

Definition isDigit (c : ascii) : bool :=
  (48 <=? nat_of_ascii c)%nat && (nat_of_ascii c <=? 57)%nat.

(** The longest run of digits at the head of a string. *)
Fixpoint takeDigits (s : string) : string :=
  match s with
  | EmptyString => EmptyString
  | String c rest =>
      if isDigit c then String c (takeDigits rest) else EmptyString
  end.

Definition startsWithDigit (s : string) : bool :=
  match s with
  | EmptyString => false
  | String c _ => isDigit c
  end.

(** The capture of the leftmost match: the first [y] or [Y] that is followed
    by a digit, and the digits after it. *)
Fixpoint seasonMatch (filename : string) : option string :=
  match filename with
  | EmptyString => None
  | String c rest =>
      if isY c && startsWithDigit rest then Some (takeDigits rest)
      else seasonMatch rest
  end.

Definition seasonNameOf (filename : string) : string :=
  match seasonMatch filename with
  | Some digits => "Y" ++ digits
  | None => "New Season"
  end.

(** A string made of digits only. *)
Fixpoint allDigits (s : string) : bool :=
  match s with
  | EmptyString => true
  | String c rest => isDigit c && allDigits rest
  end.

(* ================================================================== *)
(** ** The commentary tab: the league summary

    The constants of the commentary memo that the league summary is made
    of; the memo returns their lengths and the four top lists.  [allPlayers]
    is the same concatenation as in the records tab. *)

Definition activePlayers (c : CareerData) : list Player.t :=
  filter (fun p => Player.status p =? "Active") (allPlayers c).

Definition hofPlayers (c : CareerData) : list Player.t :=
  filter (fun p => (Player.careerLegacy p >=? num 5000)%js) (allPlayers c).

Definition legendaryPlayers (c : CareerData) : list Player.t :=
  filter (fun p => (Player.careerLegacy p >=? num 8000)%js) (allPlayers c).

Definition topByLegacy (c : CareerData) : list Player.t :=
  slice0 5
    (js_sort (fun a b => (Player.careerLegacy b - Player.careerLegacy a)%js)
       (allPlayers c)).

Definition topByTPG (c : CareerData) : list Player.t :=
  slice0 5
    (js_sort (fun a b => (Player.tpg b - Player.tpg a)%js) (activePlayers c)).

Definition topByRings (c : CareerData) : list Player.t :=
  slice0 5
    (js_sort (fun a b => (Player.rings b - Player.rings a)%js) (allPlayers c)).

Definition topByMVP (c : CareerData) : list Player.t :=
  slice0 5
    (js_sort (fun a b => (Player.mvp b - Player.mvp a)%js)
       (filter (fun p => (Player.mvp p >? num 0)%js) (allPlayers c))).

(* ================================================================== *)
(** ** What the tab shows of the boards *)

(** [xs.map((x, i) => f(x, i))], counting from [i]. *)
Fixpoint mapi_from {A B : Type} (f : A -> nat -> B) (i : nat) (l : list A)
  : list B :=
  match l with
  | [] => []
  | x :: l' => f x i :: mapi_from f (S i) l'
  end.

(** [RecordBlock]: nothing for an absent board, else the first three
    entries, each with its rank [i + 1]. *)
Definition recordBlockRows (record : option TopNRecord.t)
  : option (list (nat * RecordEntry.t)) :=
  match record with
  | None => None
  | Some r =>
      Some (mapi_from (fun entry i => ((i + 1)%nat, entry)) 0
              (slice0 3 (TopNRecord.entries r)))
  end.

(** [Math.min(a, b)]. *)
Definition Math_min2 (a b : number) : number :=
  match a, b with
  | NaN, _ | _, NaN => NaN
  | _, _ => if nle a b then a else b
  end.

(** The pace cards: the first six records, and the width in percent of the
    progress bar of a card. *)
Definition shownPace (paceRecords : list PaceToRecord.t)
  : list PaceToRecord.t :=
  slice0 6 paceRecords.

Definition paceBarWidth (pace : PaceToRecord.t) : number :=
  Math_min2 (PaceToRecord.percentToRecord pace) (num 100).

(** The season cards: rank [idx + 1], the season and its tier. *)
Definition seasonCards (seasons : list GreatSeason.t)
  : list (nat * GreatSeason.t * Tier.t) :=
  mapi_from
    (fun season idx =>
       ((idx + 1)%nat, season, getSeasonTier (GreatSeason.score season)))
    0 seasons.

(** The place of a tier among the five, by its label: 4 for LEGENDARY down
    to 0 for SOLID. *)
Definition tierRank (t : Tier.t) : nat :=
  if Tier.label t =? "LEGENDARY" then 4
  else if Tier.label t =? "ELITE" then 3
  else if Tier.label t =? "GREAT" then 2
  else if Tier.label t =? "NOTABLE" then 1
  else 0.

(** The players of a list whose value is [v]. *)
Definition tiedAt {T : Type} (getValue : T -> number) (v : number)
  (l : list T) : list T :=
  filter (fun p => (getValue p === v)%js) l.

(* ================================================================== *)
(** ** Sample league

    Concrete players and histories on which the statements below are
    evaluated. *)

Definition samplePlayer (nm pos st : string) (g : Q) : Player.t :=
  Player.mk nm (Some "KC") pos st g 0 0 0 0 0.

Definition sampleQB (nm st : string) (g yds td att ints : Q) : QB.t :=
  QB.mk (samplePlayer nm "QB" st g) yds td att 0 ints 0 0.

Definition qbRookie : QB.t := sampleQB "Rookie" "Active" 16 100 1 40 0.
Definition qbVeteran : QB.t := sampleQB "Veteran" "Retired" 96 600 6 300 3.
Definition qbBench : QB.t := sampleQB "Bench" "Active" 2 0 0 0 0.

(** Pace 100 a season with 500 to go, 600 to go, and a closer chaser. *)
Definition qbVeteran700 : QB.t := sampleQB "Veteran" "Retired" 96 700 6 300 3.
Definition qbChaser : QB.t := sampleQB "Chaser" "Active" 32 500 4 250 2.

(** Players exactly on the thresholds of the single-leader metrics. *)
Definition qbAt200 : QB.t := sampleQB "OnTheLine" "Active" 20 1600 10 200 5.
Definition qbAt201 : QB.t := sampleQB "OverTheLine" "Active" 20 1600 10 201 5.
Definition wrAt50 : WR.t :=
  WR.mk (samplePlayer "Fifty" "WR" "Active" 20) 800 5 50.
Definition dlAt32 : Def.t :=
  Def.mk (samplePlayer "ThirtyTwo" "DL" "Active" 32) 90 16 0 2.

Definition leagueOf (qbs : list QB.t) (wrs : list WR.t) (dls : list Def.t)
  : CareerData :=
  mkCareerData qbs [] wrs [] [] [] [] dls.

(** Thirty touchdown passes and no interception. *)
Definition qbClean : QB.t := sampleQB "Clean" "Active" 16 4000 30 500 0.

(** Six quarterbacks without an interception. *)
Definition qbZeroInt (nm : string) (td : Q) : QB.t :=
  sampleQB nm "Active" 16 3000 td 400 0.

Definition cleanSix : list QB.t :=
  [ qbZeroInt "A" 60; qbZeroInt "B" 50; qbZeroInt "C" 40; qbZeroInt "D" 30;
    qbZeroInt "E" 20; qbZeroInt "F" 10 ].

(** A quarterback season with no awards. *)
Definition qbSnapshot (season : string) (passYds passTD rushYds rushTD ints : Q)
  : Snapshot.t :=
  Snapshot.mk season (Some passYds) (Some passTD) (Some rushYds) (Some rushTD)
    (Some ints) None None None None None None None None None None None.

Definition qbSeason370 : Snapshot.t := qbSnapshot "Y3" 4000 30 200 2 10.

(** Two quarterback seasons whose scores are both 2746/5 in exact
    arithmetic; as the source computes them the first is
    549.1999999999999 and the second 549.2. *)
Definition roundHistory : SeasonHistory :=
  [ ("QB:Round", [qbSnapshot "Y1" 4945 46 506 4 19;
                  qbSnapshot "Y2" 3785 46 270 0 0]) ].

(** A two-season quarterback, and a one-season quarterback whose single
    season would top every quarterback board. *)
Definition sampleHistory : SeasonHistory :=
  [ ("QB:Ace", [qbSnapshot "Y1" 3000 20 100 1 12; qbSeason370]);
    ("QB:Solo", [qbSnapshot "Y1" 5500 50 300 5 2]) ].

(** A league of four with rings and awards. *)
Definition accoladePlayer (nm st : string) (rings mvp legacy tpg : Q)
  : Player.t :=
  Player.mk nm None "OL" st 40 rings mvp legacy 0 tpg.

Definition accoladeLeague : CareerData :=
  mkCareerData [] [] [] []
    [ accoladePlayer "Ringless" "Active" 0 1 9000 3;
      accoladePlayer "Twice" "Retired" 2 0 6000 5;
      accoladePlayer "Thrice" "Active" 3 2 4000 4;
      accoladePlayer "AlsoTwice" "Active" 2 0 100 1 ]
    [] [] [].

(* ================================================================== *)
(** * Properties *)

Unset Implicit Arguments.
Local Open Scope list_scope.

(** ** Numbers *)

Lemma Qle_bool_false (x y : Q) : Qle_bool x y = false <-> y < x.
Proof.
  split; intro Hxy.
  - apply Qnot_le_lt. intro Hle. apply Qle_bool_iff in Hle. congruence.
  - destruct (Qle_bool x y) eqn:E; [|reflexivity].
    apply Qle_bool_iff in E. exfalso. apply (Qlt_not_le _ _ Hxy E).
Qed.

Lemma Qpos_b_true (q : Q) : Qpos_b q = true <-> 0 < q.
Proof.
  unfold Qpos_b. rewrite negb_true_iff. apply Qle_bool_false.
Qed.

Lemma ngt0_fin (q : Q) : (Fin q >? num 0)%js = true <-> 0 < q.
Proof.
  unfold ngt, nlt, num. simpl. rewrite negb_true_iff. apply Qle_bool_false.
Qed.

Lemma ngt_fin (x y : Q) : (Fin x >? Fin y)%js = true <-> y < x.
Proof.
  unfold ngt, nlt. rewrite negb_true_iff. apply Qle_bool_false.
Qed.

Lemma nlt_fin (x y : Q) : (Fin x <? Fin y)%js = true <-> x < y.
Proof.
  unfold nlt. rewrite negb_true_iff. apply Qle_bool_false.
Qed.

Lemma nle_fin (x y : Q) : (Fin x <=? Fin y)%js = true <-> x <= y.
Proof. apply Qle_bool_iff. Qed.

Lemma ngt0_defined (a : number) : (a >? num 0)%js = true -> defined a.
Proof. destruct a; simpl; unfold defined; congruence. Qed.

Lemma nle_defined_l (a b : number) : (a <=? b)%js = true -> defined a.
Proof. destruct a, b; simpl; unfold defined; congruence. Qed.

Lemma nle_trans (a b c : number) :
  (a <=? b)%js = true -> (b <=? c)%js = true -> (a <=? c)%js = true.
Proof.
  destruct a, b, c; simpl; try congruence.
  rewrite !Qle_bool_iff. apply Qle_trans.
Qed.

Lemma nle_refl (a : number) : defined a -> (a <=? a)%js = true.
Proof.
  destruct a; simpl; unfold defined; try congruence.
  intros _. apply Qle_bool_iff. apply Qle_refl.
Qed.

(** The sign of a difference orders its operands, for operands that are
    not [NaN]. *)
Lemma nsub_pos_lt (a b : number) :
  defined a -> defined b -> (b - a >? num 0)%js = true -> (a <=? b)%js = true.
Proof.
  unfold defined. destruct a as [x| | |], b as [y| | |]; simpl; try congruence.
  unfold ngt, nlt, num. simpl. rewrite negb_true_iff, Qle_bool_false, Qle_bool_iff.
  intros _ _ Hpos. change (inject_Z 0) with 0%Q in Hpos. lra.
Qed.

Lemma nsub_nonpos_ge (a b : number) :
  defined a -> defined b -> (b - a >? num 0)%js = false -> (b <=? a)%js = true.
Proof.
  unfold defined. destruct a as [x| | |], b as [y| | |]; simpl; try congruence.
  unfold ngt, nlt, num. simpl. rewrite negb_false_iff, !Qle_bool_iff.
  intros _ _ Hle. change (inject_Z 0) with 0%Q in Hle. lra.
Qed.

Lemma nlt_nle (a b : number) : (a <? b)%js = true -> (a <=? b)%js = true.
Proof.
  destruct a, b; simpl; try congruence.
  rewrite negb_true_iff, Qle_bool_false, Qle_bool_iff. apply Qlt_le_weak.
Qed.

Lemma not_nlt_nle (a b : number) :
  defined a -> defined b -> (a <? b)%js = false -> (b <=? a)%js = true.
Proof.
  unfold defined. destruct a, b; simpl; try congruence.
  rewrite negb_false_iff. trivial.
Qed.

(** ** Doubles *)

Lemma pow2_pos (k : Z) : 0 < pow2 k.
Proof. apply Qpower_0_lt. reflexivity. Qed.

Lemma pow2_add (a b : Z) : pow2 (a + b) == pow2 a * pow2 b.
Proof. apply Qpower_plus. discriminate. Qed.

Lemma pow2_le (a b : Z) : (a <= b)%Z -> pow2 a <= pow2 b.
Proof. intros Hab. apply Qpower_le_compat_l; [exact Hab | discriminate]. Qed.

Lemma pow2_le_inv (a b : Z) : pow2 a <= pow2 b -> (a <= b)%Z.
Proof. intros Hab. apply (Qpower_le_compat_l_inv 2); [exact Hab | reflexivity]. Qed.

Lemma pow2_Z (k : Z) : (0 <= k)%Z -> pow2 k == inject_Z (2 ^ k).
Proof. intros Hk. unfold pow2. rewrite Zpower_Qpower by exact Hk. reflexivity. Qed.

Lemma pow2_split (k u : Z) : (u <= k)%Z -> pow2 k == inject_Z (2 ^ (k - u)) * pow2 u.
Proof.
  intros Huk. rewrite <- pow2_Z by lia. rewrite <- pow2_add.
  replace (k - u + u)%Z with k by lia. reflexivity.
Qed.

Lemma ilog2_le (q : Q) : 0 < q -> pow2 (ilog2 q) <= q.
Proof.
  intros Hq. unfold ilog2.
  destruct (Qle_bool _ q) eqn:E; [apply Qle_bool_iff; exact E|].
  clear E. destruct q as [n d]. cbn [Qnum Qden].
  assert (Hn : (0 < n)%Z).
  { unfold Qlt in Hq. simpl in Hq. lia. }
  pose proof (Z.log2_spec n Hn) as [Hn1 _].
  pose proof (Z.log2_spec (Z.pos d) (Pos2Z.is_pos d)) as [_ Hd2].
  pose proof (Z.log2_nonneg n) as Hln.
  pose proof (Z.log2_nonneg (Z.pos d)) as Hld.
  set (ln := Z.log2 n) in *. set (ld := Z.log2 (Z.pos d)) in *.
  assert (Hsplit : pow2 ln == inject_Z (2 ^ (Z.succ ld)) * pow2 (ln - ld - 1)).
  { rewrite <- pow2_Z by lia. rewrite <- pow2_add.
    replace (Z.succ ld + (ln - ld - 1))%Z with ln by lia. reflexivity. }
  rewrite pow2_Z in Hsplit by exact Hln.
  assert (HB : (0 < 2 ^ Z.succ ld)%Z) by (apply Z.pow_pos_nonneg; lia).
  assert (HBq : 0 < inject_Z (2 ^ Z.succ ld)).
  { change 0 with (inject_Z 0). rewrite <- Zlt_Qlt. exact HB. }
  apply (Qmult_le_l _ _ _ HBq). rewrite <- Hsplit.
  unfold Qle, Qmult, inject_Z. cbn [Qnum Qden].
  nia.
Qed.

Lemma nearestEven_floor (q : Q) :
  nearestEven q = Qfloor q
  \/ (nearestEven q = (Qfloor q + 1)%Z /\ inject_Z (Qfloor q) < q).
Proof.
  unfold nearestEven.
  destruct (Qcompare (q - inject_Z (Qfloor q)) (1 # 2)) eqn:E.
  - destruct (Z.even (Qfloor q)); [now left|]. right. split; [reflexivity|].
    apply Qeq_alt in E. lra.
  - now left.
  - right. split; [reflexivity|]. apply Qgt_alt in E. lra.
Qed.

Lemma nearestEven_ge (z : Z) (q : Q) : inject_Z z <= q -> (z <= nearestEven q)%Z.
Proof.
  intros Hz. assert (Hf : (z <= Qfloor q)%Z).
  { rewrite <- (Qfloor_Z z). apply Qfloor_resp_le. exact Hz. }
  destruct (nearestEven_floor q) as [->|[-> _]]; lia.
Qed.

Lemma nearestEven_le (z : Z) (q : Q) : q <= inject_Z z -> (nearestEven q <= z)%Z.
Proof.
  intros Hz. pose proof (Qfloor_le q) as Hf.
  destruct (nearestEven_floor q) as [->|[-> Hlt]].
  - rewrite Zle_Qle. lra.
  - assert (Hfz : (Qfloor q < z)%Z) by (rewrite Zlt_Qlt; lra). lia.
Qed.

Lemma ulpExp_ge (q : Q) : (-1074 <= ulpExp q)%Z.
Proof. unfold ulpExp. lia. Qed.

Lemma ulp_le (q : Q) : pow2 (-1074) <= q -> pow2 (ulpExp q) <= q.
Proof.
  intros Hq.
  assert (Hpos : 0 < q) by (eapply Qlt_le_trans; [apply pow2_pos | exact Hq]).
  unfold ulpExp. apply Z.max_case; [|exact Hq].
  eapply Qle_trans; [|apply ilog2_le; exact Hpos]. apply pow2_le. lia.
Qed.

Lemma ulpExp_le (k : Z) (q : Q) :
  0 < q -> q <= pow2 k -> (-1074 <= k)%Z -> (ulpExp q <= k)%Z.
Proof.
  intros Hq Hk Hmin. unfold ulpExp.
  assert (He : (ilog2 q <= k)%Z).
  { apply pow2_le_inv. eapply Qle_trans; [apply ilog2_le; exact Hq | exact Hk]. }
  lia.
Qed.

Lemma nearestMultiple_pos (q : Q) : pow2 (-1074) <= q -> 0 < nearestMultiple q.
Proof.
  intros Hq. unfold nearestMultiple.
  pose proof (pow2_pos (ulpExp q)) as Hu.
  assert (H1 : (1 <= nearestEven (q / pow2 (ulpExp q)))%Z).
  { apply nearestEven_ge. apply Qle_shift_div_l; [exact Hu|].
    change (inject_Z 1) with 1. rewrite Qmult_1_l. apply ulp_le. exact Hq. }
  apply Qmult_lt_0_compat; [|exact Hu].
  change 0 with (inject_Z 0). rewrite <- Zlt_Qlt. lia.
Qed.

Lemma nearestMultiple_nonneg (q : Q) : 0 <= q -> 0 <= nearestMultiple q.
Proof.
  intros Hq. unfold nearestMultiple.
  pose proof (pow2_pos (ulpExp q)) as Hu.
  apply Qmult_le_0_compat; [|apply Qlt_le_weak; exact Hu].
  change 0 with (inject_Z 0). rewrite <- Zle_Qle.
  apply nearestEven_ge. apply Qle_shift_div_l; [exact Hu|].
  change (inject_Z 0) with 0. rewrite Qmult_0_l. exact Hq.
Qed.

Lemma nearestMultiple_grid (q : Q) :
  exists z : Z, nearestMultiple q == inject_Z z * pow2 (-1074).
Proof.
  unfold nearestMultiple. pose proof (ulpExp_ge q) as Hu.
  exists (nearestEven (q / pow2 (ulpExp q)) * 2 ^ (ulpExp q - -1074))%Z.
  rewrite (pow2_split (ulpExp q) (-1074) Hu) at 2.
  rewrite inject_Z_mult. ring.
Qed.

Lemma nearestMultiple_le (k : Z) (q : Q) :
  0 < q -> q <= pow2 k -> (-1074 <= k)%Z -> nearestMultiple q <= pow2 k.
Proof.
  intros Hq Hk Hmin. unfold nearestMultiple.
  pose proof (ulpExp_le k q Hq Hk Hmin) as Hu.
  pose proof (pow2_pos (ulpExp q)) as Hpos.
  rewrite (pow2_split k (ulpExp q) Hu).
  apply Qmult_le_compat_r; [|apply Qlt_le_weak; exact Hpos].
  rewrite <- Zle_Qle. apply nearestEven_le.
  apply Qle_shift_div_r; [exact Hpos|].
  rewrite <- (pow2_split k (ulpExp q) Hu). exact Hk.
Qed.

Lemma pow2_lt (a b : Z) : (a < b)%Z -> pow2 a < pow2 b.
Proof. intros Hab. apply Qpower_lt_compat_l; [exact Hab | reflexivity]. Qed.

Lemma roundPos_cases (q : Q) :
  (roundPos q = PosInf /\ pow2 1024 <= nearestMultiple q)
  \/ (roundPos q = Fin (Qred (nearestMultiple q))
      /\ nearestMultiple q < pow2 1024).
Proof.
  unfold roundPos. cbv zeta.
  destruct (Qle_bool (pow2 1024) (nearestMultiple q)) eqn:E.
  - left. split; [reflexivity | apply Qle_bool_iff; exact E].
  - right. split; [reflexivity | apply Qle_bool_false; exact E].
Qed.

Lemma roundPos_pos (q : Q) :
  pow2 (-1074) <= q -> (roundPos q >? num 0)%js = true.
Proof.
  intros Hq. pose proof (nearestMultiple_pos q Hq) as Hv.
  destruct (roundPos_cases q) as [[-> _]|[-> _]]; [reflexivity|].
  unfold ngt, nlt, num. rewrite negb_true_iff. apply Qle_bool_false.
  rewrite Qred_correct. exact Hv.
Qed.

Lemma roundPos_opp_not_pos (q : Q) :
  0 <= q -> (nopp (roundPos q) >? num 0)%js = false.
Proof.
  intros Hq. pose proof (nearestMultiple_nonneg q Hq) as Hv.
  destruct (roundPos_cases q) as [[-> _]|[-> _]]; [reflexivity|].
  cbn [nopp]. unfold ngt, nlt, num. rewrite negb_false_iff. apply Qle_bool_iff.
  rewrite Qred_correct. change (inject_Z 0) with 0. lra.
Qed.

Lemma roundPos_isDouble (q : Q) : isDouble (roundPos q).
Proof.
  destruct (roundPos_cases q) as [[-> _]|[-> _]]; [exact I|].
  destruct (nearestMultiple_grid q) as [z Hz]. exists z.
  rewrite Qred_correct. exact Hz.
Qed.

Lemma isDouble_opp (a : number) : isDouble a -> isDouble (nopp a).
Proof.
  destruct a as [q| | |]; simpl; auto.
  intros [z Hz]. exists (- z)%Z. rewrite Hz, inject_Z_opp. ring.
Qed.

Lemma round64_isDouble (a : number) : isDouble (round64 a).
Proof.
  destruct a as [q| | |]; simpl; auto. unfold roundQ.
  destruct (Qcompare q 0).
  - exists 0%Z. ring.
  - apply isDouble_opp, roundPos_isDouble.
  - apply roundPos_isDouble.
Qed.

(** The sign of a rounded difference of doubles is the sign of the
    difference: no two doubles are nearer than [2 ^ -1074]. *)
Lemma round64_sub_pos (a b : number) :
  isDouble a -> isDouble b -> defined a -> defined b ->
  (round64 (b - a) >? num 0)%js = (a <? b)%js.
Proof.
  unfold defined.
  destruct a as [x| | |], b as [y| | |]; try congruence; try reflexivity.
  intros [zx Hx] [zy Hy] _ _. cbn [nsub nopp nadd round64]. unfold roundQ.
  destruct (Qcompare (y + - x) 0) eqn:E.
  - apply Qeq_alt in E. symmetry. unfold nlt. rewrite negb_false_iff.
    apply Qle_bool_iff. lra.
  - apply Qlt_alt in E. rewrite roundPos_opp_not_pos by lra.
    symmetry. unfold nlt. rewrite negb_false_iff. apply Qle_bool_iff. lra.
  - apply Qgt_alt in E.
    assert (Hlt : x < y) by lra.
    assert (Hz : (zx < zy)%Z).
    { pose proof (pow2_pos (-1074)) as Hg. rewrite Hx, Hy in Hlt.
      apply Qmult_lt_r in Hlt; [|exact Hg]. rewrite Zlt_Qlt. exact Hlt. }
    rewrite roundPos_pos.
    + symmetry. unfold nlt. rewrite negb_true_iff. apply Qle_bool_false. exact Hlt.
    + rewrite Hx, Hy.
      setoid_replace (inject_Z zy * pow2 (-1074) + - (inject_Z zx * pow2 (-1074)))
        with (inject_Z (zy - zx) * pow2 (-1074))
        by (unfold Zminus; rewrite inject_Z_plus, inject_Z_opp; ring).
      rewrite <- (Qmult_1_l (pow2 (-1074))) at 1.
      apply Qmult_le_compat_r; [|apply Qlt_le_weak, pow2_pos].
      change 1 with (inject_Z 1). rewrite <- Zle_Qle. lia.
Qed.

(** *** Magnitudes *)

Lemma bounded_mono (j k : Z) (a : number) :
  (j <= k)%Z -> bounded j a -> bounded k a.
Proof.
  destruct a as [q| | |]; cbn [bounded]; auto. intros Hjk Hq.
  eapply Qle_trans; [exact Hq | apply pow2_le; exact Hjk].
Qed.

Lemma bounded_opp (k : Z) (a : number) : bounded k a -> bounded k (nopp a).
Proof.
  destruct a as [q| | |]; cbn [bounded nopp]; auto.
  intros Hq. rewrite Qabs_opp. exact Hq.
Qed.

Lemma roundPos_bounded (k : Z) (q : Q) :
  0 < q -> q <= pow2 k -> (-1074 <= k <= 1023)%Z -> bounded k (roundPos q).
Proof.
  intros Hq Hk [Hmin Hmax].
  pose proof (nearestMultiple_le k q Hq Hk Hmin) as Hv.
  pose proof (nearestMultiple_nonneg q (Qlt_le_weak _ _ Hq)) as Hv0.
  destruct (roundPos_cases q) as [[_ Hinf]|[-> _]].
  - exfalso. apply (Qlt_not_le _ _ (pow2_lt k 1024 ltac:(lia))).
    eapply Qle_trans; eassumption.
  - cbn [bounded]. rewrite Qred_correct, Qabs_pos by exact Hv0. exact Hv.
Qed.

Lemma round64_bounded (k : Z) (a : number) :
  (-1074 <= k <= 1023)%Z -> bounded k a -> bounded k (round64 a).
Proof.
  destruct a as [q| | |]; cbn [bounded round64]; auto. intros Hk Hq.
  unfold roundQ. destruct (Qcompare q 0) eqn:E.
  - cbn [bounded]. change (Qabs 0) with 0. apply Qlt_le_weak, pow2_pos.
  - apply Qlt_alt in E. apply bounded_opp. apply roundPos_bounded; [lra| |exact Hk].
    rewrite <- Qabs_neg by lra. exact Hq.
  - apply Qgt_alt in E. apply roundPos_bounded; [lra| |exact Hk].
    rewrite <- Qabs_pos by lra. exact Hq.
Qed.

Lemma bounded_finite (k : Z) (a : number) : bounded k a -> defined a.
Proof. destruct a; simpl; unfold defined; congruence || tauto. Qed.

Lemma bounded_add (k : Z) (a b : number) :
  bounded k a -> bounded k b -> bounded (k + 1) (a + b)%js.
Proof.
  destruct a as [x| | |], b as [y| | |]; cbn [bounded nadd]; try tauto.
  intros Hx Hy. rewrite pow2_add. change (pow2 1) with 2.
  eapply Qle_trans; [apply Qabs_triangle|]. lra.
Qed.

Lemma bounded_sub (k : Z) (a b : number) :
  bounded k a -> bounded k b -> bounded (k + 1) (a - b)%js.
Proof.
  intros Ha Hb. unfold nsub. apply bounded_add; [exact Ha|].
  apply bounded_opp. exact Hb.
Qed.

Lemma bounded_mul (j k : Z) (a b : number) :
  bounded j a -> bounded k b -> bounded (j + k) (a * b)%js.
Proof.
  destruct a as [x| | |], b as [y| | |]; cbn [bounded nmul]; try tauto.
  intros Hx Hy. rewrite pow2_add, Qabs_Qmult.
  pose proof (Qabs_nonneg x). pose proof (Qabs_nonneg y).
  pose proof (pow2_pos j). pose proof (pow2_pos k).
  eapply Qle_trans; [apply Qmult_le_compat_r; [exact Hx | assumption]|].
  apply Qmult_le_l; assumption.
Qed.

Lemma bounded_num (z : Z) (k : Z) :
  (0 <= k)%Z -> (Z.abs z <= 2 ^ k)%Z -> bounded k (num z).
Proof.
  intros Hk Hz. unfold num. cbn [bounded]. rewrite pow2_Z by exact Hk.
  change (Qabs (inject_Z z)) with (inject_Z (Z.abs z)).
  rewrite <- Zle_Qle. exact Hz.
Qed.

Lemma bounded_div (k : Z) (a : number) (z : Z) :
  (1 <= z)%Z -> bounded k a -> bounded k (a / num z)%js.
Proof.
  destruct a as [x| | |]; unfold num; cbn [bounded ndiv]; try tauto.
  intros Hz Hx.
  assert (Hzq : 1 <= inject_Z z).
  { change 1 with (inject_Z 1). rewrite <- Zle_Qle. exact Hz. }
  destruct (Qeq_bool (inject_Z z) 0) eqn:E.
  - apply Qeq_bool_iff in E. lra.
  - cbn [bounded]. unfold Qdiv. rewrite Qabs_Qmult.
    pose proof (Qabs_nonneg x) as Hx0.
    assert (Hinv : Qabs (/ inject_Z z) <= 1).
    { rewrite Qabs_pos by (apply Qinv_le_0_compat; lra).
      apply Qle_shift_inv_r; lra. }
    pose proof (Qabs_nonneg (/ inject_Z z)) as Hi0.
    eapply Qle_trans; [|exact Hx].
    generalize dependent (Qabs (/ inject_Z z)). generalize dependent (Qabs x).
    intros A _ HA B HB1 HB0. nra.
Qed.

(** ** The sort *)

Section SortFacts.
Variable A : Type.
Variable cmp : A -> A -> number.

Lemma sort_insert_perm (x : A) (l : list A) :
  Permutation (sort_insert cmp x l) (x :: l).
Proof.
  induction l as [|y l IH]; cbn [sort_insert].
  - apply Permutation_refl.
  - destruct (cmp x y >? num 0)%js.
    + eapply perm_trans; [apply perm_skip, IH | apply perm_swap].
    + apply Permutation_refl.
Qed.

Lemma js_sort_perm (l : list A) : Permutation (js_sort cmp l) l.
Proof.
  induction l as [|x l IH]; cbn [js_sort fold_right].
  - apply perm_nil.
  - eapply perm_trans; [apply sort_insert_perm | apply perm_skip, IH].
Qed.

Lemma js_sort_In (l : list A) (x : A) : In x (js_sort cmp l) <-> In x l.
Proof.
  split; apply Permutation_in;
    [apply js_sort_perm | apply Permutation_sym, js_sort_perm].
Qed.

Lemma js_sort_length (l : list A) : List.length (js_sort cmp l) = List.length l.
Proof. apply Permutation_length, js_sort_perm. Qed.

(** Sortedness, for a comparator that agrees with a transitive relation on
    the elements that satisfy [P]. *)
Variable R : A -> A -> Prop.
Variable P : A -> Prop.
Hypothesis R_trans : forall x y z, R x y -> R y z -> R x z.
Hypothesis cmp_keep : forall x y,
  P x -> P y -> (cmp x y >? num 0)%js = false -> R x y.
Hypothesis cmp_swap : forall x y,
  P x -> P y -> (cmp x y >? num 0)%js = true -> R y x.

Lemma sort_insert_sorted (x : A) (l : list A) :
  P x -> Forall P l -> StronglySorted R l ->
  StronglySorted R (sort_insert cmp x l).
Proof.
  intros Px Pl Hs. induction Hs as [|y l Hs IH Hy]; cbn [sort_insert].
  - constructor; [constructor | constructor].
  - inversion Pl as [|? ? Py Pl']; subst.
    destruct (cmp x y >? num 0)%js eqn:E.
    + constructor; [apply IH; assumption|].
      apply (Permutation_Forall (Permutation_sym (sort_insert_perm x l))).
      constructor; [apply cmp_swap; assumption | assumption].
    + assert (Rxy : R x y) by (apply cmp_keep; assumption).
      constructor; [constructor; assumption|].
      constructor; [assumption|].
      eapply Forall_impl; [|exact Hy]. intros z Ryz. eapply R_trans; eassumption.
Qed.

Lemma js_sort_sorted (l : list A) :
  Forall P l -> StronglySorted R (js_sort cmp l).
Proof.
  induction l as [|x l IH]; cbn [js_sort fold_right]; intros Pl.
  - constructor.
  - inversion Pl; subst. apply sort_insert_sorted; [assumption| |auto].
    apply (Permutation_Forall (Permutation_sym (js_sort_perm l))). assumption.
Qed.

End SortFacts.

Lemma firstn_In (A : Type) (n : nat) (l : list A) (x : A) :
  In x (firstn n l) -> In x l.
Proof.
  revert n. induction l as [|y l IH]; intros [|n]; simpl; try tauto.
  intros [->|Hx]; [left; reflexivity | right; eapply IH; eassumption].
Qed.

Section SortedLists.
Variable A : Type.
Variable R : A -> A -> Prop.

Lemma StronglySorted_firstn (n : nat) (l : list A) :
  StronglySorted R l -> StronglySorted R (firstn n l).
Proof.
  intros Hs. revert n. induction Hs as [|x l Hs IH Hx]; intros [|n]; simpl;
    try constructor.
  - apply IH.
  - rewrite Forall_forall in *. intros y Hy. apply Hx.
    eapply firstn_In; eassumption.
Qed.

Lemma StronglySorted_nth (l : list A) :
  StronglySorted R l ->
  forall i j a b, (i < j)%nat ->
    nth_error l i = Some a -> nth_error l j = Some b -> R a b.
Proof.
  induction 1 as [|x l Hs IH Hx]; intros i j a b Hij Ha Hb.
  - destruct i; discriminate.
  - destruct j as [|j]; [lia|]. simpl in Hb. destruct i as [|i]; simpl in Ha.
    + injection Ha as <-. rewrite Forall_forall in Hx. apply Hx.
      eapply nth_error_In; eassumption.
    + apply (IH i j); [lia|assumption|assumption].
Qed.

Lemma StronglySorted_map (B : Type) (f : B -> A) (l : list B) :
  StronglySorted (fun x y => R (f x) (f y)) l -> StronglySorted R (map f l).
Proof.
  induction 1 as [|x l Hs IH Hx]; simpl; constructor; [assumption|].
  rewrite Forall_forall in *. intros y Hy. apply in_map_iff in Hy.
  destruct Hy as [z [<- Hz]]. apply Hx, Hz.
Qed.

End SortedLists.

Lemma StronglySorted_app_cross (A : Type) (R : A -> A -> Prop)
  (l1 l2 : list A) :
  StronglySorted R (l1 ++ l2) ->
  forall x y, In x l1 -> In y l2 -> R x y.
Proof.
  induction l1 as [|a l1 IH]; intros Hs x y Hx Hy; [contradiction|].
  simpl in Hs. inversion Hs as [|? ? Hs' Ha]; subst.
  destruct Hx as [<-|Hx].
  - rewrite Forall_forall in Ha. apply Ha. apply in_or_app. now right.
  - apply IH; assumption.
Qed.

(** Sorting by a key, largest first. *)
Lemma js_sort_desc_sorted (A : Type) (key : A -> number) (l : list A) :
  Forall (fun x => defined (key x)) l ->
  StronglySorted (fun x y => (key x >=? key y)%js = true)
    (js_sort (fun a b => (key b - key a)%js) l).
Proof.
  apply js_sort_sorted.
  - intros x y z Hxy Hyz. unfold nge in *. eapply nle_trans; eassumption.
  - intros x y Hx Hy Hc. unfold nge. apply nsub_nonpos_ge; assumption.
  - intros x y Hx Hy Hc. unfold nge. apply nsub_pos_lt; assumption.
Qed.

(** Sorting by a key, smallest first. *)
Lemma js_sort_asc_sorted (A : Type) (key : A -> number) (l : list A) :
  Forall (fun x => defined (key x)) l ->
  StronglySorted (fun x y => (key x <=? key y)%js = true)
    (js_sort (fun a b => (key a - key b)%js) l).
Proof.
  apply js_sort_sorted.
  - intros x y z Hxy Hyz. eapply nle_trans; eassumption.
  - intros x y Hx Hy Hc. apply nsub_nonpos_ge; assumption.
  - intros x y Hx Hy Hc. apply nsub_pos_lt; assumption.
Qed.

(** Sorting doubles by a key, largest first, on the rounded difference the
    source computes. *)
Lemma js_sort_desc64_sorted (A : Type) (key : A -> number) (l : list A) :
  Forall (fun x => defined (key x) /\ isDouble (key x)) l ->
  StronglySorted (fun x y => (key x >=? key y)%js = true)
    (js_sort (fun a b => (key b - key a)%double) l).
Proof.
  apply js_sort_sorted.
  - intros x y z Hxy Hyz. unfold nge in *. eapply nle_trans; eassumption.
  - intros x y [Hx Dx] [Hy Dy] Hc. unfold nge, sub64 in *.
    rewrite round64_sub_pos in Hc by assumption.
    apply not_nlt_nle; assumption.
  - intros x y [Hx Dx] [Hy Dy] Hc. unfold nge, sub64 in *.
    rewrite round64_sub_pos in Hc by assumption.
    apply nlt_nle. exact Hc.
Qed.

(** ** Leaderboards *)

Lemma filter_none (A : Type) (keep : A -> bool) (l : list A) :
  (forall x, In x l -> keep x = false) -> filter keep l = [].
Proof.
  induction l as [|x l IH]; simpl; intros Hl; [reflexivity|].
  rewrite (Hl x (or_introl eq_refl)). apply IH. intros y Hy. apply Hl. now right.
Qed.

Section FindTopNFacts.
Context {T : Type} `{IsPlayer T}.
Variable getValue : T -> number.

Lemma topPlayers_In (players : list T) (n : nat) (p : T) :
  In p (topPlayers players getValue n) ->
  In p players /\ (getValue p >? num 0)%js = true.
Proof.
  unfold topPlayers, slice0. intros Hp. apply firstn_In in Hp.
  apply js_sort_In in Hp. apply filter_In in Hp. exact Hp.
Qed.

Lemma topPlayers_length (players : list T) (n : nat) :
  (List.length (topPlayers players getValue n) <= n)%nat.
Proof. apply firstn_le_length. Qed.

Lemma topPlayers_sorted (players : list T) (n : nat) :
  StronglySorted (fun x y => (getValue x >=? getValue y)%js = true)
    (topPlayers players getValue n).
Proof.
  unfold topPlayers, slice0, byValueDesc. apply StronglySorted_firstn.
  apply js_sort_desc_sorted. apply Forall_forall. intros p Hp.
  apply filter_In in Hp. apply ngt0_defined. apply Hp.
Qed.

Lemma topPlayers_none (players : list T) (n : nat) :
  (forall p, In p players -> (getValue p >? num 0)%js = false) ->
  topPlayers players getValue n = [].
Proof.
  intros Hnone. unfold topPlayers, slice0. rewrite filter_none by exact Hnone.
  apply firstn_nil.
Qed.

(** A player with a positive value is among the first [n], or the first
    [n] are [n] players with values at least as high. *)
Lemma topPlayers_ranked_or_outranked (players : list T) (n : nat) (p : T) :
  In p players -> (getValue p >? num 0)%js = true ->
  In p (topPlayers players getValue n)
  \/ (List.length (topPlayers players getValue n) = n
      /\ forall q, In q (topPlayers players getValue n) ->
           (getValue q >=? getValue p)%js = true).
Proof.
  intros Hp Hpos. unfold topPlayers, slice0.
  set (l := js_sort (byValueDesc getValue)
              (filter (fun p => (getValue p >? num 0)%js) players)).
  assert (Hs : StronglySorted
                 (fun x y => (getValue x >=? getValue y)%js = true)
                 (firstn n l ++ skipn n l)).
  { rewrite firstn_skipn. unfold l, byValueDesc. apply js_sort_desc_sorted.
    apply Forall_forall. intros x Hx. apply filter_In in Hx.
    apply ngt0_defined, Hx. }
  assert (Hl : In p l).
  { unfold l. apply js_sort_In. apply filter_In. auto. }
  rewrite <- (firstn_skipn n l) in Hl. apply in_app_or in Hl.
  destruct Hl as [Hl|Hl]; [left; exact Hl | right]. split.
  - rewrite length_firstn. apply Nat.min_l.
    destruct (Nat.le_gt_cases n (List.length l)) as [Hle|Hgt]; [exact Hle|].
    rewrite skipn_all2 in Hl by lia. contradiction.
  - intros q Hq. apply (StronglySorted_app_cross _ _ _ _ Hs q p Hq Hl).
Qed.

Lemma findTopN_Some (players : list T) (stat description : string) (n : nat)
  (r : TopNRecord.t) :
  findTopN players getValue stat description n = Some r ->
  r = {| TopNRecord.stat := stat;
         TopNRecord.description := description;
         TopNRecord.entries :=
           map (toEntry getValue stat) (topPlayers players getValue n) |}
  /\ topPlayers players getValue n <> [].
Proof.
  unfold findTopN. destruct (List.length players =? 0)%nat; [discriminate|].
  destruct (topPlayers players getValue n) as [|p ps]; simpl; [discriminate|].
  intros [= <-]. split; [reflexivity | discriminate].
Qed.

End FindTopNFacts.

(** C1.  A leaderboard returned by [findTopN] has at most [n] entries, its
    values never increase from one entry to a later one, and every entry has
    a positive value and is built from a player of the input; when no player
    has a positive value the answer is [None] (the absent board), which is a
    value of the function, not a failure. *)
Theorem findTopN_leaderboard (T : Type) (HT : IsPlayer T) (players : list T)
  (getValue : T -> number) (stat description : string) (n : nat) :
  (forall r, findTopN players getValue stat description n = Some r ->
     (List.length (TopNRecord.entries r) <= n)%nat
     /\ (forall i j a b, (i < j)%nat ->
           nth_error (TopNRecord.entries r) i = Some a ->
           nth_error (TopNRecord.entries r) j = Some b ->
           (RecordEntry.value a >=? RecordEntry.value b)%js = true)
     /\ (forall e, In e (TopNRecord.entries r) ->
           (RecordEntry.value e >? num 0)%js = true
           /\ exists p, In p players /\ e = toEntry getValue stat p
                        /\ RecordEntry.value e = getValue p))
  /\ ((forall p, In p players -> (getValue p >? num 0)%js = false) ->
      findTopN players getValue stat description n = None).
Proof.
  split.
  - intros r Hr. apply findTopN_Some in Hr. destruct Hr as [-> _]. simpl.
    split; [|split].
    + rewrite length_map. apply topPlayers_length.
    + apply (StronglySorted_nth _
               (fun a b => (RecordEntry.value a >=? RecordEntry.value b)%js = true)).
      apply StronglySorted_map. simpl. apply topPlayers_sorted.
    + intros e He. apply in_map_iff in He. destruct He as [p [<- Hp]].
      apply topPlayers_In in Hp. destruct Hp as [Hin Hpos]. simpl.
      split; [exact Hpos|]. exists p. auto.
  - intros Hnone. unfold findTopN.
    destruct (List.length players =? 0)%nat; [reflexivity|].
    rewrite topPlayers_none by exact Hnone. reflexivity.
Qed.

Lemma findTopN_leaderboard_witness :
  exists r,
    findTopN [qbBench; qbRookie; qbVeteran] (fun p => Fin (QB.passYds p))
      "Career Passing Yards" "Total passing yards" 2 = Some r
    /\ (List.length (TopNRecord.entries r) <= 2)%nat
    /\ findTopN [qbBench] (fun p => Fin (QB.passYds p))
         "Career Passing Yards" "Total passing yards" 2 = None.
Proof.
  eexists. split; [reflexivity|]. split.
  - apply (proj1 (findTopN_leaderboard _ _ [qbBench; qbRookie; qbVeteran]
                    (fun p => Fin (QB.passYds p))
                    "Career Passing Yards" "Total passing yards" 2)).
    reflexivity.
  - apply (proj2 (findTopN_leaderboard _ _ [qbBench]
                    (fun p => Fin (QB.passYds p))
                    "Career Passing Yards" "Total passing yards" 2)).
    intros p [<-|[]]. reflexivity.
Defined.

(** ** Ratio guards *)

Lemma Qeq_bool_pos (q : Q) : 0 < q -> Qeq_bool q 0 = false.
Proof.
  intros Hq. destruct (Qeq_bool q 0) eqn:E; [|reflexivity].
  apply Qeq_bool_iff in E. rewrite E in Hq. exfalso.
  apply (Qlt_irrefl _ Hq).
Qed.

Lemma ndiv_fin_pos (x y : Q) : 0 < y -> (Fin x / Fin y)%js = Fin (x / y).
Proof. intros Hy. simpl. rewrite (Qeq_bool_pos _ Hy). reflexivity. Qed.

Lemma ngt0_zero (q : Q) : q == 0 -> (Fin q >? num 0)%js = false.
Proof.
  intros Hq. destruct (Fin q >? num 0)%js eqn:E; [|reflexivity].
  apply ngt0_fin in E. rewrite Hq in E. exfalso. apply (Qlt_irrefl _ E).
Qed.

Lemma topPlayers_skips_zero (T : Type) (value : T -> number) (p : T) (players : list T) (n : nat) :
  value p = num 0 -> ~ In p (topPlayers players value n).
Proof.
  intros Hv Hin. apply topPlayers_In in Hin. destruct Hin as [_ Hpos].
  rewrite Hv in Hpos. discriminate.
Qed.

(** A value function of the shape [den > 0 ? ratio : 0], whose ratio is
    finite on a positive denominator, is guarded. *)
Lemma zero_guarded_intro (T : Type) (den : T -> Q) (ratio : T -> number) :
  (forall p, 0 < den p -> finite (ratio p)) ->
  zero_guarded den
    (fun p => if (Fin (den p) >? num 0)%js then ratio p else num 0).
Proof.
  unfold zero_guarded. intros Hfin p. cbv beta. split.
  - destruct (Fin (den p) >? num 0)%js eqn:E; [|exact I].
    apply Hfin. apply ngt0_fin. exact E.
  - intros Hz. pose proof (ngt0_zero _ Hz) as Hg. rewrite Hg.
    split; [reflexivity|].
    intros players n. apply topPlayers_skips_zero. cbv beta.
    rewrite Hg. reflexivity.
Qed.

Section LeaderFacts.
Context {T : Type} `{IsPlayer T}.

Lemma first_In (A : Type) (l : list A) (x : A) : first l = Some x -> In x l.
Proof. destruct l; simpl; [discriminate|]. intros [= ->]. now left. Qed.

Lemma leader_Some (keep : T -> bool) (cmp : T -> T -> number) (xs : list T)
  (p : T) :
  leader keep cmp xs = Some p -> In p xs /\ keep p = true.
Proof.
  unfold leader. intros Hp. apply first_In in Hp. apply js_sort_In in Hp.
  apply filter_In in Hp. exact Hp.
Qed.

Lemma leader_None (keep : T -> bool) (cmp : T -> T -> number) (xs : list T) :
  leader keep cmp xs = None <-> forall p, In p xs -> keep p = false.
Proof.
  unfold leader. split.
  - intros Hn p Hp. destruct (keep p) eqn:E; [|reflexivity]. exfalso.
    assert (Hin : In p (js_sort cmp (filter keep xs))).
    { apply js_sort_In. apply filter_In. split; assumption. }
    destruct (js_sort cmp (filter keep xs)); [contradiction|discriminate].
  - intros Hall. rewrite filter_none by exact Hall. reflexivity.
Qed.

End LeaderFacts.

(** C2, as the code has it.  The six ratios guarded by [den > 0 ? ... : 0]
    (yards per attempt, yards per carry, scrimmage yards per game, yards per
    reception, touchdowns per 16 games, tackles per game) are always finite,
    are exactly [0] on a zero denominator, and then keep the player out of
    every top-[n] on the metric.  The TD/INT board is finite too, but on zero
    interceptions its value is the touchdown count, and the quarterback
    competes with it: one with at least one touchdown pass is among the
    first [n], unless these are [n] quarterbacks with values at least as
    high.
    The single leaders (best yards per attempt, best TD/INT and the others)
    are only ever players with a positive denominator. *)
Theorem ratio_guard :
  zero_guarded QB.attempts qbYPA_value
  /\ zero_guarded RB.rushAtt rbYPC_value
  /\ zero_guarded (fun p : RB.t => games p) rbYPG_value
  /\ zero_guarded WR.receptions wrYPR_value
  /\ zero_guarded (fun p : WR.t => games p) wrTDPG_value
  /\ zero_guarded (fun p : Def.t => games p) defTPG_value
  /\ (forall p : QB.t,
        finite (qbTDINT_value p)
        /\ (QB.interceptions p == 0 -> qbTDINT_value p = Fin (QB.passTD p)))
  /\ (forall (qbs : list QB.t) (p : QB.t) (n : nat),
        In p qbs -> QB.interceptions p == 0 -> 0 < QB.passTD p ->
        In p (topPlayers qbs qbTDINT_value n)
        \/ (List.length (topPlayers qbs qbTDINT_value n) = n
            /\ forall q, In q (topPlayers qbs qbTDINT_value n) ->
                 (qbTDINT_value q >=? Fin (QB.passTD p))%js = true))
  /\ (forall qbs p, topTDINT qbs = Some p ->
        0 < QB.interceptions p /\ finite (tdint p))
  /\ (forall qbs p, topQBEff qbs = Some p ->
        0 < QB.attempts p /\ finite (ypa p))
  /\ (forall qbs p, topCompPct qbs = Some p ->
        0 < QB.attempts p /\ finite (compRate p))
  /\ (forall rbs p, topYPC rbs = Some p ->
        0 < RB.rushAtt p /\ finite (ypc p))
  /\ (forall rbs p, topScrimmageYPG rbs = Some p ->
        0 < games p /\ finite (scrimmageYPG p))
  /\ (forall wrs p, topYPR wrs = Some p ->
        0 < WR.receptions p /\ finite (ypr p))
  /\ (forall wrs p, topRecYPG wrs = Some p ->
        0 < games p /\ finite (recYPG p))
  /\ (forall defs p, topSackRate defs = Some p ->
        0 < games p /\ finite (sackRate p))
  /\ (forall defs p, topBallHawk defs = Some p ->
        0 < games p /\ finite (ballHawk p)).
Proof.
  assert (Hlead : forall (T : Type) (HT : IsPlayer T) (den : T -> Q) (k : Z)
            (value : T -> number) (xs : list T) (p : T),
            (0 <= k)%Z ->
            (forall q, 0 < den q -> finite (value q)) ->
            leader (fun q => (Fin (den q) >? num k)%js) (byValueDesc value) xs
              = Some p ->
            0 < den p /\ finite (value p)).
  { intros T HT den k value xs p Hk Hfin Hp. apply leader_Some in Hp.
    destruct Hp as [_ Hgt]. apply ngt_fin in Hgt.
    assert (Hpos : 0 < den p).
    { eapply Qle_lt_trans; [|exact Hgt].
      change 0 with (inject_Z 0). rewrite <- Zle_Qle. exact Hk. }
    split; [exact Hpos | apply Hfin, Hpos]. }
  repeat match goal with |- zero_guarded _ _ /\ _ => split end.
  - apply (zero_guarded_intro _ QB.attempts (fun p => (QB.passYds p / QB.attempts p)%js)).
    intros p Hp. rewrite ndiv_fin_pos by exact Hp. exact I.
  - apply (zero_guarded_intro _ RB.rushAtt (fun p => (RB.rushYds p / RB.rushAtt p)%js)).
    intros p Hp. rewrite ndiv_fin_pos by exact Hp. exact I.
  - apply (zero_guarded_intro _ (fun p : RB.t => games p)
             (fun p => ((RB.rushYds p + RB.recYds p) / games p)%js)).
    intros p Hp. simpl nadd. rewrite ndiv_fin_pos by exact Hp. exact I.
  - apply (zero_guarded_intro _ WR.receptions (fun p => (WR.recYds p / WR.receptions p)%js)).
    intros p Hp. rewrite ndiv_fin_pos by exact Hp. exact I.
  - apply (zero_guarded_intro _ (fun p : WR.t => games p)
             (fun p => ((WR.recTD p / games p) * num 16)%js)).
    intros p Hp. rewrite ndiv_fin_pos by exact Hp. exact I.
  - apply (zero_guarded_intro _ (fun p : Def.t => games p)
             (fun p => (Def.tackles p / games p)%js)).
    intros p Hp. rewrite ndiv_fin_pos by exact Hp. exact I.
  - assert (Hzero : forall p : QB.t, QB.interceptions p == 0 ->
                      qbTDINT_value p = Fin (QB.passTD p)).
    { intros p Hz. unfold qbTDINT_value.
      pose proof (ngt0_zero _ Hz) as Hg. rewrite Hg. reflexivity. }
    split; [|split].
    + intros p. split; [|apply Hzero]. unfold qbTDINT_value.
      destruct (Fin (QB.interceptions p) >? num 0)%js eqn:E; [|exact I].
      apply ngt0_fin in E. rewrite ndiv_fin_pos by exact E. exact I.
    + intros qbs p n Hp Hz Htd. rewrite <- (Hzero p Hz).
      apply topPlayers_ranked_or_outranked; [exact Hp|].
      rewrite (Hzero p Hz). apply ngt0_fin. exact Htd.
    + repeat match goal with
             | |- (forall _ _, _ = Some _ -> _) /\ _ => split
             end;
        intros xs p Hp;
        (eapply (Hlead _ _ _ _ _ xs p); [| | exact Hp]; [lia|]);
        intros q Hq; cbv beta;
        unfold tdint, ypa, compRate, ypc, scrimmageYPG, ypr, recYPG, sackRate,
          ballHawk; simpl nadd; rewrite ndiv_fin_pos by exact Hq; exact I.
Qed.

Lemma ratio_guard_witness :
  QB.attempts qbBench == 0
  /\ qbYPA_value qbBench = num 0
  /\ ~ In qbBench (topPlayers [qbBench; qbClean] qbYPA_value 5)
  /\ QB.interceptions qbClean == 0
  /\ 0 < QB.passTD qbClean
  /\ (In qbClean (topPlayers [qbBench; qbClean] qbTDINT_value 5)
      \/ (List.length (topPlayers [qbBench; qbClean] qbTDINT_value 5) = 5%nat
          /\ forall q, In q (topPlayers [qbBench; qbClean] qbTDINT_value 5) ->
               (qbTDINT_value q >=? Fin (QB.passTD qbClean))%js = true)).
Proof.
  destruct ratio_guard as [Hypa [_ [_ [_ [_ [_ [_ [Hrank _]]]]]]]].
  destruct (Hypa qbBench) as [_ Hz].
  assert (Hden : QB.attempts qbBench == 0) by reflexivity.
  assert (Hint : QB.interceptions qbClean == 0) by reflexivity.
  assert (Htd : 0 < QB.passTD qbClean) by reflexivity.
  destruct (Hz Hden) as [Hv Hout].
  split; [exact Hden|]. split; [exact Hv|]. split; [apply Hout|].
  split; [exact Hint|]. split; [exact Htd|].
  apply (Hrank [qbBench; qbClean] qbClean 5%nat);
    [right; left; reflexivity | exact Hint | exact Htd].
Defined.

(** The quarterback without an interception is not always ranked: of six
    such quarterbacks the board of five leaves out the one with the fewest
    touchdown passes, whose value is positive. *)
Lemma tdint_sixth_not_ranked :
  map name (topPlayers cleanSix qbTDINT_value 5) = ["A"; "B"; "C"; "D"; "E"]
  /\ In (qbZeroInt "F" 10) cleanSix
  /\ qbTDINT_value (qbZeroInt "F" 10) = Fin 10
  /\ ~ In (qbZeroInt "F" 10) (topPlayers cleanSix qbTDINT_value 5).
Proof.
  split; [reflexivity|]. split; [simpl; tauto|]. split; [reflexivity|].
  simpl. intros [H|[H|[H|[H|[H|[]]]]]]; discriminate H.
Qed.

(** C2 fails on the TD/INT board: a quarterback with thirty touchdown passes
    and no interception has the value 30, not 0, and is ranked. *)
Lemma ratio_guard_tdint_counterexample :
  QB.interceptions qbClean == 0
  /\ qbTDINT_value qbClean = Fin 30
  /\ In qbClean (topPlayers [qbClean] qbTDINT_value 5)
  /\ (exists r,
        AllTime.qbTDINT (records (leagueOf [qbClean] [] [])) = Some r
        /\ map RecordEntry.playerName (TopNRecord.entries r) = ["Clean"])
  /\ ~ zero_guarded QB.interceptions qbTDINT_value.
Proof.
  split; [reflexivity|]. split; [reflexivity|].
  split; [left; reflexivity|]. split.
  - eexists. split; reflexivity.
  - intros Hg. destruct (Hg qbClean) as [_ Hz].
    destruct (Hz (Qeq_refl _)) as [Hv _]. discriminate Hv.
Qed.

(** ** Minimum samples of the single leaders *)

(** What the code does with the thresholds: a candidate has strictly more
    than the stated minimum, and the metric is absent exactly when nobody
    has. *)
Lemma leader_thresholds :
  (forall qbs p, topQBEff qbs = Some p -> 200 < QB.attempts p)
  /\ (forall wrs p, topYPR wrs = Some p -> 50 < WR.receptions p)
  /\ (forall defs p, topSackRate defs = Some p -> 32 < games p).
Proof.
  repeat match goal with |- (forall _ _, _ = Some _ -> _) /\ _ => split end;
    intros xs p Hp; apply leader_Some in Hp; destruct Hp as [_ Hk];
    apply ngt_fin in Hk; exact Hk.
Qed.

Lemma topQBEff_absent (qbs : list QB.t) :
  topQBEff qbs = None <-> forall p, In p qbs -> QB.attempts p <= 200.
Proof.
  unfold topQBEff. rewrite leader_None. split; intros Hall p Hp.
  - specialize (Hall p Hp). apply Qnot_lt_le. intros Hlt.
    apply (ngt_fin (QB.attempts p) 200) in Hlt. unfold num in Hall.
    change (inject_Z 200) with 200 in Hall. congruence.
  - specialize (Hall p Hp). destruct (Fin (QB.attempts p) >? num 200)%js eqn:E;
      [|reflexivity].
    apply (ngt_fin (QB.attempts p) 200) in E. exfalso.
    apply (Qlt_not_le _ _ E Hall).
Qed.

(** Without its guard a ratio on a zero denominator is not a number. *)
Lemma unguarded_ratio_undefined : ypa qbBench = NaN.
Proof. reflexivity. Qed.

(** C3 on the code: a player exactly on the minimum is not a candidate.  The
    only quarterback of the league has exactly 200 attempts, the only
    receiver exactly 50 receptions, the only defender exactly 32 games, and
    none of the three metrics is reported; with one attempt more the
    quarterback leads the metric whose description reads "min 200
    attempts". *)
Lemma leader_on_threshold_excluded :
  QB.attempts qbAt200 == 200
  /\ WR.receptions wrAt50 == 50
  /\ games dlAt32 == 32
  /\ topQBEff [qbAt200] = None
  /\ topYPR [wrAt50] = None
  /\ topSackRate [dlAt32] = None
  /\ metrics (leagueOf [qbAt200] [wrAt50] [dlAt32])
     = (pushIf (topTDINT [qbAt200]) "Best TD/INT Ratio" tdint (fun _ => "QB")
          "Most touchdowns per interception thrown" "#10b981"
        ++ pushIf (topRecYPG [wrAt50]) "Receiving Yds/Game" recYPG
             (fun _ => "WR") "Highest receiving yards per game played"
             "#06b6d4")%list
  /\ map AdvancedMetric.description
       (pushIf (topQBEff [qbAt201]) "Best Yards/Attempt" ypa (fun _ => "QB")
          "Highest career yards per pass attempt (min 200 attempts)" "#3b82f6")
     = ["Highest career yards per pass attempt (min 200 attempts)"].
Proof.
  repeat split; reflexivity.
Qed.

(** ** Season scores and tiers *)

Lemma nlt_not_nge (a b : number) :
  (a <? b)%js = true -> (a >=? b)%js = false.
Proof.
  unfold nge. destruct a, b; simpl; try congruence.
  rewrite negb_true_iff. trivial.
Qed.

(** C5.  The tiers have inclusive lower bounds: 800 and above is LEGENDARY,
    from 600 up to 800 ELITE, from 400 up to 600 GREAT, from 250 up to 400
    NOTABLE, below 250 SOLID; exactly 800 is LEGENDARY and 799.999 is
    ELITE. *)
Theorem getSeasonTier_bounds (s : number) :
  ((s >=? num 800)%js = true -> Tier.label (getSeasonTier s) = "LEGENDARY")
  /\ ((s >=? num 600)%js = true -> (s <? num 800)%js = true ->
      Tier.label (getSeasonTier s) = "ELITE")
  /\ ((s >=? num 400)%js = true -> (s <? num 600)%js = true ->
      Tier.label (getSeasonTier s) = "GREAT")
  /\ ((s >=? num 250)%js = true -> (s <? num 400)%js = true ->
      Tier.label (getSeasonTier s) = "NOTABLE")
  /\ ((s <? num 250)%js = true -> Tier.label (getSeasonTier s) = "SOLID")
  /\ Tier.label (getSeasonTier (Fin 800)) = "LEGENDARY"
  /\ Tier.label (getSeasonTier (Fin 799.999)) = "ELITE".
Proof.
  unfold getSeasonTier.
  split; [intros ->; reflexivity|].
  split; [intros H6 H8; apply nlt_not_nge in H8; rewrite H8, H6; reflexivity|].
  assert (H68 : (s <? num 600)%js = true -> (s >=? num 800)%js = false).
  { intros H. apply nlt_not_nge.
    destruct s; simpl in *; try congruence.
    rewrite negb_true_iff, Qle_bool_false in *.
    eapply Qlt_trans; [exact H|reflexivity]. }
  assert (H46 : (s <? num 400)%js = true -> (s <? num 600)%js = true).
  { intros H. destruct s; simpl in *; try congruence.
    rewrite negb_true_iff, Qle_bool_false in *.
    eapply Qlt_trans; [exact H|reflexivity]. }
  assert (H24 : (s <? num 250)%js = true -> (s <? num 400)%js = true).
  { intros H. destruct s; simpl in *; try congruence.
    rewrite negb_true_iff, Qle_bool_false in *.
    eapply Qlt_trans; [exact H|reflexivity]. }
  split.
  { intros H4 H6. rewrite (H68 H6), (nlt_not_nge _ _ H6), H4. reflexivity. }
  split.
  { intros H2 H4. pose proof (H46 H4) as H6.
    rewrite (H68 H6), (nlt_not_nge _ _ H6), (nlt_not_nge _ _ H4), H2.
    reflexivity. }
  split.
  { intros H2. pose proof (H24 H2) as H4. pose proof (H46 H4) as H6.
    rewrite (H68 H6), (nlt_not_nge _ _ H6), (nlt_not_nge _ _ H4),
      (nlt_not_nge _ _ H2).
    reflexivity. }
  split; reflexivity.
Qed.

Lemma getSeasonTier_bounds_witness :
  Tier.label (getSeasonTier (Fin 612.5)) = "ELITE"
  /\ Tier.label (getSeasonTier (Fin 249.5)) = "SOLID".
Proof.
  split.
  - apply (proj1 (proj2 (getSeasonTier_bounds (Fin 612.5)))); reflexivity.
  - apply (proj1 (proj2 (proj2 (proj2 (proj2
             (getSeasonTier_bounds (Fin 249.5))))))); reflexivity.
Defined.

Lemma orZero_absentAs0 (x : option Q) : orZero x == absentAs0 x.
Proof.
  destruct x as [q|]; simpl; [|reflexivity].
  destruct (Qeq_bool q 0) eqn:E; [|reflexivity].
  apply Qeq_bool_iff in E. symmetry. exact E.
Qed.

Lemma calculateSeasonScore_finite (snapshot : Snapshot.t) (pos : string) :
  exists q, calculateSeasonScore snapshot pos = Fin q.
Proof.
  unfold calculateSeasonScore, awardBonus, or0.
  destruct (pos =? "QB"); [eexists; reflexivity|].
  destruct (pos =? "RB"); [eexists; reflexivity|].
  destruct ((pos =? "WR") || (pos =? "TE")); eexists; reflexivity.
Qed.

(** C6, with the tier the code assigns.  The score of a quarterback season
    is passYds/50 + passTD*10 + rushYds/20 + rushTD*15 - interceptions*5 plus
    the award bonus mvp*100 + opoy*75 + sbmvp*80 + roty*50 + rings*60, absent
    fields counting as 0; the season with 4000 passing yards, 30 passing
    touchdowns, 200 rushing yards, 2 rushing touchdowns and 10 interceptions
    scores exactly 370, which is the tier NOTABLE. *)
Theorem calculateSeasonScore_QB (snapshot : Snapshot.t) :
  num_same (calculateSeasonScore snapshot "QB")
    (Fin (absentAs0 (Snapshot.passYds snapshot) / 50
          + absentAs0 (Snapshot.passTD snapshot) * 10
          + absentAs0 (Snapshot.rushYds snapshot) / 20
          + absentAs0 (Snapshot.rushTD snapshot) * 15
          - absentAs0 (Snapshot.interceptions snapshot) * 5
          + (absentAs0 (Snapshot.mvp snapshot) * 100
             + absentAs0 (Snapshot.opoy snapshot) * 75
             + absentAs0 (Snapshot.sbmvp snapshot) * 80
             + absentAs0 (Snapshot.roty snapshot) * 50
             + absentAs0 (Snapshot.rings snapshot) * 60)))
  /\ num_same (calculateSeasonScore qbSeason370 "QB") (Fin 370)
  /\ Tier.label (getSeasonTier (calculateSeasonScore qbSeason370 "QB"))
     = "NOTABLE".
Proof.
  split; [|split; reflexivity].
  change (calculateSeasonScore snapshot "QB")
    with (Fin (orZero (Snapshot.passYds snapshot) / 50
               + orZero (Snapshot.passTD snapshot) * 10
               + orZero (Snapshot.rushYds snapshot) / 20
               + orZero (Snapshot.rushTD snapshot) * 15
               - orZero (Snapshot.interceptions snapshot) * 5
               + (orZero (Snapshot.mvp snapshot) * 100
                  + orZero (Snapshot.opoy snapshot) * 75
                  + orZero (Snapshot.sbmvp snapshot) * 80
                  + orZero (Snapshot.roty snapshot) * 50
                  + orZero (Snapshot.rings snapshot) * 60))).
  unfold num_same. rewrite !orZero_absentAs0. reflexivity.
Qed.

(** C6 as stated names the tier GREAT for the score 370; the code, whose
    GREAT starts at 400, says NOTABLE. *)
Lemma score370_tier_counterexample :
  num_same (calculateSeasonScore qbSeason370 "QB") (Fin 370)
  /\ Tier.label (getSeasonTier (calculateSeasonScore qbSeason370 "QB"))
     <> "GREAT".
Proof.
  split; [reflexivity|]. intros Hlabel. discriminate Hlabel.
Qed.

(** ** Pace to records *)

Lemma Qle_bool_inject_Z (a b : Z) :
  Qle_bool (inject_Z a) (inject_Z b) = (a <=? b)%Z.
Proof.
  apply eq_true_iff_eq. rewrite Qle_bool_iff, Z.leb_le, <- Zle_Qle.
  reflexivity.
Qed.

Lemma max2_fin (x y : Q) :
  max2 (Fin x) (Fin y) = Fin (if Qle_bool x y then y else x).
Proof. simpl. destruct (Qle_bool x y); reflexivity. Qed.

Section PaceFacts.
Context {T : Type} `{IsPlayer T}.
Variable stat : T -> Q.
Variables pos recordName : string.

Lemma fold_max_fin (players : list T) (a : Q) :
  exists m,
    fold_left max2 (map (fun q => Fin (stat q)) players) (Fin a) = Fin m
    /\ (m = a \/ exists h, In h players /\ stat h = m)
    /\ a <= m
    /\ forall p, In p players -> stat p <= m.
Proof.
  revert a. induction players as [|x players IH]; intros a.
  - exists a. cbn [map fold_left]. split; [reflexivity|]. split; [now left|].
    split; [apply Qle_refl|]. intros p [].
  - cbn [map fold_left]. rewrite max2_fin.
    destruct (IH (if Qle_bool a (stat x) then stat x else a))
      as [m [Hm [Hin [Hle Hall]]]].
    exists m. split; [exact Hm|].
    destruct (Qle_bool a (stat x)) eqn:E.
    + apply Qle_bool_iff in E. split; [|split].
      * right. destruct Hin as [->|[h [Hh Hs]]].
        -- exists x. split; [now left | reflexivity].
        -- exists h. split; [now right | exact Hs].
      * eapply Qle_trans; eassumption.
      * intros p [<-|Hp]; [exact Hle | apply Hall, Hp].
    + apply Qle_bool_false in E. split; [|split].
      * destruct Hin as [->|[h [Hh Hs]]]; [now left | right].
        exists h. split; [now right | exact Hs].
      * exact Hle.
      * intros p [<-|Hp]; [|apply Hall, Hp].
        apply Qlt_le_weak. eapply Qlt_le_trans; eassumption.
Qed.

Lemma careerRecord_max (players : list T) :
  players <> [] ->
  exists m,
    careerRecord stat players = Fin m
    /\ (exists h, In h players /\ stat h = m)
    /\ forall p, In p players -> stat p <= m.
Proof.
  destruct players as [|x players]; [congruence|]. intros _.
  unfold careerRecord, Math_max. cbn [List.length Nat.ltb Nat.leb map fold_left].
  change (max2 NegInf (Fin (stat x))) with (Fin (stat x)).
  destruct (fold_max_fin players (stat x)) as [m [Hm [Hin [Hle Hall]]]].
  exists m. split; [exact Hm|]. split.
  - destruct Hin as [->|[h [Hh Hs]]].
    + exists x. split; [now left | reflexivity].
    + exists h. split; [now right | exact Hs].
  - intros p [<-|Hp]; [exact Hle | apply Hall, Hp].
Qed.

Lemma careerHolder_some (players : list T) (m : Q) :
  careerRecord stat players = Fin m ->
  (exists h, In h players /\ stat h = m) ->
  exists h, careerHolder stat players = Some h /\ In h players /\ stat h == m.
Proof.
  intros Hrec [h0 [Hin0 Hs0]]. unfold careerHolder. rewrite Hrec.
  destruct (find (fun q => (Fin (stat q) === Fin m)%js) players) as [h|] eqn:E.
  - apply find_some in E. destruct E as [Hin Heq].
    exists h. split; [reflexivity|]. split; [exact Hin|].
    apply Qeq_bool_iff. exact Heq.
  - exfalso. pose proof (find_none _ _ E _ Hin0) as Hno. cbv beta in Hno.
    rewrite Hs0 in Hno. simpl in Hno. rewrite Qeq_bool_refl in Hno.
    discriminate.
Qed.

Lemma pace_positive_total (s g : Q) : 0 < g -> 0 < s / g * 16 -> 0 < s.
Proof.
  intros Hg Hpace.
  assert (Hs : s == (s / g * 16) * (g / 16)).
  { field. intros Hz. rewrite Hz in Hg. apply (Qlt_irrefl _ Hg). }
  rewrite Hs. apply Qmult_lt_0_compat; [exact Hpace|].
  apply Qlt_shift_div_l; [reflexivity|]. rewrite Qmult_0_l. exact Hg.
Qed.

Lemma isActive16_true (q : T) :
  status q = "Active" -> 16 <= games q -> isActive16 q = true.
Proof.
  intros Hs Hg. unfold isActive16. rewrite Hs, String.eqb_refl. simpl.
  apply Qle_bool_iff. exact Hg.
Qed.

Lemma paceBody_entry (q h : T) (m : Q) :
  0 < games q ->
  0 < stat q / games q * 16 ->
  stat q < m ->
  paceBody stat pos recordName (Fin m) (Some h) q
  = (if (Qceiling ((m - stat q) / (stat q / games q * 16)) <=? 5)%Z
     then [paceEntryOf stat pos recordName q m h] else []).
Proof.
  intros Hg Hpace Hlt.
  assert (Hs : 0 < stat q) by exact (pace_positive_total _ _ Hg Hpace).
  assert (Hm : 0 < m) by (eapply Qlt_trans; eassumption).
  unfold paceBody, pacePerSeasonOf, paceEntryOf.
  rewrite (proj2 (ngt0_fin (games q)) Hg).
  rewrite (ndiv_fin_pos (stat q) _ Hg).
  change (Fin (stat q / games q) * num 16)%js
    with (Fin (stat q / games q * 16)).
  rewrite (proj2 (ngt0_fin _) Hpace).
  rewrite (proj2 (nlt_fin _ _) Hlt).
  cbn [andb].
  change (Fin m - Fin (stat q))%js with (Fin (m - stat q)).
  rewrite (ndiv_fin_pos (m - stat q) _ Hpace).
  rewrite (ndiv_fin_pos (stat q) _ Hm).
  cbn [Math_ceil].
  change (Fin (stat q / m) * num 100)%js with (Fin (stat q / m * 100)).
  unfold nle, num. rewrite Qle_bool_inject_Z.
  reflexivity.
Qed.

Lemma pace_contract_holds : pace_contract stat pos recordName.
Proof.
  intros players q Hin Hact Hg16 Hpace Hbelow.
  assert (Hne : players <> []) by (intros ->; contradiction).
  destruct (careerRecord_max players Hne) as [m [Hrec [Hex Hall]]].
  destruct (careerHolder_some players m Hrec Hex) as [h [Hh [Hhin Hhm]]].
  exists m, h.
  assert (Hg : 0 < games q) by (eapply Qlt_le_trans; [|exact Hg16]; reflexivity).
  assert (Hlt : stat q < m) by (rewrite Hrec in Hbelow; apply nlt_fin, Hbelow).
  pose proof (paceBody_entry q h m Hg Hpace Hlt) as Hbody.
  rewrite Hrec, Hh.
  split; [reflexivity|]. split; [reflexivity|]. split; [exact Hhin|].
  split; [exact Hhm|]. split; [exact Hall|]. split; [exact Hbody|].
  intros Hle. unfold paceLoop. apply in_flat_map. exists q. split.
  - apply filter_In. split; [exact Hin | apply isActive16_true; assumption].
  - rewrite Hrec, Hh, Hbody. apply Z.leb_le in Hle. rewrite Hle. now left.
Qed.

Lemma paceBody_seasons (record : number) (holder : option T) (q : T)
  (e : PaceToRecord.t) :
  In e (paceBody stat pos recordName record holder q) ->
  (PaceToRecord.seasonsToBreak e <=? num 5)%js = true.
Proof.
  unfold paceBody.
  destruct ((pacePerSeasonOf stat q >? num 0)%js
            && (Fin (stat q) <? record)%js); [|intros []].
  destruct holder as [h|]; [|intros []].
  destruct (Math_ceil ((record - Fin (stat q)) / pacePerSeasonOf stat q)
              <=? num 5)%js eqn:E; [|intros []].
  intros [<-|[]]. exact E.
Qed.

Lemma paceLoop_seasons (players : list T) (e : PaceToRecord.t) :
  In e (paceLoop stat pos recordName players) ->
  (PaceToRecord.seasonsToBreak e <=? num 5)%js = true.
Proof.
  unfold paceLoop. intros He. apply in_flat_map in He.
  destruct He as [q [_ He]]. eapply paceBody_seasons. exact He.
Qed.

End PaceFacts.

(** C4.  In each of the three pace loops an active player with at least 16
    games, a positive pace (total / games) * 16 and a total strictly below
    the category record has seasonsToBreak = ceil((record - current) / pace)
    and percentToRecord = current / record * 100, and its record is pushed
    if and only if seasonsToBreak <= 5.  With 500 to go at a pace of 100 the
    player is reported with 5 seasons; with 600 to go nothing is reported. *)
Theorem pace_projection :
  pace_contract QB.passYds "QB" "Career Passing Yards"
  /\ pace_contract RB.rushYds "RB" "Career Rushing Yards"
  /\ pace_contract WR.recYds "WR" "Career Receiving Yards"
  /\ map (fun e => (PaceToRecord.playerName e, PaceToRecord.seasonsToBreak e,
                    (PaceToRecord.pacePerSeason e === num 100)%js,
                    (PaceToRecord.recordValue e - PaceToRecord.currentValue e
                       === num 500)%js))
       (paceToRecords (leagueOf [qbRookie; qbVeteran] [] []))
     = [("Rookie", Fin 5, true, true)]
  /\ paceToRecords (leagueOf [qbRookie; qbVeteran700] [] []) = [].
Proof.
  split; [apply pace_contract_holds|].
  split; [apply pace_contract_holds|].
  split; [apply pace_contract_holds|].
  split; reflexivity.
Qed.

Lemma pace_projection_witness :
  exists m h,
    careerRecord QB.passYds [qbRookie; qbVeteran] = Fin m
    /\ careerHolder QB.passYds [qbRookie; qbVeteran] = Some h
    /\ In (paceEntryOf QB.passYds "QB" "Career Passing Yards" qbRookie m h)
         (qbPace [qbRookie; qbVeteran]).
Proof.
  destruct pace_projection as [Hqb _].
  destruct (Hqb [qbRookie; qbVeteran] qbRookie)
    as [m [h [Hrec [Hh [_ [_ [_ [_ Hin]]]]]]]].
  - left. reflexivity.
  - reflexivity.
  - apply Qle_bool_iff. reflexivity.
  - reflexivity.
  - reflexivity.
  - exists m, h. split; [exact Hrec|]. split; [exact Hh|].
    apply Hin. vm_compute in Hrec. injection Hrec as <-.
    apply Z.leb_le. reflexivity.
Defined.

(** C8.  The pace records are returned in ascending order of
    seasonsToBreak: each entry's seasons are at most those of the next. *)
Theorem paceToRecords_sorted (c : CareerData) (i : nat)
  (a b : PaceToRecord.t) :
  nth_error (paceToRecords c) i = Some a ->
  nth_error (paceToRecords c) (S i) = Some b ->
  (PaceToRecord.seasonsToBreak a <=? PaceToRecord.seasonsToBreak b)%js = true.
Proof.
  intros Ha Hb.
  apply (StronglySorted_nth _
           (fun x y => (PaceToRecord.seasonsToBreak x
                        <=? PaceToRecord.seasonsToBreak y)%js = true)
           (paceToRecords c)) with (i := i) (j := S i);
    [|lia|exact Ha|exact Hb].
  unfold paceToRecords.
  change bySeasonsToBreak
    with (fun a b => (PaceToRecord.seasonsToBreak a
                      - PaceToRecord.seasonsToBreak b)%js).
  apply js_sort_asc_sorted. apply Forall_forall. intros e He.
  apply nle_defined_l with (b := num 5).
  repeat (apply in_app_or in He; destruct He as [He|He]);
    unfold qbPace, rbPace, wrPace in He; apply paceLoop_seasons in He;
    exact He.
Qed.

Lemma paceToRecords_sorted_witness :
  map PaceToRecord.playerName
    (paceToRecords (leagueOf [qbRookie; qbChaser; qbVeteran] [] []))
  = ["Chaser"; "Rookie"]
  /\ exists a b,
       nth_error (paceToRecords (leagueOf [qbRookie; qbChaser; qbVeteran] [] []))
         0 = Some a
       /\ nth_error (paceToRecords (leagueOf [qbRookie; qbChaser; qbVeteran] [] []))
            1 = Some b
       /\ (PaceToRecord.seasonsToBreak a <=? PaceToRecord.seasonsToBreak b)%js
          = true.
Proof.
  split; [reflexivity|]. eexists. eexists.
  split; [reflexivity|]. split; [reflexivity|].
  eapply (paceToRecords_sorted
            (leagueOf [qbRookie; qbChaser; qbVeteran] [] []) 0 _ _);
    reflexivity.
Defined.

(** ** Arrays in the store: what a computation leaves behind *)

Section StoreFacts.
Variable T : Type.

Lemma read_alloc_old (s : store T) (l : list T) (r : ref) :
  (r < List.length s)%nat -> read (s ++ [l]) r = read s r.
Proof. intros Hr. unfold read. apply app_nth1. exact Hr. Qed.

Lemma read_alloc_new (s : store T) (l : list T) :
  read (s ++ [l]) (List.length s) = l.
Proof. unfold read. apply nth_middle. Qed.

Lemma update_length (r : ref) (l : list T) (s : store T) :
  List.length (update r l s) = List.length s.
Proof.
  revert r. induction s as [|x s IH]; intros [|r]; simpl; try reflexivity.
  rewrite IH. reflexivity.
Qed.

Lemma read_update_same (r : ref) (l : list T) (s : store T) :
  (r < List.length s)%nat -> read (update r l s) r = l.
Proof.
  revert r. induction s as [|x s IH]; intros [|r]; simpl; try lia.
  - reflexivity.
  - intros Hr. apply IH. lia.
Qed.

Lemma read_update_other (r r' : ref) (l : list T) (s : store T) :
  r <> r' -> read (update r l s) r' = read s r'.
Proof.
  revert r r'. induction s as [|x s IH]; intros [|r] [|r'] Hne; simpl;
    try reflexivity; try congruence.
  apply IH. congruence.
Qed.

Lemma keeps_refl (s : store T) : keeps s s.
Proof. split; [lia | reflexivity]. Qed.

Lemma keeps_trans (s1 s2 s3 : store T) :
  keeps s1 s2 -> keeps s2 s3 -> keeps s1 s3.
Proof.
  intros [L12 R12] [L23 R23]. split; [lia|].
  intros r Hr. rewrite R23 by lia. apply R12, Hr.
Qed.

Lemma keeps_alloc (s : store T) (l : list T) : keeps s (s ++ [l]).
Proof.
  split; [rewrite length_app; simpl; lia|].
  intros r Hr. apply read_alloc_old, Hr.
Qed.

(** Sorting an array allocated after [s] keeps [s]. *)
Lemma keeps_update_fresh (s s' : store T) (r : ref) (l : list T) :
  keeps s s' -> (List.length s <= r)%nat -> keeps s (update r l s').
Proof.
  intros [L R] Hr. split; [rewrite update_length; exact L|].
  intros r' Hr'. rewrite read_update_other by lia. apply R, Hr'.
Qed.

End StoreFacts.

Section StoreProgFacts.
Context {T : Type} `{IsPlayer T}.

Lemma findTopN_m_spec (s : store T) (players : ref) (getValue : T -> number)
  (stat description : string) (n : nat) :
  fst (findTopN_m players getValue stat description n s)
  = findTopN (read s players) getValue stat description n
  /\ keeps s (snd (findTopN_m players getValue stat description n s)).
Proof.
  unfold findTopN_m, findTopN, bind, arr_length, ret.
  destruct (List.length (read s players) =? 0)%nat; cbn [fst snd].
  { split; [reflexivity | apply keeps_refl]. }
  unfold arr_copy, arr_filter, arr_sort, arr_slice0, arr_map, alloc.
  cbn [fst snd].
  set (s1 := (s ++ [read s players])%list).
  assert (R1 : read s1 (List.length s) = read s players)
    by apply read_alloc_new.
  rewrite R1.
  set (kept := filter (fun p => (getValue p >? num 0)%js) (read s players)).
  set (s2 := (s1 ++ [kept])%list).
  assert (R2 : read s2 (List.length s1) = kept) by apply read_alloc_new.
  rewrite R2.
  set (s3 := update (List.length s1) (js_sort (byValueDesc getValue) kept) s2).
  assert (L2 : List.length s2 = S (List.length s1))
    by (unfold s2; rewrite length_app; simpl; lia).
  assert (R3 : read s3 (List.length s1) = js_sort (byValueDesc getValue) kept)
    by (apply read_update_same; lia).
  rewrite R3.
  set (top := slice0 n (js_sort (byValueDesc getValue) kept)).
  assert (R4 : read (s3 ++ [top]) (List.length s3) = top)
    by apply read_alloc_new.
  rewrite R4.
  assert (K : keeps s (s3 ++ [top])).
  { eapply keeps_trans; [|apply keeps_alloc].
    apply keeps_update_fresh.
    - eapply keeps_trans; apply keeps_alloc.
    - unfold s1. rewrite length_app. simpl. lia. }
  change (topPlayers (read s players) getValue n) with top.
  destruct (List.length top =? 0)%nat; cbn [fst snd];
    (split; [rewrite ?R4; reflexivity | exact K]).
Qed.

Lemma leader_m_spec (s : store T) (keep : T -> bool) (cmp : T -> T -> number)
  (xs : ref) :
  fst (leader_m keep cmp xs s) = leader keep cmp (read s xs)
  /\ keeps s (snd (leader_m keep cmp xs s)).
Proof.
  unfold leader_m, leader, bind, arr_filter, arr_sort, arr_first, alloc.
  cbn [fst snd].
  set (s1 := (s ++ [filter keep (read s xs)])%list).
  assert (R1 : read s1 (List.length s) = filter keep (read s xs))
    by apply read_alloc_new.
  rewrite R1.
  assert (L1 : List.length s1 = S (List.length s))
    by (unfold s1; rewrite length_app; simpl; lia).
  rewrite read_update_same by lia.
  split; [reflexivity|].
  apply keeps_update_fresh; [apply keeps_alloc | lia].
Qed.

End StoreProgFacts.

(** In the store model an in-place sort of the input itself would be seen:
    [arr_sort] applied to the array handed in rearranges it. *)
Lemma arr_sort_rearranges_receiver :
  read (snd (arr_sort (byValueDesc (fun p : QB.t => Fin (QB.passYds p))) 0%nat
               [[qbRookie; qbVeteran]])) 0%nat
  = [qbVeteran; qbRookie].
Proof. reflexivity. Qed.

(** C9.  Computing a leaderboard with [findTopN], or a single leader by
    filter-and-sort, leaves the array of players it is handed exactly as it
    was, element for element and in order -- and every other array of the
    store with it; the value computed is the one of the pure reading. *)
Theorem inputs_not_mutated (T : Type) (HT : IsPlayer T) (s : store T)
  (players : ref) :
  (players < List.length s)%nat ->
  (forall getValue stat description n,
     read (snd (findTopN_m players getValue stat description n s)) players
     = read s players
     /\ keeps s (snd (findTopN_m players getValue stat description n s))
     /\ fst (findTopN_m players getValue stat description n s)
        = findTopN (read s players) getValue stat description n)
  /\ (forall keep cmp,
        read (snd (leader_m keep cmp players s)) players = read s players
        /\ keeps s (snd (leader_m keep cmp players s))
        /\ fst (leader_m keep cmp players s) = leader keep cmp (read s players)).
Proof.
  intros Hp. split.
  - intros getValue stat description n.
    destruct (findTopN_m_spec s players getValue stat description n)
      as [Hres Hkeep].
    split; [apply Hkeep, Hp|]. split; [exact Hkeep | exact Hres].
  - intros keep cmp.
    destruct (leader_m_spec s keep cmp players) as [Hres Hkeep].
    split; [apply Hkeep, Hp|]. split; [exact Hkeep | exact Hres].
Qed.

Lemma inputs_not_mutated_witness :
  read (snd (findTopN_m 0%nat (fun p : QB.t => Fin (QB.passYds p))
               "Career Passing Yards" "Total passing yards" 5%nat
               [[qbBench; qbRookie; qbVeteran]])) 0%nat
  = [qbBench; qbRookie; qbVeteran]
  /\ read (snd (topQBEff_m 0%nat [[qbAt201; qbClean; qbBench]])) 0%nat
     = [qbAt201; qbClean; qbBench].
Proof.
  split.
  - destruct (inputs_not_mutated QB.t _ [[qbBench; qbRookie; qbVeteran]] 0%nat
                (Nat.lt_0_succ 0)) as [Hboard _].
    exact (proj1 (Hboard _ _ _ _)).
  - destruct (inputs_not_mutated QB.t _ [[qbAt201; qbClean; qbBench]] 0%nat
                (Nat.lt_0_succ 0)) as [_ Hleader].
    exact (proj1 (Hleader _ _)).
Defined.

(** ** Season history: keys *)

Lemma split_on_nonempty (c : ascii) (s : string) : split_on c s <> [].
Proof.
  destruct s as [|a s]; simpl; [discriminate|].
  destruct (Ascii.eqb a c); [discriminate|].
  destruct (split_on c s); discriminate.
Qed.

Lemma join_with_cons (sep x y : string) (l : list string) :
  join_with sep (x :: y :: l) = (x ++ sep ++ join_with sep (y :: l))%string.
Proof. reflexivity. Qed.

Lemma join_split (s : string) : join_with ":" (split_on colon s) = s.
Proof.
  induction s as [|a s IH]; [reflexivity|]. cbn [split_on].
  pose proof (split_on_nonempty colon s) as Hne.
  destruct (split_on colon s) as [|part parts]; [congruence|].
  destruct (Ascii.eqb a colon) eqn:E.
  - apply Ascii.eqb_eq in E. subst a.
    rewrite join_with_cons, IH. reflexivity.
  - destruct parts as [|part' parts'].
    + simpl in *. rewrite IH. reflexivity.
    + rewrite join_with_cons. rewrite join_with_cons in IH.
      rewrite <- IH. reflexivity.
Qed.

Lemma colonKey_of_two_parts (k p q : string) (rest : list string) :
  split_on colon k = p :: q :: rest -> colonKey k.
Proof.
  intros Hs. unfold colonKey, keyPosition, keyName. rewrite Hs. simpl hd.
  simpl tl. rewrite <- (join_split k) at 1. rewrite Hs. reflexivity.
Qed.

(** A key that starts with a two-letter position and a colon. *)
Lemma colonKey_of_prefix (a b : ascii) (k : string) :
  Ascii.eqb a colon = false -> Ascii.eqb b colon = false ->
  startsWith (String a (String b ":")) k = true -> colonKey k.
Proof.
  intros Ha Hb Hpre. unfold startsWith in Hpre.
  destruct k as [|a' [|b' [|c' k']]]; cbn [String.prefix] in Hpre;
    try discriminate.
  - destruct (ascii_dec a a'); discriminate.
  - destruct (ascii_dec a a'); [|discriminate].
    destruct (ascii_dec b b'); discriminate.
  - destruct (ascii_dec a a'); [subst a'|discriminate].
    destruct (ascii_dec b b'); [subst b'|discriminate].
    destruct (ascii_dec ":" c'); [subst c'|discriminate].
    pose proof (split_on_nonempty colon k') as Hne.
    destruct (split_on colon k') as [|q rest] eqn:Ek; [congruence|].
    apply (colonKey_of_two_parts _ (String a (String b "")) q rest).
    cbn [split_on]. rewrite Ha, Hb. cbn. rewrite Ek. reflexivity.
Qed.

Lemma colonKey_of_isDefKey (k : string) : isDefKey k = true -> colonKey k.
Proof.
  unfold isDefKey. cbn [existsb]. rewrite !orb_true_iff.
  intros [Hk|[Hk|[Hk|Hk]]]; try discriminate;
    eapply colonKey_of_prefix; try exact Hk; reflexivity.
Qed.

Lemma history_key_unique (history : SeasonHistory) (k : string)
  (a b : list Snapshot.t) :
  NoDup (map fst history) -> In (k, a) history -> In (k, b) history -> a = b.
Proof.
  induction history as [|[k' c] history IH]; simpl; [contradiction|].
  intros Hnd Ha Hb. inversion Hnd as [|? ? Hnotin Hnd']; subst.
  assert (Hfst : forall x, In (k', x) history -> False).
  { intros x Hx. apply Hnotin. apply in_map_iff. exists (k', x). auto. }
  destruct Ha as [Ha|Ha], Hb as [Hb|Hb].
  - congruence.
  - injection Ha as -> ->. exfalso. eapply Hfst, Hb.
  - injection Hb as -> ->. exfalso. eapply Hfst, Ha.
  - apply IH; assumption.
Qed.

(** ** Single-season records *)

Lemma allSnapshots_In (history : SeasonHistory) (ks : Keyed.t) :
  In ks (allSnapshots history) <->
  exists snaps,
    In (Keyed.playerKey ks, snaps) history
    /\ (1 < List.length snaps)%nat
    /\ In (Keyed.snapshot ks) snaps.
Proof.
  unfold allSnapshots. rewrite in_flat_map. split.
  - intros [[k snaps] [Hin Hks]].
    destruct (List.length snaps <=? 1)%nat eqn:E; [contradiction|].
    apply Nat.leb_gt in E. apply in_map_iff in Hks.
    destruct Hks as [s [<- Hs]]. exists snaps. simpl. auto.
  - intros [snaps [Hin [Hlen Hs]]]. exists (Keyed.playerKey ks, snaps).
    split; [exact Hin|]. apply Nat.leb_gt in Hlen. rewrite Hlen.
    apply in_map_iff. exists (Keyed.snapshot ks). split; [|exact Hs].
    destruct ks; reflexivity.
Qed.

Lemma topSnapshots_In (all : list Keyed.t) (keep : string -> bool)
  (getValue : Snapshot.t -> number) (n : nat) (ks : Keyed.t) :
  In ks (topSnapshots all keep getValue n) ->
  In ks all /\ keep (Keyed.playerKey ks) = true
  /\ (getValue (Keyed.snapshot ks) >? num 0)%js = true.
Proof.
  unfold topSnapshots, slice0. intros Hks. apply firstn_In in Hks.
  apply js_sort_In in Hks. apply filter_In in Hks. destruct Hks as [Hks Hpos].
  apply filter_In in Hks. destruct Hks as [Hin Hkeep]. auto.
Qed.

Lemma findTopNSeason_Some (all : list Keyed.t) (keep : string -> bool)
  (getValue : Snapshot.t -> number) (stat description : string) (n : nat)
  (r : TopNRecord.t) :
  findTopNSeason all keep getValue stat description n = Some r ->
  r = {| TopNRecord.stat := stat;
         TopNRecord.description := description;
         TopNRecord.entries :=
           map (toSeasonEntry getValue stat)
             (topSnapshots all keep getValue n) |}.
Proof.
  unfold findTopNSeason.
  destruct (List.length (filter _ all) =? 0)%nat; [discriminate|].
  destruct (List.length (topSnapshots all keep getValue n) =? 0)%nat;
    [discriminate|].
  intros [= <-]. reflexivity.
Qed.

Lemma findTopNSeason_entries (history : SeasonHistory) (keep : string -> bool)
  (getValue : Snapshot.t -> number) (stat description : string) (n : nat)
  (r : TopNRecord.t) (e : RecordEntry.t) :
  (forall k, keep k = true -> colonKey k) ->
  findTopNSeason (allSnapshots history) keep getValue stat description n
  = Some r ->
  In e (TopNRecord.entries r) ->
  fromMultiSeason history (TopNRecord.stat r) e.
Proof.
  intros Hkeep Hr He. apply findTopNSeason_Some in Hr. subst r. simpl in *.
  apply in_map_iff in He. destruct He as [[k s] [<- Hks]].
  apply topSnapshots_In in Hks. destruct Hks as [Hall [Hk _]].
  apply allSnapshots_In in Hall. destruct Hall as [snaps [Hin [Hlen Hs]]].
  simpl in *. exists k, snaps, s, getValue. auto 6.
Qed.

(** C10.  The single-season boards are built only from snapshots of keys
    that store more than one season: every entry of every board comes from
    such a key, and -- the keys of the history being distinct -- a player with
    exactly one stored season has no entry in any board, whatever the value
    of that season.  When no key stores more than one season there are no
    boards at all. *)
Theorem singleSeason_needs_two_seasons (history : SeasonHistory) :
  (forall recs, singleSeasonRecords history = Some recs ->
     (forall board e,
        In (Some board) (SingleSeason.boards recs) ->
        In e (TopNRecord.entries board) ->
        fromMultiSeason history (TopNRecord.stat board) e)
     /\ (NoDup (map fst history) ->
         forall k s, In (k, [s]) history -> colonKey k ->
         forall board e,
           In (Some board) (SingleSeason.boards recs) ->
           In e (TopNRecord.entries board) ->
           ~ (RecordEntry.position e = keyPosition k
              /\ RecordEntry.playerName e = keyName k)))
  /\ ((forall k snaps, In (k, snaps) history -> (List.length snaps <= 1)%nat) ->
      singleSeasonRecords history = None).
Proof.
  assert (Hpre : forall a b k, Ascii.eqb a colon = false ->
            Ascii.eqb b colon = false ->
            startsWith (String a (String b ":")) k = true -> colonKey k)
    by (intros a b k; apply colonKey_of_prefix).
  assert (Hboards : forall recs, singleSeasonRecords history = Some recs ->
            forall board e,
              In (Some board) (SingleSeason.boards recs) ->
              In e (TopNRecord.entries board) ->
              fromMultiSeason history (TopNRecord.stat board) e).
  { intros recs Hrecs board e Hb He. unfold singleSeasonRecords in Hrecs.
    destruct (List.length (allSnapshots history) =? 0)%nat; [discriminate|].
    injection Hrecs as <-. unfold SingleSeason.boards in Hb.
    cbn [SingleSeason.qbPassYds SingleSeason.qbPassTD SingleSeason.qbTotalTD
         SingleSeason.rbRushYds SingleSeason.rbRushTD SingleSeason.rbScrimmage
         SingleSeason.wrRecYds SingleSeason.wrRecTD SingleSeason.teRecYds
         SingleSeason.defTackles SingleSeason.defSacks SingleSeason.defINT
         In] in Hb.
    repeat (destruct Hb as [Hb|Hb];
            [eapply findTopNSeason_entries; [|exact Hb|exact He];
             intros k Hk;
             first [apply colonKey_of_isDefKey; exact Hk
                   |eapply Hpre; [| |exact Hk]; reflexivity]|]).
    contradiction. }
  split.
  - intros recs Hrecs. split; [apply Hboards, Hrecs|].
    intros Hnd k s Hin Hk board e Hb He [Hpos Hname].
    destruct (Hboards recs Hrecs board e Hb He)
      as [k1 [snaps [s1 [getValue [Hin1 [Hlen [_ [Hk1 ->]]]]]]]].
    simpl in Hpos, Hname.
    assert (Heq : k1 = k).
    { rewrite Hk1, Hk, Hpos, Hname. reflexivity. }
    subst k1.
    rewrite (history_key_unique history k snaps [s] Hnd Hin1 Hin) in Hlen.
    simpl in Hlen. lia.
  - intros Hall. unfold singleSeasonRecords.
    assert (Hnil : allSnapshots history = []).
    { destruct (allSnapshots history) as [|ks rest] eqn:E; [reflexivity|].
      assert (Hks : In ks (allSnapshots history)) by (rewrite E; now left).
      apply allSnapshots_In in Hks. destruct Hks as [snaps [Hin [Hlen _]]].
      apply Hall in Hin. lia. }
    rewrite Hnil. reflexivity.
Qed.

Lemma singleSeason_needs_two_seasons_witness :
  exists recs,
    singleSeasonRecords sampleHistory = Some recs
    /\ option_map (fun b => map RecordEntry.playerName (TopNRecord.entries b))
         (SingleSeason.qbPassYds recs) = Some ["Ace"; "Ace"]
    /\ forall board e,
         In (Some board) (SingleSeason.boards recs) ->
         In e (TopNRecord.entries board) ->
         ~ (RecordEntry.position e = "QB" /\ RecordEntry.playerName e = "Solo").
Proof.
  eexists. split; [reflexivity|]. split; [reflexivity|].
  apply (proj2 (proj1 (singleSeason_needs_two_seasons sampleHistory) _ eq_refl))
    with (k := "QB:Solo") (s := qbSnapshot "Y1" 5500 50 300 5 2).
  - repeat constructor; simpl; intuition discriminate.
  - right. left. reflexivity.
  - reflexivity.
Defined.

(** ** Greatest seasons *)

Lemma scoredSeasons_spec (history : SeasonHistory) :
  scoredSeasons history = scoredOfMultiSeason history.
Proof.
  unfold scoredSeasons, scoredOfMultiSeason, multiSeason.
  induction history as [|[k snaps] history IH]; [reflexivity|].
  cbn [flat_map filter snd]. rewrite IH.
  destruct (List.length snaps <=? 1)%nat eqn:E.
  - apply Nat.leb_le in E.
    assert (E' : (1 <? List.length snaps)%nat = false)
      by (apply Nat.ltb_ge; exact E).
    rewrite E'. reflexivity.
  - apply Nat.leb_gt in E.
    assert (E' : (1 <? List.length snaps)%nat = true)
      by (apply Nat.ltb_lt; exact E).
    rewrite E'. reflexivity.
Qed.

Lemma scoredSeasons_In (history : SeasonHistory) (g : GreatSeason.t) :
  In g (scoredSeasons history) <->
  exists k snaps s,
    In (k, snaps) history /\ (1 < List.length snaps)%nat /\ In s snaps
    /\ g = greatSeasonOf k s.
Proof.
  unfold scoredSeasons. rewrite in_flat_map. split.
  - intros [[k snaps] [Hin Hg]].
    destruct (List.length snaps <=? 1)%nat eqn:E; [contradiction|].
    apply Nat.leb_gt in E. apply in_map_iff in Hg. destruct Hg as [s [<- Hs]].
    exists k, snaps, s. auto.
  - intros [k [snaps [s [Hin [Hlen [Hs ->]]]]]]. exists (k, snaps).
    split; [exact Hin|]. apply Nat.leb_gt in Hlen. rewrite Hlen.
    apply in_map. exact Hs.
Qed.

(** The score the list is sorted by is a double, and it is finite on stored
    fields of magnitude up to [2 ^ 1000]. *)
Lemma calculateSeasonScore64_isDouble (snapshot : Snapshot.t) (pos : string) :
  isDouble (calculateSeasonScore64 snapshot pos).
Proof.
  unfold calculateSeasonScore64.
  repeat match goal with |- context [if ?c then _ else _] => destruct c end;
    unfold add64; apply round64_isDouble.
Qed.

Lemma add64_bounded (k : Z) (a b : number) :
  (-1073 <= k <= 1023)%Z ->
  bounded (k - 1) a -> bounded (k - 1) b -> bounded k (a + b)%double.
Proof.
  intros Hk Ha Hb. unfold add64. apply round64_bounded; [lia|].
  replace k with (k - 1 + 1)%Z by lia. apply bounded_add; assumption.
Qed.

Lemma sub64_bounded (k : Z) (a b : number) :
  (-1073 <= k <= 1023)%Z ->
  bounded (k - 1) a -> bounded (k - 1) b -> bounded k (a - b)%double.
Proof.
  intros Hk Ha Hb. unfold sub64. apply round64_bounded; [lia|].
  replace k with (k - 1 + 1)%Z by lia. apply bounded_sub; assumption.
Qed.

Lemma stat64_bounded (x : option Q) : fieldInRange x -> bounded 1000 (stat64 x).
Proof.
  unfold fieldInRange, stat64, or0. intros Hx.
  apply round64_bounded; [lia | exact Hx].
Qed.

Lemma mul64_stat_bounded (k : Z) (x : option Q) (c : Z) :
  fieldInRange x -> (Z.abs c <=? 2 ^ 7)%Z = true -> (1007 <= k <= 1023)%Z ->
  bounded k (stat64 x * num c)%double.
Proof.
  intros Hx Hc Hk. unfold mul64. apply round64_bounded; [lia|].
  apply (bounded_mono (1000 + 7) k); [lia|].
  apply bounded_mul; [apply stat64_bounded; exact Hx|].
  apply bounded_num; [lia | apply Z.leb_le; exact Hc].
Qed.

Lemma div64_stat_bounded (k : Z) (x : option Q) (c : Z) :
  fieldInRange x -> (1 <=? c)%Z = true -> (1000 <= k <= 1023)%Z ->
  bounded k (stat64 x / num c)%double.
Proof.
  intros Hx Hc Hk. unfold div64. apply round64_bounded; [lia|].
  apply (bounded_mono 1000 k); [lia|].
  apply bounded_div; [apply Z.leb_le; exact Hc|].
  apply stat64_bounded; exact Hx.
Qed.

Lemma calculateSeasonScore64_bounded (snapshot : Snapshot.t) (pos : string) :
  snapshotInRange snapshot ->
  bounded 1023 (calculateSeasonScore64 snapshot pos).
Proof.
  unfold snapshotInRange. rewrite Forall_forall. intros Hs.
  unfold calculateSeasonScore64, awardBonus64.
  repeat match goal with |- context [if ?c then _ else _] => destruct c end;
    repeat first [ apply sub64_bounded; [lia| |]
                 | apply add64_bounded; [lia| |] ];
    first [ apply mul64_stat_bounded; [apply Hs; simpl; tauto | reflexivity | lia]
          | apply div64_stat_bounded; [apply Hs; simpl; tauto | reflexivity | lia] ].
Qed.

Lemma historyInRange_scoresDefined (history : SeasonHistory) :
  historyInRange history -> scoresDefined history.
Proof.
  intros Hr. apply Forall_forall. intros g Hg. apply scoredSeasons_In in Hg.
  destruct Hg as [k [snaps [s [Hin [_ [Hs ->]]]]]]. cbn [GreatSeason.score greatSeasonOf].
  apply (bounded_finite 1023). apply calculateSeasonScore64_bounded.
  apply (Hr k snaps s Hin Hs).
Qed.

Lemma scoredSeasons_sorted (history : SeasonHistory) :
  scoresDefined history ->
  StronglySorted
    (fun a b => (GreatSeason.score a >=? GreatSeason.score b)%js = true)
    (js_sort byScoreDesc (scoredSeasons history)).
Proof.
  intros Hdef.
  change byScoreDesc
    with (fun a b => (GreatSeason.score b - GreatSeason.score a)%double).
  apply js_sort_desc64_sorted.
  unfold scoresDefined in Hdef. rewrite Forall_forall in *.
  intros g Hg. split; [apply Hdef; exact Hg|].
  apply scoredSeasons_In in Hg. destruct Hg as [k [snaps [s [_ [_ [_ ->]]]]]].
  apply calculateSeasonScore64_isDouble.
Qed.

(** C7.  The greatest seasons are the snapshots of the keys that store more
    than one season, each scored by [calculateSeasonScore] as the source
    computes it (on doubles), sorted by descending score and cut to the
    first 20.  The order is that of the scores whenever no score is [NaN],
    which is so for every history whose stored fields have a magnitude of at
    most [2 ^ 1000]. *)
Theorem greatestSeasons_top20 (history : SeasonHistory) :
  scoredSeasons history = scoredOfMultiSeason history
  /\ (exists sorted,
        Permutation sorted (scoredOfMultiSeason history)
        /\ (scoresDefined history ->
            StronglySorted
              (fun a b =>
                 (GreatSeason.score a >=? GreatSeason.score b)%js = true)
              sorted)
        /\ greatestSeasons history = firstn 20 sorted)
  /\ List.length (greatestSeasons history)
     = Nat.min 20 (List.length (scoredOfMultiSeason history))
  /\ (scoresDefined history ->
      forall i j a b, (i < j)%nat ->
        nth_error (greatestSeasons history) i = Some a ->
        nth_error (greatestSeasons history) j = Some b ->
        (GreatSeason.score a >=? GreatSeason.score b)%js = true)
  /\ (forall g, In g (greatestSeasons history) ->
        exists k snaps s,
          In (k, snaps) history /\ (1 < List.length snaps)%nat /\ In s snaps
          /\ g = greatSeasonOf k s
          /\ GreatSeason.score g = calculateSeasonScore64 s (keyPosition k))
  /\ (historyInRange history -> scoresDefined history).
Proof.
  pose proof (scoredSeasons_spec history) as Hspec.
  split; [exact Hspec|]. split; [|split; [|split; [|split]]].
  - exists (js_sort byScoreDesc (scoredSeasons history)).
    split; [rewrite <- Hspec; apply js_sort_perm|].
    split; [apply scoredSeasons_sorted | reflexivity].
  - unfold greatestSeasons, slice0.
    rewrite length_firstn, js_sort_length, Hspec. reflexivity.
  - intros Hdef. apply StronglySorted_nth. unfold greatestSeasons, slice0.
    apply StronglySorted_firstn. apply scoredSeasons_sorted. exact Hdef.
  - intros g Hg. unfold greatestSeasons, slice0 in Hg. apply firstn_In in Hg.
    apply js_sort_In in Hg. apply scoredSeasons_In in Hg.
    destruct Hg as [k [snaps [s [Hin [Hlen [Hs ->]]]]]].
    exists k, snaps, s. auto 6.
  - apply historyInRange_scoresDefined.
Qed.

Lemma qbSnapshot_inRange (season : string) (a b c d e : Z) :
  (Z.abs a <=? 2 ^ 1000)%Z = true -> (Z.abs b <=? 2 ^ 1000)%Z = true ->
  (Z.abs c <=? 2 ^ 1000)%Z = true -> (Z.abs d <=? 2 ^ 1000)%Z = true ->
  (Z.abs e <=? 2 ^ 1000)%Z = true ->
  snapshotInRange
    (qbSnapshot season (inject_Z a) (inject_Z b) (inject_Z c) (inject_Z d)
       (inject_Z e)).
Proof.
  assert (Hz : forall z, (Z.abs z <=? 2 ^ 1000)%Z = true ->
                 fieldInRange (Some (inject_Z z))).
  { intros z Hz. unfold fieldInRange, orZero.
    assert (Hb : bounded 1000 (num z)).
    { apply bounded_num; [lia | apply Z.leb_le; exact Hz]. }
    destruct (Qeq_bool (inject_Z z) 0); [|exact Hb].
    change (Qabs 0) with 0. apply Qlt_le_weak, pow2_pos. }
  assert (Hn : fieldInRange None).
  { unfold fieldInRange, orZero. change (Qabs 0) with 0.
    apply Qlt_le_weak, pow2_pos. }
  intros Ha Hb Hc Hd He. unfold snapshotInRange, qbSnapshot.
  cbn [Snapshot.passYds Snapshot.passTD Snapshot.rushYds Snapshot.rushTD
       Snapshot.interceptions Snapshot.recYds Snapshot.recTD
       Snapshot.receptions Snapshot.tackles Snapshot.sacks
       Snapshot.forcedFumbles Snapshot.mvp Snapshot.opoy Snapshot.sbmvp
       Snapshot.roty Snapshot.rings].
  repeat constructor; auto.
Qed.

Lemma roundHistory_inRange : historyInRange roundHistory.
Proof.
  intros k snaps s [Hk|[]] Hs. injection Hk as <- <-.
  destruct Hs as [<-|[<-|[]]].
  - apply (qbSnapshot_inRange "Y1" 4945 46 506 4 19); reflexivity.
  - apply (qbSnapshot_inRange "Y2" 3785 46 270 0 0); reflexivity.
Qed.

Lemma greatestSeasons_top20_witness :
  map (fun g => (GreatSeason.playerName g, GreatSeason.season g))
    (greatestSeasons sampleHistory)
  = [("Ace", "Y3"); ("Ace", "Y1")]
  /\ List.length (greatestSeasons sampleHistory) = 2%nat
  /\ historyInRange roundHistory
  /\ map (fun g => (GreatSeason.playerName g, GreatSeason.season g))
       (greatestSeasons roundHistory)
     = [("Round", "Y2"); ("Round", "Y1")]
  /\ (forall a b,
        nth_error (greatestSeasons roundHistory) 0 = Some a ->
        nth_error (greatestSeasons roundHistory) 1 = Some b ->
        (GreatSeason.score a >=? GreatSeason.score b)%js = true).
Proof.
  split; [vm_compute; reflexivity|]. split.
  - rewrite (proj1 (proj2 (proj2 (greatestSeasons_top20 sampleHistory)))).
    reflexivity.
  - split; [exact roundHistory_inRange|].
    split; [vm_compute; reflexivity|].
    intros a b Ha Hb.
    destruct (greatestSeasons_top20 roundHistory)
      as [_ [_ [_ [Hsorted [_ Hrange]]]]].
    apply (Hsorted (Hrange roundHistory_inRange) 0%nat 1%nat a b);
      [lia | exact Ha | exact Hb].
Defined.

(** On the season of 370 points the double is the exact score. *)
Lemma calculateSeasonScore64_qbSeason370 :
  calculateSeasonScore64 qbSeason370 "QB" = Fin 370
  /\ num_same (calculateSeasonScore qbSeason370 "QB")
       (calculateSeasonScore64 qbSeason370 "QB").
Proof. split; vm_compute; reflexivity. Qed.

(** The last bit decides: the two seasons of [roundHistory] have the same
    score in exact arithmetic and the later one the larger double, so the
    list starts with the later one. *)
Lemma greatestSeasons_rounding_order :
  num_same (calculateSeasonScore (qbSnapshot "Y1" 4945 46 506 4 19) "QB")
    (calculateSeasonScore (qbSnapshot "Y2" 3785 46 270 0 0) "QB")
  /\ map GreatSeason.score (scoredSeasons roundHistory)
     = [ Fin (4830814287796633 # 8796093022208);
         Fin (2415407143898317 # 4398046511104) ]
  /\ map GreatSeason.season (greatestSeasons roundHistory) = ["Y2"; "Y1"].
Proof.
  split; [vm_compute; reflexivity|]. split; vm_compute; reflexivity.
Qed.

(* ================================================================== *)
(** * Further properties of the records tab *)

(** ** More on the sort *)

Section SortStability.
Variable A : Type.
Variable cmp : A -> A -> number.
Variable keep : A -> bool.

(** Members of [keep] never compare as "greater" with one another. *)
Hypothesis keep_level : forall x y,
  keep x = true -> keep y = true -> (cmp x y >? num 0)%js = false.

Lemma sort_insert_filter (x : A) (l : list A) :
  filter keep (sort_insert cmp x l)
  = if keep x then x :: filter keep l else filter keep l.
Proof.
  induction l as [|y l IH]; cbn [sort_insert].
  - cbn [filter]. destruct (keep x); reflexivity.
  - destruct (cmp x y >? num 0)%js eqn:E.
    + cbn [filter]. rewrite IH.
      destruct (keep x) eqn:Kx, (keep y) eqn:Ky; try reflexivity.
      rewrite (keep_level x y Kx Ky) in E. discriminate.
    + cbn [filter]. destruct (keep x); reflexivity.
Qed.

Lemma js_sort_filter (l : list A) :
  filter keep (js_sort cmp l) = filter keep l.
Proof.
  induction l as [|x l IH]; [reflexivity|].
  cbn [js_sort fold_right]. rewrite sort_insert_filter.
  fold (js_sort cmp l). rewrite IH. cbn [filter].
  destruct (keep x); reflexivity.
Qed.

End SortStability.

Lemma jseq_level (a b v : number) :
  (a === v)%js = true -> (b === v)%js = true -> (b - a >? num 0)%js = false.
Proof.
  destruct a as [x| | |], b as [y| | |], v as [z| | |]; simpl;
    try congruence; try reflexivity.
  rewrite !Qeq_bool_iff. intros Hx Hy.
  unfold ngt, nlt, num. simpl. rewrite negb_false_iff. apply Qle_bool_iff.
  change (inject_Z 0) with 0%Q. rewrite Hx, Hy. lra.
Qed.

Lemma jseq_pos (a v : number) :
  (a === v)%js = true -> (v >? num 0)%js = true -> (a >? num 0)%js = true.
Proof.
  destruct a as [x| | |], v as [z| | |]; simpl; try congruence.
  rewrite Qeq_bool_iff. intros Hx. unfold ngt, nlt, num. simpl.
  rewrite !negb_true_iff, !Qle_bool_false. now rewrite Hx.
Qed.

Lemma filter_length_zero (A : Type) (keep : A -> bool) (l : list A) :
  List.length (filter keep l) = 0%nat <-> forall x, In x l -> keep x = false.
Proof.
  split.
  - intros Hlen x Hx. destruct (keep x) eqn:E; [|reflexivity].
    assert (Hin : In x (filter keep l)) by (apply filter_In; auto).
    destruct (filter keep l); [contradiction | discriminate].
  - intros Hall. rewrite filter_none by exact Hall. reflexivity.
Qed.

(** ** More on [findTopN] *)

(** X1.  [findTopN] answers [None] exactly when no row is asked for or no
    player has a positive value; otherwise the board has as many entries as
    there are players with a positive value, up to [n]. *)
Theorem findTopN_size (T : Type) (HT : IsPlayer T) (players : list T)
  (getValue : T -> number) (stat description : string) (n : nat) :
  (findTopN players getValue stat description n = None <->
   n = 0%nat \/ forall p, In p players -> (getValue p >? num 0)%js = false)
  /\ (forall r, findTopN players getValue stat description n = Some r ->
        List.length (TopNRecord.entries r)
        = Nat.min n
            (List.length (filter (fun p => (getValue p >? num 0)%js) players))).
Proof.
  assert (Hlen : List.length (topPlayers players getValue n)
                 = Nat.min n (List.length
                      (filter (fun p => (getValue p >? num 0)%js) players))).
  { unfold topPlayers, slice0. rewrite length_firstn, js_sort_length.
    reflexivity. }
  split.
  - unfold findTopN. split.
    + destruct (List.length players =? 0)%nat eqn:E.
      * intros _. right. apply Nat.eqb_eq in E.
        destruct players; [intros p []|discriminate].
      * destruct (List.length (topPlayers players getValue n) =? 0)%nat eqn:E';
          [|discriminate].
        intros _. apply Nat.eqb_eq in E'. rewrite Hlen in E'.
        destruct n as [|n]; [now left|]. right.
        apply filter_length_zero.
        destruct (List.length (filter _ players)); [reflexivity|discriminate].
    + intros Hcase. destruct (List.length players =? 0)%nat; [reflexivity|].
      assert (Hz : List.length (topPlayers players getValue n) = 0%nat).
      { rewrite Hlen. destruct Hcase as [->|Hnone]; [reflexivity|].
        apply filter_length_zero in Hnone. rewrite Hnone. apply Nat.min_0_r. }
      rewrite Hz. reflexivity.
  - intros r Hr. apply findTopN_Some in Hr. destruct Hr as [-> _]. simpl.
    rewrite length_map. exact Hlen.
Qed.

(** X2.  Nobody left out of a board outranks an entry: a player with a
    positive value who has no entry on the board has a value that is at
    most the value of every entry. *)
Theorem findTopN_no_better_left_out (T : Type) (HT : IsPlayer T)
  (players : list T) (getValue : T -> number) (stat description : string)
  (n : nat) (r : TopNRecord.t) (p : T) (e : RecordEntry.t) :
  findTopN players getValue stat description n = Some r ->
  In p players ->
  (getValue p >? num 0)%js = true ->
  ~ In (toEntry getValue stat p) (TopNRecord.entries r) ->
  In e (TopNRecord.entries r) ->
  (RecordEntry.value e >=? getValue p)%js = true.
Proof.
  intros Hr Hp Hpos Hout He. apply findTopN_Some in Hr. destruct Hr as [-> _].
  simpl in *. apply in_map_iff in He. destruct He as [q [<- Hq]]. simpl.
  unfold topPlayers, slice0 in *.
  set (l := js_sort (byValueDesc getValue)
              (filter (fun p => (getValue p >? num 0)%js) players)) in *.
  assert (Hs : StronglySorted
                 (fun x y => (getValue x >=? getValue y)%js = true)
                 (firstn n l ++ skipn n l)).
  { rewrite firstn_skipn. unfold l, byValueDesc. apply js_sort_desc_sorted.
    apply Forall_forall. intros x Hx. apply filter_In in Hx.
    apply ngt0_defined, Hx. }
  apply (StronglySorted_app_cross _ _ _ _ Hs q p Hq).
  assert (Hl : In p l).
  { unfold l. apply js_sort_In. apply filter_In. auto. }
  rewrite <- (firstn_skipn n l) in Hl. apply in_app_or in Hl.
  destruct Hl as [Hl|Hl]; [|exact Hl].
  exfalso. apply Hout. apply in_map. exact Hl.
Qed.

Lemma findTopN_no_better_left_out_witness :
  exists r e,
    findTopN [qbRookie; qbBench; qbVeteran; qbClean]
      (fun p => Fin (QB.passYds p)) "Career Passing Yards" "" 2 = Some r
    /\ In e (TopNRecord.entries r)
    /\ (RecordEntry.value e >=? Fin (QB.passYds qbRookie))%js = true.
Proof.
  eexists. eexists. split; [reflexivity|]. split; [left; reflexivity|].
  eapply (findTopN_no_better_left_out QB.t _
            [qbRookie; qbBench; qbVeteran; qbClean]
            (fun p => Fin (QB.passYds p)) "Career Passing Yards" "" 2 _
            qbRookie).
  - reflexivity.
  - left. reflexivity.
  - reflexivity.
  - simpl. intros [H|[H|[]]]; discriminate H.
  - left. reflexivity.
Defined.

(** X3.  Ties keep the order of the input: among the players with one and
    the same positive value, those on the board are the first of the input,
    in input order. *)
Theorem findTopN_ties_keep_input_order (T : Type) (players : list T)
  (getValue : T -> number) (n : nat) (v : number) :
  (v >? num 0)%js = true ->
  exists rest,
    tiedAt getValue v players
    = tiedAt getValue v (topPlayers players getValue n) ++ rest.
Proof.
  intros Hv. unfold topPlayers, slice0, tiedAt.
  set (pos := fun p => (getValue p >? num 0)%js).
  set (tie := fun p => (getValue p === v)%js).
  set (l := js_sort (byValueDesc getValue) (filter pos players)).
  assert (Hl : filter tie l = filter tie players).
  { unfold l. rewrite js_sort_filter.
    - induction players as [|x xs IH]; [reflexivity|]. cbn [filter].
      destruct (pos x) eqn:Px; cbn [filter]; destruct (tie x) eqn:Tx;
        rewrite ?IH; try reflexivity.
      unfold tie in Tx. unfold pos in Px.
      rewrite (jseq_pos _ _ Tx Hv) in Px. discriminate.
    - intros x y Hx Hy. unfold byValueDesc. eapply jseq_level; eassumption. }
  exists (filter tie (skipn n l)).
  rewrite <- filter_app, firstn_skipn. symmetry. exact Hl.
Qed.

Lemma findTopN_ties_keep_input_order_witness :
  exists rest,
    tiedAt (fun p => Fin (QB.passTD p)) (Fin 6) [qbVeteran; qbClean; qbVeteran700]
    = tiedAt (fun p => Fin (QB.passTD p)) (Fin 6)
        (topPlayers [qbVeteran; qbClean; qbVeteran700]
           (fun p => Fin (QB.passTD p)) 2)
      ++ rest.
Proof.
  apply (findTopN_ties_keep_input_order QB.t
           [qbVeteran; qbClean; qbVeteran700]
           (fun p => Fin (QB.passTD p)) 2 (Fin 6)).
  reflexivity.
Defined.

Lemma mapi_from_ranks (A : Type) (l : list A) (i : nat) :
  map fst (mapi_from (fun entry i => ((i + 1)%nat, entry)) i l)
  = seq (i + 1) (List.length l)
  /\ List.length (mapi_from (fun entry i => ((i + 1)%nat, entry)) i l)
     = List.length l.
Proof.
  revert i. induction l as [|x l IH]; intros i; simpl; [split; reflexivity|].
  destruct (IH (S i)) as [H1 H2]. rewrite H1, H2.
  replace (S i + 1)%nat with (S (i + 1)) by lia. split; reflexivity.
Qed.

(** X4.  A record block shows the board [findTopN] would return for
    [n = 3]: the first three entries of the five, ranked 1, 2, 3, and
    nothing when the board is absent. *)
Theorem recordBlock_is_top3 (T : Type) (HT : IsPlayer T) (players : list T)
  (getValue : T -> number) (stat description : string) :
  recordBlockRows (findTopN players getValue stat description 5)
  = option_map
      (fun r => mapi_from (fun entry i => ((i + 1)%nat, entry)) 0
                  (TopNRecord.entries r))
      (findTopN players getValue stat description 3)
  /\ (forall rows,
        recordBlockRows (findTopN players getValue stat description 5)
        = Some rows ->
        map fst rows = seq 1 (List.length rows)
        /\ (1 <= List.length rows <= 3)%nat).
Proof.
  split.
  - unfold findTopN, recordBlockRows, topPlayers, slice0.
    destruct (List.length players =? 0)%nat; [reflexivity|].
    set (l := js_sort (byValueDesc getValue)
                (filter (fun p => (getValue p >? num 0)%js) players)).
    destruct l as [|x l]; [reflexivity|].
    rewrite !firstn_cons.
    cbn [List.length Nat.eqb option_map TopNRecord.entries map].
    rewrite firstn_cons, firstn_map, firstn_firstn. reflexivity.
  - intros rows Hrows.
    destruct (findTopN players getValue stat description 5) as [r|] eqn:Hr;
      [|discriminate].
    unfold recordBlockRows in Hrows.
    assert (Hrows' : rows = mapi_from (fun entry i => ((i + 1)%nat, entry)) 0
                              (slice0 3 (TopNRecord.entries r)))
      by congruence.
    subst rows.
    destruct (mapi_from_ranks _ (slice0 3 (TopNRecord.entries r)) 0)
      as [H1 H2].
    rewrite H1, H2. split; [reflexivity|].
    unfold slice0. rewrite length_firstn.
    apply findTopN_Some in Hr. destruct Hr as [-> Hne].
    cbn [TopNRecord.entries]. rewrite length_map.
    destruct (topPlayers players getValue 5); [congruence|].
    cbn [List.length]. lia.
Qed.

(** ** More on the single leaders *)

Lemma finite_defined (a : number) : finite a -> defined a.
Proof. destruct a; simpl; unfold defined; [congruence|tauto..]. Qed.

Lemma leader_best (T : Type) (keep : T -> bool) (value : T -> number) :
  (forall q, keep q = true -> finite (value q)) ->
  best_among keep value (leader keep (byValueDesc value)).
Proof.
  intros Hfin xs. split; [apply leader_None|].
  intros p Hp. destruct (leader_Some keep (byValueDesc value) xs p Hp)
    as [Hin Hkeep].
  split; [exact Hin|]. split; [exact Hkeep|]. split; [apply Hfin, Hkeep|].
  intros q Hq Kq. unfold leader, first in Hp.
  assert (Hs : StronglySorted (fun x y => (value x >=? value y)%js = true)
                 (js_sort (byValueDesc value) (filter keep xs))).
  { unfold byValueDesc. apply js_sort_desc_sorted. apply Forall_forall.
    intros x Hx. apply filter_In in Hx. apply finite_defined, Hfin, Hx. }
  assert (Hql : In q (js_sort (byValueDesc value) (filter keep xs))).
  { apply js_sort_In. apply filter_In. auto. }
  destruct (js_sort (byValueDesc value) (filter keep xs)) as [|x l];
    [discriminate|].
  simpl in Hp. injection Hp as ->.
  destruct Hql as [<-|Hql].
  - apply nle_refl. apply finite_defined, Hfin, Hkeep.
  - inversion Hs as [|? ? _ Hall]; subst. rewrite Forall_forall in Hall.
    apply Hall, Hql.
Qed.

(** X5.  Each of the nine single leaders is a best among its eligible
    players: the metric is absent exactly when nobody is over the minimum,
    and otherwise the player reported is over the minimum, has a finite
    ratio, and no eligible player has a larger ratio. *)
Theorem leaders_are_best :
  best_among (fun p => (Fin (QB.attempts p) >? num 200)%js) ypa topQBEff
  /\ best_among (fun p => (Fin (QB.interceptions p) >? num 0)%js) tdint topTDINT
  /\ best_among (fun p => (Fin (QB.attempts p) >? num 200)%js) compRate topCompPct
  /\ best_among (fun p => (Fin (RB.rushAtt p) >? num 100)%js) ypc topYPC
  /\ best_among (fun p : RB.t => (Fin (games p) >? num 16)%js) scrimmageYPG
       topScrimmageYPG
  /\ best_among (fun p => (Fin (WR.receptions p) >? num 50)%js) ypr topYPR
  /\ best_among (fun p : WR.t => (Fin (games p) >? num 16)%js) recYPG topRecYPG
  /\ best_among (fun p : Def.t => (Fin (games p) >? num 32)%js) sackRate
       topSackRate
  /\ best_among (fun p : Def.t => (Fin (games p) >? num 32)%js) ballHawk
       topBallHawk.
Proof.
  repeat match goal with |- best_among _ _ _ /\ _ => split end;
    apply leader_best; intros q Hq; cbv beta in Hq;
    unfold ypa, tdint, compRate, ypc, scrimmageYPG, ypr, recYPG, sackRate,
      ballHawk; simpl nadd;
    apply ngt_fin in Hq;
    (rewrite ndiv_fin_pos; [exact I|]);
    (eapply Qle_lt_trans; [|exact Hq]); apply Qle_bool_iff; reflexivity.
Qed.

Lemma leaders_are_best_witness :
  topQBEff [qbAt200; qbClean; qbAt201] = Some qbClean
  /\ (ypa qbAt201 <=? ypa qbClean)%js = true.
Proof.
  split; [reflexivity|].
  destruct leaders_are_best as [Hqb _].
  destruct (Hqb [qbAt200; qbClean; qbAt201]) as [_ Hbest].
  destruct (Hbest qbClean eq_refl) as [_ [_ [_ Hmax]]].
  apply Hmax; [right; right; left; reflexivity | reflexivity].
Defined.

(** ** The advanced metrics *)

Lemma pushIf_names (T : Type) (HT : IsPlayer T) (top : option T)
  (mname : string) (value : T -> number) (pos : T -> string)
  (description color : string) :
  map AdvancedMetric.name (pushIf top mname value pos description color)
  = match top with Some _ => [mname] | None => [] end.
Proof. destruct top; reflexivity. Qed.

Lemma optional_name_step (T : Type) (t : option T) (nm : string)
  (l L : list string) :
  ~ In nm L -> NoDup l /\ incl l L ->
  NoDup (match t with Some _ => [nm] | None => [] end ++ l)
  /\ incl (match t with Some _ => [nm] | None => [] end ++ l) (nm :: L).
Proof.
  intros Hnm [Hnd Hincl]. destruct t; simpl.
  - split.
    + constructor; [|exact Hnd]. intros Hin. apply Hnm, Hincl, Hin.
    + intros x [<-|Hx]; [now left | right; apply Hincl, Hx].
  - split; [exact Hnd|]. intros x Hx. right. apply Hincl, Hx.
Qed.

Lemma optional_name_last (T : Type) (t : option T) (nm : string) :
  NoDup (match t with Some _ => [nm] | None => [] end)
  /\ incl (match t with Some _ => [nm] | None => [] end) [nm].
Proof.
  destruct t; split.
  - constructor; [intros [] | constructor].
  - apply incl_refl.
  - constructor.
  - intros x [].
Qed.

Lemma pushIf_finite (T : Type) (HT : IsPlayer T) (top : option T)
  (mname : string) (value : T -> number) (pos : T -> string)
  (description color : string) (m : AdvancedMetric.t) :
  In m (pushIf top mname value pos description color) ->
  (forall p, top = Some p -> finite (value p)) ->
  finite (AdvancedMetric.value m).
Proof.
  intros Hm Hfin. unfold pushIf in Hm. destruct top as [p|]; [|contradiction].
  destruct Hm as [<-|[]]. simpl. apply Hfin. reflexivity.
Qed.

(** X6.  The advanced metrics: every value shown is a finite number, there
    are at most nine metrics, and no two carry the same name (the name is
    the key of the card). *)
Theorem metrics_finite_and_distinct (c : CareerData) :
  (forall m, In m (metrics c) -> finite (AdvancedMetric.value m))
  /\ (List.length (metrics c) <= 9)%nat
  /\ NoDup (map AdvancedMetric.name (metrics c)).
Proof.
  split; [|split].
  - intros m Hm. unfold metrics in Hm.
    repeat (apply in_app_or in Hm; destruct Hm as [Hm|Hm]);
      (apply pushIf_finite in Hm; [exact Hm|]); intros p Hp; cbv beta;
      unfold topQBEff, topTDINT, topCompPct, topYPC, topScrimmageYPG, topYPR,
        topRecYPG, topSackRate, topBallHawk in Hp;
      unfold ypa, tdint, compRate, ypc, scrimmageYPG, ypr, recYPG, sackRate,
        ballHawk; simpl nadd;
      apply leader_Some in Hp; destruct Hp as [_ Hp]; apply ngt_fin in Hp;
      (rewrite ndiv_fin_pos; [exact I|]);
      (eapply Qle_lt_trans; [|exact Hp]); apply Qle_bool_iff; reflexivity.
  - unfold metrics. rewrite !length_app. unfold pushIf.
    repeat match goal with
           | |- context [match ?t with Some _ => _ | None => _ end] =>
               destruct t
           end; simpl; lia.
  - unfold metrics. rewrite !map_app, !pushIf_names.
    match goal with
    | |- NoDup ?names =>
        apply (proj1 (A := NoDup names)
                 (B := incl names
                         ["Best Yards/Attempt"; "Best TD/INT Ratio";
                          "Completion %"; "Best Yards/Carry";
                          "Scrimmage Yds/Game"; "Best Yards/Catch";
                          "Receiving Yds/Game"; "Sacks/Game";
                          "Turnovers/Game"]))
    end.
    repeat (apply optional_name_step;
            [simpl; intuition discriminate|]).
    apply optional_name_last.
Qed.

(** ** More on the pace records *)

Section PaceSources.
Context {T : Type} `{IsPlayer T}.
Variable stat : T -> Q.
Variables pos recordName : string.

Lemma isActive16_inv (q : T) :
  isActive16 q = true -> status q = "Active" /\ 16 <= games q.
Proof.
  unfold isActive16. rewrite andb_true_iff. intros [Hs Hg]. split.
  - apply String.eqb_eq. exact Hs.
  - apply Qle_bool_iff in Hg. exact Hg.
Qed.

Lemma pacePerSeasonOf_played (q : T) :
  0 < games q -> pacePerSeasonOf stat q = Fin (stat q / games q * 16).
Proof.
  intros Hg. unfold pacePerSeasonOf.
  rewrite (proj2 (ngt0_fin (games q)) Hg), (ndiv_fin_pos (stat q) _ Hg).
  reflexivity.
Qed.

Lemma paceLoop_source (players : list T) (e : PaceToRecord.t) :
  In e (paceLoop stat pos recordName players) <->
  pace_source stat pos recordName players e.
Proof.
  split.
  - unfold paceLoop. intros He. apply in_flat_map in He.
    destruct He as [q [Hq He]]. apply filter_In in Hq.
    destruct Hq as [Hin Hact]. apply isActive16_inv in Hact.
    destruct Hact as [Hstatus Hg16].
    assert (Hg : 0 < games q)
      by (eapply Qlt_le_trans; [|exact Hg16]; reflexivity).
    assert (Hne : players <> []) by (intros ->; contradiction).
    destruct (careerRecord_max stat players Hne) as [m [Hrec [Hex _]]].
    destruct (careerHolder_some stat players m Hrec Hex) as [h [Hh _]].
    rewrite Hrec, Hh in He.
    destruct (Fin (stat q / games q * 16) >? num 0)%js eqn:E1;
      [destruct (Fin (stat q) <? Fin m)%js eqn:E2|].
    + apply ngt0_fin in E1. apply nlt_fin in E2.
      rewrite (paceBody_entry stat pos recordName q h m Hg E1 E2) in He.
      destruct (Qceiling ((m - stat q) / (stat q / games q * 16)) <=? 5)%Z
        eqn:E3; [|contradiction].
      destruct He as [<-|[]]. apply Z.leb_le in E3.
      exists q, m, h. auto 10.
    + unfold paceBody in He. rewrite (pacePerSeasonOf_played q Hg) in He.
      rewrite E1, E2 in He. contradiction.
    + unfold paceBody in He. rewrite (pacePerSeasonOf_played q Hg) in He.
      rewrite E1 in He. contradiction.
  - intros [q [m [h [Hin [Hs [Hg [Hp [Hlt [Hrec [Hh [Hle ->]]]]]]]]]]].
    destruct (pace_contract_holds stat pos recordName players q Hin Hs Hg Hp)
      as [m' [h' [Hrec' [Hh' [_ [_ [_ [_ Hemit]]]]]]]].
    + rewrite Hrec. apply nlt_fin. exact Hlt.
    + assert (m' = m) by congruence. assert (h' = h) by congruence.
      subst m' h'. apply Hemit, Hle.
Qed.

Lemma pace_source_bounds (players : list T) (e : PaceToRecord.t) :
  pace_source stat pos recordName players e ->
  (exists z, PaceToRecord.seasonsToBreak e = Fin (inject_Z z)
             /\ (1 <= z <= 5)%Z)
  /\ (exists cur m, PaceToRecord.currentValue e = Fin cur
                    /\ PaceToRecord.recordValue e = Fin m /\ 0 < cur < m)
  /\ (exists pace, PaceToRecord.pacePerSeason e = Fin pace /\ 0 < pace)
  /\ (exists pct, PaceToRecord.percentToRecord e = Fin pct /\ 0 < pct < 100).
Proof.
  intros [q [m [h [Hin [Hs [Hg16 [Hp [Hlt [Hrec [Hh [Hle ->]]]]]]]]]]].
  assert (Hg : 0 < games q)
    by (eapply Qlt_le_trans; [|exact Hg16]; reflexivity).
  assert (Hcur : 0 < stat q) by exact (pace_positive_total _ _ Hg Hp).
  assert (Hm : 0 < m) by (eapply Qlt_trans; eassumption).
  unfold paceEntryOf. cbn.
  split; [|split; [|split]].
  - eexists. split; [reflexivity|]. split; [|exact Hle].
    assert (Hratio : 0 < (m - stat q) / (stat q / games q * 16)).
    { apply Qlt_shift_div_l; [exact Hp|]. rewrite Qmult_0_l.
      unfold Qminus. rewrite <- Qlt_minus_iff. exact Hlt. }
    pose proof (Qle_ceiling ((m - stat q) / (stat q / games q * 16))) as Hc.
    assert (Hz : inject_Z 0 < inject_Z
                   (Qceiling ((m - stat q) / (stat q / games q * 16))))
      by (eapply Qlt_le_trans; [exact Hratio | exact Hc]).
    rewrite <- Zlt_Qlt in Hz. lia.
  - exists (stat q), m. auto.
  - exists (stat q / games q * 16). auto.
  - exists (stat q / m * 100). split; [reflexivity|].
    assert (H0 : 0 < stat q / m).
    { apply Qlt_shift_div_l; [exact Hm|]. rewrite Qmult_0_l. exact Hcur. }
    assert (H1 : stat q / m < 1).
    { apply Qlt_shift_div_r; [exact Hm|]. rewrite Qmult_1_l. exact Hlt. }
    split; lra.
Qed.

End PaceSources.

Lemma paceToRecords_perm (c : CareerData) :
  Permutation (paceToRecords c)
    (qbPace (quarterbacks c) ++ rbPace (runningbacks c)
     ++ wrPace (widereceivers c)).
Proof. apply js_sort_perm. Qed.

Lemma paceToRecords_In (c : CareerData) (e : PaceToRecord.t) :
  In e (paceToRecords c) <->
  pace_source QB.passYds "QB" "Career Passing Yards" (quarterbacks c) e
  \/ pace_source RB.rushYds "RB" "Career Rushing Yards" (runningbacks c) e
  \/ pace_source WR.recYds "WR" "Career Receiving Yards" (widereceivers c) e.
Proof.
  unfold paceToRecords. rewrite js_sort_In, !in_app_iff.
  unfold qbPace, rbPace, wrPace. rewrite !paceLoop_source. reflexivity.
Qed.

(** X7.  Where pace records come from: a record is reported exactly when it
    is the record of an active quarterback, running back or wide receiver
    with at least 16 games, a positive pace and a total strictly below the
    category record, within 5 seasons of it.  Retired players, players with
    fewer than 16 games, record holders and other positions are never
    reported. *)
Theorem paceToRecords_sources (c : CareerData) (e : PaceToRecord.t) :
  In e (paceToRecords c) <->
  pace_source QB.passYds "QB" "Career Passing Yards" (quarterbacks c) e
  \/ pace_source RB.rushYds "RB" "Career Rushing Yards" (runningbacks c) e
  \/ pace_source WR.recYds "WR" "Career Receiving Yards" (widereceivers c) e.
Proof. apply paceToRecords_In. Qed.

(** X8.  What every reported pace record looks like: seasonsToBreak is a
    whole number from 1 to 5, the current value is positive and strictly
    below the record value, the pace is positive, and percentToRecord is
    strictly between 0 and 100; all four are finite. *)
Theorem paceToRecords_bounds (c : CareerData) (e : PaceToRecord.t) :
  In e (paceToRecords c) ->
  (exists z, PaceToRecord.seasonsToBreak e = Fin (inject_Z z)
             /\ (1 <= z <= 5)%Z)
  /\ (exists cur m, PaceToRecord.currentValue e = Fin cur
                    /\ PaceToRecord.recordValue e = Fin m /\ 0 < cur < m)
  /\ (exists pace, PaceToRecord.pacePerSeason e = Fin pace /\ 0 < pace)
  /\ (exists pct, PaceToRecord.percentToRecord e = Fin pct /\ 0 < pct < 100).
Proof.
  intros He. apply paceToRecords_In in He.
  destruct He as [He|[He|He]]; apply pace_source_bounds in He; exact He.
Qed.

Lemma paceToRecords_bounds_witness :
  exists e,
    In e (paceToRecords (leagueOf [qbRookie; qbChaser; qbVeteran] [] []))
    /\ exists z, PaceToRecord.seasonsToBreak e = Fin (inject_Z z)
                 /\ (1 <= z <= 5)%Z.
Proof.
  eexists. split; [left; reflexivity|].
  eapply (paceToRecords_bounds
            (leagueOf [qbRookie; qbChaser; qbVeteran] [] [])).
  left. reflexivity.
Defined.

Lemma paceToRecords_sources_witness :
  exists e,
    In e (paceToRecords (leagueOf [qbRookie; qbVeteran] [] []))
    /\ pace_source QB.passYds "QB" "Career Passing Yards"
         [qbRookie; qbVeteran] e.
Proof.
  eexists. split; [left; reflexivity|].
  destruct (proj1 (paceToRecords_sources
                     (leagueOf [qbRookie; qbVeteran] [] []) _)
              (or_introl eq_refl)) as [Hqb|[Hrb|Hwr]].
  - exact Hqb.
  - exfalso. destruct Hrb as [q [_ [_ [[] _]]]].
  - exfalso. destruct Hwr as [q [_ [_ [[] _]]]].
Defined.

Lemma find_first (A : Type) (f : A -> bool) (l : list A) (x : A) :
  find f l = Some x ->
  exists before after,
    l = before ++ x :: after /\ forall y, In y before -> f y = false.
Proof.
  induction l as [|a l IH]; simpl; [discriminate|].
  destruct (f a) eqn:E.
  - intros [= ->]. exists [], l. split; [reflexivity | intros y []].
  - intros Hx. destruct (IH Hx) as [before [after [-> Hb]]].
    exists (a :: before), after. split; [reflexivity|].
    intros y [<-|Hy]; [exact E | apply Hb, Hy].
Qed.

(** X9.  The category record and its holder.  Over an empty list the record
    is 0, there is no holder and no pace record.  Otherwise the record is
    the largest total, and the holder is the first player of the list that
    has it: nobody has more, and everybody before the holder has less. *)
Theorem careerRecord_and_holder (T : Type) (HT : IsPlayer T) (stat : T -> Q)
  (pos recordName : string) (players : list T) :
  (players = [] ->
   careerRecord stat players = num 0
   /\ careerHolder stat players = None
   /\ paceLoop stat pos recordName players = [])
  /\ (players <> [] ->
      exists m h before after,
        careerRecord stat players = Fin m
        /\ careerHolder stat players = Some h
        /\ players = before ++ h :: after
        /\ stat h == m
        /\ (forall p, In p players -> stat p <= m)
        /\ (forall p, In p before -> stat p < m)).
Proof.
  split.
  - intros ->. repeat split.
  - intros Hne.
    destruct (careerRecord_max stat players Hne) as [m [Hrec [Hex Hall]]].
    destruct (careerHolder_some stat players m Hrec Hex) as [h [Hh [_ Hhm]]].
    pose proof Hh as Hfind. unfold careerHolder in Hfind.
    apply find_first in Hfind. destruct Hfind as [before [after [Hsplit Hb]]].
    exists m, h, before, after.
    split; [exact Hrec|]. split; [exact Hh|]. split; [exact Hsplit|].
    split; [exact Hhm|]. split; [exact Hall|].
    intros p Hp. specialize (Hb p Hp). cbv beta in Hb. rewrite Hrec in Hb.
    simpl in Hb. apply Qeq_bool_neq in Hb.
    assert (Hle : stat p <= m).
    { apply Hall. rewrite Hsplit. apply in_or_app. now left. }
    apply Qle_lt_or_eq in Hle. destruct Hle as [Hlt|Heq];
      [exact Hlt | contradiction].
Qed.

Lemma careerRecord_and_holder_witness :
  exists m h before after,
    careerRecord QB.passYds [qbRookie; qbVeteran; qbVeteran] = Fin m
    /\ careerHolder QB.passYds [qbRookie; qbVeteran; qbVeteran] = Some h
    /\ [qbRookie; qbVeteran; qbVeteran] = before ++ h :: after
    /\ (forall p, In p before -> QB.passYds p < m).
Proof.
  destruct (proj2 (careerRecord_and_holder QB.t _ QB.passYds "QB"
                     "Career Passing Yards" [qbRookie; qbVeteran; qbVeteran]))
    as [m [h [before [after [Hrec [Hh [Hs [_ [_ Hb]]]]]]]]].
  - discriminate.
  - exists m, h, before, after. auto.
Defined.

(** ** The pace cards *)

Lemma paceToRecords_strongly_sorted (c : CareerData) :
  StronglySorted
    (fun x y => (PaceToRecord.seasonsToBreak x
                 <=? PaceToRecord.seasonsToBreak y)%js = true)
    (paceToRecords c).
Proof.
  unfold paceToRecords.
  change bySeasonsToBreak
    with (fun a b => (PaceToRecord.seasonsToBreak a
                      - PaceToRecord.seasonsToBreak b)%js).
  apply js_sort_asc_sorted. apply Forall_forall. intros e He.
  apply nle_defined_l with (b := num 5).
  repeat (apply in_app_or in He; destruct He as [He|He]);
    unfold qbPace, rbPace, wrPace in He; apply paceLoop_seasons in He;
    exact He.
Qed.

(** X10.  The progress bar of a pace card never needs its clamp: for every
    reported record [Math.min(percentToRecord, 100)] is percentToRecord
    itself, a width strictly between 0 and 100. *)
Theorem paceBar_never_clamped (c : CareerData) (e : PaceToRecord.t) :
  In e (paceToRecords c) ->
  paceBarWidth e = PaceToRecord.percentToRecord e
  /\ (paceBarWidth e >? num 0)%js = true
  /\ (paceBarWidth e <? num 100)%js = true.
Proof.
  intros He. apply paceToRecords_In in He.
  assert (Hpct : exists pct, PaceToRecord.percentToRecord e = Fin pct
                             /\ 0 < pct < 100).
  { destruct He as [He|[He|He]]; apply pace_source_bounds in He;
      destruct He as [_ [_ [_ Hpct]]]; exact Hpct. }
  destruct Hpct as [pct [Hp [H0 H100]]]. unfold paceBarWidth. rewrite Hp.
  assert (Hle : (Fin pct <=? num 100)%js = true).
  { apply nle_fin. apply Qlt_le_weak. exact H100. }
  unfold Math_min2. rewrite Hle.
  split; [reflexivity|]. split; [apply ngt0_fin, H0 | apply nlt_fin, H100].
Qed.

Lemma paceBar_never_clamped_witness :
  exists e,
    In e (paceToRecords (leagueOf [qbRookie; qbVeteran] [] []))
    /\ paceBarWidth e = PaceToRecord.percentToRecord e.
Proof.
  eexists. split; [left; reflexivity|].
  eapply (paceBar_never_clamped (leagueOf [qbRookie; qbVeteran] [] [])).
  left. reflexivity.
Defined.

(** X11.  The pace cards are the six soonest record-breakers: at most six
    cards, in ascending order of seasonsToBreak, and no reported record that
    is left without a card breaks its record sooner than one that has a
    card. *)
Theorem shownPace_soonest (c : CareerData) :
  (List.length (shownPace (paceToRecords c)) <= 6)%nat
  /\ List.length (shownPace (paceToRecords c))
     = Nat.min 6 (List.length (paceToRecords c))
  /\ (exists hidden,
        paceToRecords c = shownPace (paceToRecords c) ++ hidden
        /\ forall shown rest,
             In shown (shownPace (paceToRecords c)) -> In rest hidden ->
             (PaceToRecord.seasonsToBreak shown
              <=? PaceToRecord.seasonsToBreak rest)%js = true).
Proof.
  unfold shownPace, slice0. split; [apply firstn_le_length|].
  split; [apply length_firstn|].
  exists (skipn 6 (paceToRecords c)). split.
  - symmetry. apply firstn_skipn.
  - apply StronglySorted_app_cross. rewrite firstn_skipn.
    apply paceToRecords_strongly_sorted.
Qed.

(** ** More on season scores and tiers *)



Lemma nge_upward (a b t : number) :
  (a <=? b)%js = true -> (a >=? t)%js = true -> (b >=? t)%js = true.
Proof. unfold nge. intros Hab Hta. eapply nle_trans; eassumption. Qed.

Lemma tierRank_mono (a b : number) :
  (a <=? b)%js = true ->
  (tierRank (getSeasonTier a) <= tierRank (getSeasonTier b))%nat.
Proof.
  intros Hab. unfold getSeasonTier.
  pose proof (nge_upward a b (num 800) Hab) as H8.
  pose proof (nge_upward a b (num 600) Hab) as H6.
  pose proof (nge_upward a b (num 400) Hab) as H4.
  pose proof (nge_upward a b (num 250) Hab) as H2.
  destruct (a >=? num 800)%js; [rewrite (H8 eq_refl); apply Nat.le_refl|].
  destruct (a >=? num 600)%js;
    [rewrite (H6 eq_refl); destruct (b >=? num 800)%js; cbv; lia|].
  destruct (a >=? num 400)%js;
    [rewrite (H4 eq_refl);
     destruct (b >=? num 800)%js, (b >=? num 600)%js; cbv; lia|].
  destruct (a >=? num 250)%js;
    [rewrite (H2 eq_refl);
     destruct (b >=? num 800)%js, (b >=? num 600)%js, (b >=? num 400)%js;
     cbv; lia|].
  cbv. lia.
Qed.

(** X13.  A higher score never gets a lower tier: if [a <= b] the tier of
    [a] is at most the tier of [b] in the order SOLID, NOTABLE, GREAT,
    ELITE, LEGENDARY.  Every score that is not a number, and every score
    below 250 down to [-Infinity], is SOLID; [Infinity] is LEGENDARY. *)
Theorem getSeasonTier_monotone (a b : number) :
  ((a <=? b)%js = true ->
   (tierRank (getSeasonTier a) <= tierRank (getSeasonTier b))%nat)
  /\ Tier.label (getSeasonTier NaN) = "SOLID"
  /\ Tier.label (getSeasonTier NegInf) = "SOLID"
  /\ Tier.label (getSeasonTier PosInf) = "LEGENDARY"
  /\ (tierRank (getSeasonTier a) <= 4)%nat.
Proof.
  split; [apply tierRank_mono|]. repeat (split; [reflexivity|]).
  unfold getSeasonTier.
  destruct (a >=? num 800)%js, (a >=? num 600)%js, (a >=? num 400)%js,
    (a >=? num 250)%js; cbv; lia.
Qed.

Lemma getSeasonTier_monotone_witness :
  (tierRank (getSeasonTier (Fin 370)) <= tierRank (getSeasonTier (Fin 612.5)))%nat.
Proof.
  apply (proj1 (getSeasonTier_monotone (Fin 370) (Fin 612.5))). reflexivity.
Defined.

Lemma mapi_from_nth (A B : Type) (f : A -> nat -> B) (l : list A) (i k : nat) :
  nth_error (mapi_from f i l) k
  = option_map (fun x => f x (i + k)%nat) (nth_error l k).
Proof.
  revert i k. induction l as [|x l IH]; intros i [|k]; simpl;
    try reflexivity.
  - rewrite Nat.add_0_r. reflexivity.
  - rewrite IH. replace (S i + k)%nat with (i + S k)%nat by lia. reflexivity.
Qed.

Lemma mapi_from_length (A B : Type) (f : A -> nat -> B) (l : list A)
  (i : nat) :
  List.length (mapi_from f i l) = List.length l.
Proof.
  revert i. induction l as [|x l IH]; intros i; simpl; [reflexivity|].
  rewrite IH. reflexivity.
Qed.

Lemma greatestSeasons_strongly_sorted (history : SeasonHistory) :
  scoresDefined history ->
  StronglySorted
    (fun a b => (GreatSeason.score a >=? GreatSeason.score b)%js = true)
    (greatestSeasons history).
Proof.
  intros Hdef. unfold greatestSeasons, slice0. apply StronglySorted_firstn.
  apply scoredSeasons_sorted. exact Hdef.
Qed.

(** X14.  The season cards: card number [i] carries rank [i + 1] and the
    tier of its season's score, there are at most 20 cards, and going down
    the cards the tier never gets better -- the last whenever no score is
    [NaN], as is the case with stored fields of magnitude up to
    [2 ^ 1000] ([historyInRange_scoresDefined]). *)
Theorem seasonCards_tiers_descend (history : SeasonHistory) :
  (List.length (seasonCards (greatestSeasons history)) <= 20)%nat
  /\ (forall i rank season tier,
        nth_error (seasonCards (greatestSeasons history)) i
        = Some (rank, season, tier) ->
        rank = (i + 1)%nat
        /\ nth_error (greatestSeasons history) i = Some season
        /\ tier = getSeasonTier (GreatSeason.score season))
  /\ (scoresDefined history ->
      forall i j ci cj, (i < j)%nat ->
        nth_error (seasonCards (greatestSeasons history)) i = Some ci ->
        nth_error (seasonCards (greatestSeasons history)) j = Some cj ->
        (tierRank (snd cj) <= tierRank (snd ci))%nat).
Proof.
  assert (Hcard : forall i c,
            nth_error (seasonCards (greatestSeasons history)) i = Some c ->
            exists season,
              nth_error (greatestSeasons history) i = Some season
              /\ c = ((i + 1)%nat, season,
                      getSeasonTier (GreatSeason.score season))).
  { intros i c Hc. unfold seasonCards in Hc. rewrite mapi_from_nth in Hc.
    destruct (nth_error (greatestSeasons history) i) as [season|];
      [|discriminate].
    simpl in Hc. injection Hc as <-. exists season. auto. }
  split; [|split].
  - unfold seasonCards.
    rewrite mapi_from_length.
    unfold greatestSeasons, slice0. apply firstn_le_length.
  - intros i rank season tier Hc. destruct (Hcard i _ Hc) as [s' [Hs Heq]].
    injection Heq as -> -> ->. auto.
  - intros Hdef i j ci cj Hij Hi Hj.
    destruct (Hcard i _ Hi) as [si [Hsi ->]].
    destruct (Hcard j _ Hj) as [sj [Hsj ->]]. simpl.
    apply tierRank_mono.
    apply (StronglySorted_nth _ _ _
             (greatestSeasons_strongly_sorted history Hdef)
             i j si sj Hij Hsi Hsj).
Qed.

Lemma seasonCards_tiers_descend_witness :
  scoresDefined roundHistory
  /\ map (fun c => (fst (fst c), GreatSeason.season (snd (fst c)),
                    Tier.label (snd c)))
       (seasonCards (greatestSeasons roundHistory))
     = [(1%nat, "Y2", "GREAT"); (2%nat, "Y1", "GREAT")]
  /\ (forall ci cj,
        nth_error (seasonCards (greatestSeasons roundHistory)) 0 = Some ci ->
        nth_error (seasonCards (greatestSeasons roundHistory)) 1 = Some cj ->
        (tierRank (snd cj) <= tierRank (snd ci))%nat).
Proof.
  pose proof (historyInRange_scoresDefined _ roundHistory_inRange) as Hdef.
  split; [exact Hdef|]. split; [vm_compute; reflexivity|].
  intros ci cj Hi Hj.
  apply (proj2 (proj2 (seasonCards_tiers_descend roundHistory)) Hdef
           0%nat 1%nat ci cj); [lia | exact Hi | exact Hj].
Defined.

(** ** More on player keys and the season boards *)

Lemma split_on_colon_prefix (pos name : string) :
  noColon pos = true ->
  split_on colon (pos ++ ":" ++ name)%string = pos :: split_on colon name.
Proof.
  induction pos as [|a pos IH]; intros Hpos.
  - reflexivity.
  - cbn [noColon] in Hpos. apply andb_true_iff in Hpos.
    destruct Hpos as [Ha Hpos]. apply negb_true_iff in Ha.
    change (String a pos ++ ":" ++ name)%string
      with (String a (pos ++ ":" ++ name)%string).
    cbn [split_on]. rewrite Ha, (IH Hpos). reflexivity.
Qed.

Lemma keyPosition_of_key (pos name : string) :
  noColon pos = true ->
  keyPosition (pos ++ ":" ++ name) = pos.
Proof.
  intros Hpos. unfold keyPosition.
  rewrite (split_on_colon_prefix pos name Hpos). reflexivity.
Qed.

(** X15.  Decoding a key: for a position without a colon, the key made of
    the position, a colon and the name decodes to that position and that
    name -- also when the name itself contains colons. *)
Theorem key_round_trip (pos name : string) :
  noColon pos = true ->
  keyPosition (pos ++ ":" ++ name) = pos
  /\ keyName (pos ++ ":" ++ name) = name
  /\ colonKey (pos ++ ":" ++ name).
Proof.
  intros Hpos. unfold colonKey, keyPosition, keyName.
  rewrite (split_on_colon_prefix pos name Hpos). cbn [hd tl].
  rewrite join_split. auto.
Qed.

Lemma key_round_trip_witness :
  keyPosition "QB:J. O'Neil: Jr" = "QB"
  /\ keyName "QB:J. O'Neil: Jr" = "J. O'Neil: Jr".
Proof.
  destruct (key_round_trip "QB" "J. O'Neil: Jr" eq_refl) as [Hp [Hn _]].
  split; [exact Hp | exact Hn].
Defined.

Lemma keyPosition_of_prefix (a b : ascii) (k : string) :
  Ascii.eqb a colon = false -> Ascii.eqb b colon = false ->
  startsWith (String a (String b ":")) k = true ->
  keyPosition k = String a (String b "").
Proof.
  intros Ha Hb Hpre. unfold startsWith in Hpre.
  destruct k as [|a' [|b' [|c' k']]]; cbn [String.prefix] in Hpre;
    try discriminate.
  - destruct (ascii_dec a a'); discriminate.
  - destruct (ascii_dec a a'); [|discriminate].
    destruct (ascii_dec b b'); discriminate.
  - destruct (ascii_dec a a'); [subst a'|discriminate].
    destruct (ascii_dec b b'); [subst b'|discriminate].
    destruct (ascii_dec ":" c'); [subst c'|discriminate].
    apply (keyPosition_of_key (String a (String b "")) k').
    cbn [noColon]. rewrite Ha, Hb. reflexivity.
Qed.

(** X16.  A single-season board is a leaderboard: at most [n] entries,
    values that never increase down the board, every value positive, and
    every entry made from a snapshot of [all] whose key passes the board's
    filter, carrying that snapshot's season label and no team.  The board
    is absent exactly when no row is asked for or no such snapshot has a
    positive value. *)
Theorem findTopNSeason_leaderboard (all : list Keyed.t)
  (keep : string -> bool) (getValue : Snapshot.t -> number)
  (stat description : string) (n : nat) :
  (forall r, findTopNSeason all keep getValue stat description n = Some r ->
     (List.length (TopNRecord.entries r) <= n)%nat
     /\ (forall i j a b, (i < j)%nat ->
           nth_error (TopNRecord.entries r) i = Some a ->
           nth_error (TopNRecord.entries r) j = Some b ->
           (RecordEntry.value a >=? RecordEntry.value b)%js = true)
     /\ (forall e, In e (TopNRecord.entries r) ->
           (RecordEntry.value e >? num 0)%js = true
           /\ RecordEntry.team e = None
           /\ exists ks,
                In ks all /\ keep (Keyed.playerKey ks) = true
                /\ e = toSeasonEntry getValue stat ks
                /\ RecordEntry.season e
                   = Some (Snapshot.season (Keyed.snapshot ks))))
  /\ (findTopNSeason all keep getValue stat description n = None <->
      n = 0%nat
      \/ forall ks, In ks all -> keep (Keyed.playerKey ks) = true ->
                    (getValue (Keyed.snapshot ks) >? num 0)%js = false).
Proof.
  split.
  - intros r Hr. apply findTopNSeason_Some in Hr. subst r.
    cbn [TopNRecord.entries]. split; [|split].
    + rewrite length_map. apply firstn_le_length.
    + apply StronglySorted_nth. apply StronglySorted_map.
      cbn [toSeasonEntry RecordEntry.value]. unfold topSnapshots, slice0.
      apply StronglySorted_firstn.
      change (bySnapshotDesc getValue)
        with (fun a b => (getValue (Keyed.snapshot b)
                          - getValue (Keyed.snapshot a))%js).
      apply (js_sort_desc_sorted Keyed.t
               (fun ks => getValue (Keyed.snapshot ks))).
      apply Forall_forall. intros ks Hks. apply filter_In in Hks.
      apply ngt0_defined, Hks.
    + intros e He. apply in_map_iff in He. destruct He as [ks [<- Hks]].
      apply topSnapshots_In in Hks. destruct Hks as [Hin [Hkeep Hpos]].
      split; [exact Hpos|]. split; [reflexivity|]. exists ks. auto.
  - unfold findTopNSeason.
    set (kept := filter (fun ks => keep (Keyed.playerKey ks)) all).
    assert (Hlen : List.length (topSnapshots all keep getValue n)
              = Nat.min n (List.length
                  (filter (fun ks => (getValue (Keyed.snapshot ks)
                                      >? num 0)%js) kept))).
    { unfold topSnapshots, slice0. rewrite length_firstn, js_sort_length.
      reflexivity. }
    assert (Hnone : (forall ks, In ks all ->
                       keep (Keyed.playerKey ks) = true ->
                       (getValue (Keyed.snapshot ks) >? num 0)%js = false)
                    <-> List.length
                          (filter (fun ks => (getValue (Keyed.snapshot ks)
                                              >? num 0)%js) kept) = 0%nat).
    { rewrite filter_length_zero. unfold kept. split.
      - intros Hall ks Hks. apply filter_In in Hks. apply Hall; apply Hks.
      - intros Hall ks Hin Hk. apply Hall. apply filter_In. auto. }
    split.
    + destruct (List.length kept =? 0)%nat eqn:E.
      * intros _. right. apply Hnone. apply Nat.eqb_eq in E.
        destruct kept; [reflexivity | discriminate].
      * destruct (List.length (topSnapshots all keep getValue n) =? 0)%nat
          eqn:E'; [|discriminate].
        intros _. apply Nat.eqb_eq in E'. rewrite Hlen in E'.
        destruct n as [|n]; [now left|]. right. apply Hnone.
        destruct (List.length (filter _ kept)); [reflexivity|discriminate].
    + intros Hcase. destruct (List.length kept =? 0)%nat; [reflexivity|].
      assert (Hz : List.length (topSnapshots all keep getValue n) = 0%nat).
      { rewrite Hlen. destruct Hcase as [->|Hall]; [reflexivity|].
        apply Hnone in Hall. rewrite Hall. apply Nat.min_0_r. }
      rewrite Hz. reflexivity.
Qed.

Lemma findTopNSeason_position (history : SeasonHistory)
  (keep : string -> bool) (getValue : Snapshot.t -> number)
  (stat description : string) (n : nat) (ok : string -> Prop)
  (r : TopNRecord.t) (e : RecordEntry.t) :
  (forall k, keep k = true -> ok (keyPosition k)) ->
  findTopNSeason (allSnapshots history) keep getValue stat description n
  = Some r ->
  In e (TopNRecord.entries r) -> ok (RecordEntry.position e).
Proof.
  intros Hkeep Hr He. apply findTopNSeason_Some in Hr. subst r. simpl in He.
  apply in_map_iff in He. destruct He as [ks [<- Hks]].
  apply topSnapshots_In in Hks. destruct Hks as [_ [Hk _]]. simpl.
  apply Hkeep, Hk.
Qed.

(** X17.  The single-season boards are partitioned by position: every entry
    of a quarterback board has position QB, of a running-back board RB, of
    a receiver board WR, of the tight-end board TE, and every entry of a
    defensive board has position LB, DB or DL. *)
Theorem singleSeason_boards_by_position (history : SeasonHistory)
  (recs : SingleSeason.t) :
  singleSeasonRecords history = Some recs ->
  (forall b e,
     In (Some b) [SingleSeason.qbPassYds recs; SingleSeason.qbPassTD recs;
                  SingleSeason.qbTotalTD recs] ->
     In e (TopNRecord.entries b) -> RecordEntry.position e = "QB")
  /\ (forall b e,
        In (Some b) [SingleSeason.rbRushYds recs; SingleSeason.rbRushTD recs;
                     SingleSeason.rbScrimmage recs] ->
        In e (TopNRecord.entries b) -> RecordEntry.position e = "RB")
  /\ (forall b e,
        In (Some b) [SingleSeason.wrRecYds recs; SingleSeason.wrRecTD recs] ->
        In e (TopNRecord.entries b) -> RecordEntry.position e = "WR")
  /\ (forall b e,
        SingleSeason.teRecYds recs = Some b ->
        In e (TopNRecord.entries b) -> RecordEntry.position e = "TE")
  /\ (forall b e,
        In (Some b) [SingleSeason.defTackles recs; SingleSeason.defSacks recs;
                     SingleSeason.defINT recs] ->
        In e (TopNRecord.entries b) ->
        RecordEntry.position e = "LB" \/ RecordEntry.position e = "DB"
        \/ RecordEntry.position e = "DL").
Proof.
  intros Hrecs. unfold singleSeasonRecords in Hrecs.
  destruct (List.length (allSnapshots history) =? 0)%nat; [discriminate|].
  injection Hrecs as <-.
  assert (Hpre : forall a b k,
            Ascii.eqb a colon = false -> Ascii.eqb b colon = false ->
            startsWith (String a (String b ":")) k = true ->
            keyPosition k = String a (String b ""))
    by (intros a b k; apply keyPosition_of_prefix).
  assert (Hdef : forall k, isDefKey k = true ->
            keyPosition k = "LB" \/ keyPosition k = "DB"
            \/ keyPosition k = "DL").
  { intros k. unfold isDefKey. cbn [existsb]. rewrite !orb_true_iff.
    intros [Hk|[Hk|[Hk|Hk]]]; try discriminate;
      [left | right; left | right; right];
      (eapply Hpre; [| |exact Hk]; reflexivity). }
  cbn [SingleSeason.qbPassYds SingleSeason.qbPassTD SingleSeason.qbTotalTD
       SingleSeason.rbRushYds SingleSeason.rbRushTD SingleSeason.rbScrimmage
       SingleSeason.wrRecYds SingleSeason.wrRecTD SingleSeason.teRecYds
       SingleSeason.defTackles SingleSeason.defSacks SingleSeason.defINT In].
  repeat match goal with |- _ /\ _ => split end; intros b e Hb He.
  - repeat (destruct Hb as [Hb|Hb];
            [apply (findTopNSeason_position _ _ _ _ _ _
                      (fun p => p = "QB") _ e) in Hb;
             [exact Hb | intros k Hk; eapply Hpre; [| |exact Hk]; reflexivity
             | exact He]|]).
    contradiction.
  - repeat (destruct Hb as [Hb|Hb];
            [apply (findTopNSeason_position _ _ _ _ _ _
                      (fun p => p = "RB") _ e) in Hb;
             [exact Hb | intros k Hk; eapply Hpre; [| |exact Hk]; reflexivity
             | exact He]|]).
    contradiction.
  - repeat (destruct Hb as [Hb|Hb];
            [apply (findTopNSeason_position _ _ _ _ _ _
                      (fun p => p = "WR") _ e) in Hb;
             [exact Hb | intros k Hk; eapply Hpre; [| |exact Hk]; reflexivity
             | exact He]|]).
    contradiction.
  - apply (findTopNSeason_position _ _ _ _ _ _ (fun p => p = "TE") _ e) in Hb;
      [exact Hb | intros k Hk; eapply Hpre; [| |exact Hk]; reflexivity
      | exact He].
  - repeat (destruct Hb as [Hb|Hb];
            [apply (findTopNSeason_position _ _ _ _ _ _
                      (fun p => p = "LB" \/ p = "DB" \/ p = "DL") _ e) in Hb;
             [exact Hb | exact Hdef | exact He]|]).
    contradiction.
Qed.

Lemma singleSeason_boards_by_position_witness :
  exists recs b,
    singleSeasonRecords sampleHistory = Some recs
    /\ SingleSeason.qbPassTD recs = Some b
    /\ forall e, In e (TopNRecord.entries b) -> RecordEntry.position e = "QB".
Proof.
  eexists. eexists. split; [reflexivity|]. split; [reflexivity|].
  intros e He.
  eapply (proj1 (singleSeason_boards_by_position sampleHistory _ eq_refl));
    [|exact He].
  right. left. reflexivity.
Defined.

(** X18.  The two season memos read the same snapshots: the seasons that
    are scored for the greatest-seasons list are, one for one and in the
    same order, the snapshots the single-season boards are built from; and
    there are single-season boards exactly when there is such a snapshot. *)
Theorem season_memos_same_snapshots (history : SeasonHistory) :
  scoredSeasons history
  = map (fun ks => greatSeasonOf (Keyed.playerKey ks) (Keyed.snapshot ks))
      (allSnapshots history)
  /\ (singleSeasonRecords history = None <-> scoredSeasons history = [])
  /\ (singleSeasonRecords history = None <->
      forall k snaps, In (k, snaps) history -> (List.length snaps <= 1)%nat).
Proof.
  assert (Hmap : scoredSeasons history
            = map (fun ks => greatSeasonOf (Keyed.playerKey ks)
                               (Keyed.snapshot ks))
                (allSnapshots history)).
  { unfold scoredSeasons, allSnapshots.
    induction history as [|[k snaps] history IH]; [reflexivity|].
    cbn [flat_map]. rewrite map_app, IH.
    destruct (List.length snaps <=? 1)%nat; [reflexivity|].
    rewrite map_map. reflexivity. }
  assert (Hnone : singleSeasonRecords history = None
                  <-> allSnapshots history = []).
  { unfold singleSeasonRecords.
    destruct (allSnapshots history); simpl; split; congruence. }
  split; [exact Hmap|]. split.
  - rewrite Hnone, Hmap.
    destruct (allSnapshots history); simpl; split; congruence.
  - rewrite Hnone. split.
    + intros Hnil k snaps Hin.
      destruct (Nat.le_gt_cases (List.length snaps) 1) as [Hle|Hgt];
        [exact Hle|]. exfalso.
      destruct snaps as [|s snaps]; [simpl in Hgt; lia|].
      assert (Hks : In (Keyed.mk k s) (allSnapshots history)).
      { apply allSnapshots_In. exists (s :: snaps). simpl. auto. }
      rewrite Hnil in Hks. contradiction.
    + intros Hall. destruct (allSnapshots history) as [|ks rest] eqn:E;
        [reflexivity|].
      assert (Hks : In ks (allSnapshots history)) by (rewrite E; now left).
      apply allSnapshots_In in Hks. destruct Hks as [snaps [Hin [Hlen _]]].
      apply Hall in Hin. lia.
Qed.

(** ** The first records tab: [findMax] *)

Lemma nlt_nle_trans (a b c : number) :
  (a <? b)%js = true -> (b <=? c)%js = true -> (a <? c)%js = true.
Proof.
  destruct a, b, c; simpl; try congruence.
  rewrite !negb_true_iff, !Qle_bool_false, Qle_bool_iff.
  apply Qlt_le_trans.
Qed.

Section FindMaxFacts.
Context {T : Type} `{IsPlayer T}.
Variable getValue : T -> number.

(** The fold keeps a largest element, the last one of the largest. *)
Lemma fold_keepGreater (rest : list T) (acc : T) :
  Forall (fun q => defined (getValue q)) (acc :: rest) ->
  (forall q, In q (acc :: rest) ->
     (getValue q <=? getValue (fold_left (keepGreater getValue) rest acc))%js
     = true)
  /\ exists before after,
       acc :: rest
       = before ++ fold_left (keepGreater getValue) rest acc :: after
       /\ forall q, In q after ->
            (getValue q
             <? getValue (fold_left (keepGreater getValue) rest acc))%js
            = true.
Proof.
  revert acc. induction rest as [|b rest IH]; intros acc Hdef.
  - simpl. split.
    + intros q [<-|[]]. apply nle_refl. inversion Hdef; assumption.
    + exists [], []. split; [reflexivity | intros q []].
  - inversion Hdef as [|? ? Dacc Drest]; subst.
    inversion Drest as [|? ? Db Drest']; subst.
    cbn [fold_left]. set (acc' := keepGreater getValue acc b).
    assert (Dacc' : defined (getValue acc'))
      by (unfold acc', keepGreater; destruct (getValue acc >? getValue b)%js;
          assumption).
    assert (Dall : Forall (fun q => defined (getValue q)) (acc' :: rest))
      by (constructor; assumption).
    destruct (IH acc' Dall) as [Hmax [before [after [Hsplit Hafter]]]].
    set (p := fold_left (keepGreater getValue) rest acc') in *.
    assert (Hacc'p : (getValue acc' <=? getValue p)%js = true)
      by (apply Hmax; now left).
    unfold acc', keepGreater in *.
    destruct (getValue acc >? getValue b)%js eqn:E.
    + (* acc stays *)
      split.
      * intros q [<-|[<-|Hq]].
        -- exact Hacc'p.
        -- eapply nle_trans; [apply nlt_nle; exact E | exact Hacc'p].
        -- apply Hmax. now right.
      * destruct before as [|x before].
        -- simpl in Hsplit. injection Hsplit as Hp Hrest.
           exists [], (b :: rest). split; [simpl; rewrite <- Hp; reflexivity|].
           intros q [<-|Hq].
           ++ rewrite <- Hp. exact E.
           ++ apply Hafter. rewrite <- Hrest. exact Hq.
        -- simpl in Hsplit. injection Hsplit as Hx Hrest. subst x.
           exists (acc :: b :: before), after.
           split; [simpl; rewrite Hrest; reflexivity | exact Hafter].
    + (* b takes over *)
      split.
      * intros q [<-|[<-|Hq]].
        -- eapply nle_trans; [|exact Hacc'p].
           apply not_nlt_nle; assumption.
        -- exact Hacc'p.
        -- apply Hmax. now right.
      * exists (acc :: before), after.
        split; [simpl; rewrite Hsplit; reflexivity | exact Hafter].
Qed.

Lemma findMax_Some (players : list T) (stat : string) (e : RecordEntry.t) :
  findMax players getValue stat = Some e ->
  exists x rest,
    players = x :: rest
    /\ e = toEntry getValue stat (fold_left (keepGreater getValue) rest x).
Proof.
  unfold findMax, reduce1. destruct players as [|x rest]; [discriminate|].
  cbn [List.length Nat.eqb]. intros [= <-]. exists x, rest. auto.
Qed.

End FindMaxFacts.

(** X19.  [findMax] reports nothing only for an empty list.  Otherwise,
    when no value is [NaN], its entry is the entry of a player of the list
    whose value no player exceeds, and of the players with that largest
    value it is the last in the list: everyone after it has strictly
    less. *)
Theorem findMax_is_last_maximum (T : Type) (HT : IsPlayer T)
  (players : list T) (getValue : T -> number) (stat : string) :
  (findMax players getValue stat = None <-> players = [])
  /\ (forall e,
        (forall q, In q players -> defined (getValue q)) ->
        findMax players getValue stat = Some e ->
        exists before p after,
          players = before ++ p :: after
          /\ e = toEntry getValue stat p
          /\ (forall q, In q players ->
                (getValue q <=? RecordEntry.value e)%js = true)
          /\ (forall q, In q after ->
                (getValue q <? RecordEntry.value e)%js = true)).
Proof.
  split.
  - unfold findMax, reduce1. destruct players; simpl; split; congruence.
  - intros e Hdef He. apply findMax_Some in He.
    destruct He as [x [rest [-> ->]]].
    destruct (fold_keepGreater getValue rest x)
      as [Hmax [before [after [Hsplit Hafter]]]].
    { apply Forall_forall. exact Hdef. }
    exists before, (fold_left (keepGreater getValue) rest x), after.
    split; [exact Hsplit|]. split; [reflexivity|]. simpl. auto.
Qed.

Lemma findMax_is_last_maximum_witness :
  exists e before p after,
    findMax [qbVeteran; qbRookie; qbVeteran700; qbBench]
      (fun q => Fin (QB.passTD q)) "Career Passing Touchdowns" = Some e
    /\ [qbVeteran; qbRookie; qbVeteran700; qbBench] = before ++ p :: after
    /\ e = toEntry (fun q => Fin (QB.passTD q)) "Career Passing Touchdowns" p
    /\ (forall q, In q after ->
          (Fin (QB.passTD q) <? RecordEntry.value e)%js = true).
Proof.
  destruct (proj2 (findMax_is_last_maximum QB.t _
                     [qbVeteran; qbRookie; qbVeteran700; qbBench]
                     (fun q => Fin (QB.passTD q))
                     "Career Passing Touchdowns") _
              (fun q _ => ltac:(discriminate)) eq_refl)
    as [before [p [after [Hs [He [_ Hafter]]]]]].
  eexists. exists before, p, after. split; [reflexivity|]. auto.
Defined.

Lemma nle_not_pos (a b : number) :
  (a <=? b)%js = true -> (b >? num 0)%js = false -> (a >? num 0)%js = false.
Proof.
  destruct a, b; simpl; try congruence; unfold ngt, nlt, num; simpl;
    try congruence.
  rewrite !negb_false_iff, !Qle_bool_iff. intros Hab Hb.
  eapply Qle_trans; eassumption.
Qed.

Lemma findTopN_none_without_positive (T : Type) (HT : IsPlayer T)
  (players : list T) (getValue : T -> number) (stat description : string)
  (n : nat) :
  (forall p, In p players -> (getValue p >? num 0)%js = false) ->
  findTopN players getValue stat description n = None.
Proof.
  intros Hnone. unfold findTopN.
  destruct (List.length players =? 0)%nat; [reflexivity|].
  rewrite (topPlayers_none getValue players n Hnone). reflexivity.
Qed.

(** X20.  The two tabs agree on the record value.  Over values that are
    not [NaN]: when the value [findMax] reports is positive, the board of
    [findTopN] (for any [n >= 1]) exists and its first entry has the same
    value; when it is not positive, [findMax] still reports its holder but
    [findTopN] has no board. *)
Theorem findMax_agrees_with_findTopN (T : Type) (HT : IsPlayer T)
  (players : list T) (getValue : T -> number) (stat description : string)
  (n : nat) (e : RecordEntry.t) :
  (forall q, In q players -> defined (getValue q)) ->
  findMax players getValue stat = Some e ->
  ((RecordEntry.value e >? num 0)%js = true ->
   exists r top,
     findTopN players getValue stat description (S n) = Some r
     /\ nth_error (TopNRecord.entries r) 0 = Some top
     /\ (RecordEntry.value top <=? RecordEntry.value e)%js = true
     /\ (RecordEntry.value e <=? RecordEntry.value top)%js = true)
  /\ ((RecordEntry.value e >? num 0)%js = false ->
      findTopN players getValue stat description (S n) = None).
Proof.
  intros Hdef He. apply findMax_Some in He. destruct He as [x [rest [-> ->]]].
  destruct (fold_keepGreater getValue rest x) as [Hmax [before [after [Hsplit _]]]].
  { apply Forall_forall. exact Hdef. }
  set (p := fold_left (keepGreater getValue) rest x) in *.
  assert (Hp : In p (x :: rest)).
  { rewrite Hsplit. apply in_or_app. right. now left. }
  cbn [toEntry RecordEntry.value]. split.
  - intros Hpos.
    assert (Hin : In p (js_sort (byValueDesc getValue)
                          (filter (fun q => (getValue q >? num 0)%js)
                             (x :: rest)))).
    { apply js_sort_In. apply filter_In. auto. }
    assert (Hs : StronglySorted
                   (fun a b => (getValue a >=? getValue b)%js = true)
                   (js_sort (byValueDesc getValue)
                      (filter (fun q => (getValue q >? num 0)%js)
                         (x :: rest)))).
    { unfold byValueDesc. apply js_sort_desc_sorted. apply Forall_forall.
      intros q Hq. apply filter_In in Hq. apply ngt0_defined, Hq. }
    unfold findTopN, topPlayers, slice0. cbn [List.length Nat.eqb].
    destruct (js_sort (byValueDesc getValue)
                (filter (fun q => (getValue q >? num 0)%js) (x :: rest)))
      as [|t l] eqn:El; [contradiction|].
    cbn [firstn List.length Nat.eqb]. eexists. eexists.
    split; [reflexivity|]. cbn [TopNRecord.entries map nth_error].
    split; [reflexivity|]. cbn [toEntry RecordEntry.value].
    assert (Ht : In t (x :: rest)).
    { assert (Ht' : In t (t :: l)) by now left. rewrite <- El in Ht'.
      apply js_sort_In in Ht'. apply filter_In in Ht'. apply Ht'. }
    split; [apply Hmax, Ht|].
    destruct Hin as [<-|Hin].
    + apply nle_refl. apply Hdef, Ht.
    + inversion Hs as [|? ? _ Hall]; subst. rewrite Forall_forall in Hall.
      apply Hall, Hin.
  - intros Hnot. apply findTopN_none_without_positive.
    intros q Hq. eapply nle_not_pos; [apply Hmax, Hq | exact Hnot].
Qed.

Lemma findMax_agrees_with_findTopN_witness :
  exists e r top,
    findMax [qbRookie; qbVeteran; qbBench] (fun q => Fin (QB.passYds q))
      "Career Passing Yards" = Some e
    /\ findTopN [qbRookie; qbVeteran; qbBench] (fun q => Fin (QB.passYds q))
         "Career Passing Yards" "Total passing yards" 5 = Some r
    /\ nth_error (TopNRecord.entries r) 0 = Some top
    /\ (RecordEntry.value e <=? RecordEntry.value top)%js = true.
Proof.
  destruct (proj1 (findMax_agrees_with_findTopN QB.t _
                     [qbRookie; qbVeteran; qbBench]
                     (fun q => Fin (QB.passYds q)) "Career Passing Yards"
                     "Total passing yards" 4 _
                     (fun q _ => ltac:(discriminate)) eq_refl) eq_refl)
    as [r [top [Hr [Htop [_ Hle]]]]].
  eexists. exists r, top. split; [reflexivity|]. auto.
Defined.

(** ** The season tab *)

Section SeasonPerformanceFacts.
Variable toLocaleString : number -> string.
Variable toLowerCase : string -> string.
Context {T : Type} `{IsPlayer T}.
Variables seasonPlayers careerPlayers : list T.
Variable getKeyStats : T -> list (string * number).
Variable getPrimaryStat : T -> number.
Variable thresholds : Thresholds.t.

Lemma tierOrder_defined (t : SeasonTier.t) : defined (tierOrder t).
Proof. destruct t; discriminate. Qed.

Lemma getPerformances_sorted :
  StronglySorted
    (fun a b => (tierOrder (Performance.tier a)
                 <=? tierOrder (Performance.tier b))%js = true)
    (getPerformances toLocaleString toLowerCase seasonPlayers careerPlayers
       getKeyStats getPrimaryStat thresholds).
Proof.
  unfold getPerformances.
  change (@byTierOrder T)
    with (fun a b : Performance.t T =>
            (tierOrder (Performance.tier a)
             - tierOrder (Performance.tier b))%js).
  apply (js_sort_asc_sorted (Performance.t T)
           (fun p => tierOrder (Performance.tier p))).
  apply Forall_forall. intros p _. apply tierOrder_defined.
Qed.

Lemma getPerformances_stable (t : SeasonTier.t) :
  filter (fun p => SeasonTier.eqb (Performance.tier p) t)
    (getPerformances toLocaleString toLowerCase seasonPlayers careerPlayers
       getKeyStats getPrimaryStat thresholds)
  = filter (fun p => SeasonTier.eqb (Performance.tier p) t)
      (map (performanceOf toLocaleString toLowerCase careerPlayers getKeyStats
            getPrimaryStat thresholds)
       (filter (fun sp => (getPrimaryStat sp >? num 0)%js) seasonPlayers)).
Proof.
  unfold getPerformances. apply js_sort_filter.
  intros x y Hx Hy. unfold byTierOrder.
  destruct (Performance.tier x), (Performance.tier y), t;
    try discriminate; reflexivity.
Qed.

Lemma getPerformances_In (p : Performance.t T) :
  In p (getPerformances toLocaleString toLowerCase seasonPlayers careerPlayers
       getKeyStats getPrimaryStat thresholds) ->
  exists sp,
    In sp seasonPlayers
    /\ (getPrimaryStat sp >? num 0)%js = true
    /\ p = performanceOf toLocaleString toLowerCase careerPlayers getKeyStats
             getPrimaryStat thresholds sp.
Proof.
  unfold getPerformances. intros Hp. apply js_sort_In in Hp.
  apply in_map_iff in Hp. destruct Hp as [sp [<- Hsp]].
  apply filter_In in Hsp. exists sp. tauto.
Qed.

End SeasonPerformanceFacts.

(** X21.  The performances of a season come out best tier first, and within
    one tier in the order of the uploaded rows: the list is ordered by
    legendary, great, good, average, poor, and for each tier its
    performances are those of the rows with a positive primary stat, in
    input order.  There is one performance for each such row. *)
Theorem getPerformances_ordered_stable (toLocaleString : number -> string)
  (toLowerCase : string -> string) (T : Type) (HT : IsPlayer T)
  (seasonPlayers careerPlayers : list T)
  (getKeyStats : T -> list (string * number)) (getPrimaryStat : T -> number)
  (thresholds : Thresholds.t) :
  let performances :=
    getPerformances toLocaleString toLowerCase seasonPlayers careerPlayers
      getKeyStats getPrimaryStat thresholds in
  let rows := filter (fun sp => (getPrimaryStat sp >? num 0)%js) seasonPlayers in
  (forall i j a b, (i < j)%nat ->
     nth_error performances i = Some a -> nth_error performances j = Some b ->
     (tierOrder (Performance.tier a) <=? tierOrder (Performance.tier b))%js
     = true)
  /\ (forall t,
        map Performance.seasonStats
          (filter (fun p => SeasonTier.eqb (Performance.tier p) t) performances)
        = filter (fun sp => SeasonTier.eqb
                              (tierFor thresholds (getPrimaryStat sp)) t) rows)
  /\ List.length performances = List.length rows.
Proof.
  intros performances rows. split; [|split].
  - apply StronglySorted_nth. apply getPerformances_sorted.
  - intros t. unfold performances. rewrite getPerformances_stable.
    fold rows. induction rows as [|sp l IH]; [reflexivity|].
    cbn [map filter]. cbn [performanceOf Performance.tier].
    destruct (SeasonTier.eqb (tierFor thresholds (getPrimaryStat sp)) t);
      cbn [map Performance.seasonStats]; rewrite IH; reflexivity.
  - unfold performances, getPerformances.
    rewrite js_sort_length, length_map. reflexivity.
Qed.

(** X22.  Each performance belongs to its row: it is built from a row of the
    upload with a positive primary stat, its tier is the tier of that stat,
    its key stats are the row's, and the player shown has the row's name --
    the first career player of that name when there is one, else the row
    itself. *)
Theorem getPerformances_of_rows (toLocaleString : number -> string)
  (toLowerCase : string -> string) (T : Type) (HT : IsPlayer T)
  (seasonPlayers careerPlayers : list T)
  (getKeyStats : T -> list (string * number)) (getPrimaryStat : T -> number)
  (thresholds : Thresholds.t) (p : Performance.t T) :
  In p (getPerformances toLocaleString toLowerCase seasonPlayers
          careerPlayers getKeyStats getPrimaryStat thresholds) ->
  In (Performance.seasonStats p) seasonPlayers
  /\ (getPrimaryStat (Performance.seasonStats p) >? num 0)%js = true
  /\ Performance.tier p
     = tierFor thresholds (getPrimaryStat (Performance.seasonStats p))
  /\ Performance.keyStats p = getKeyStats (Performance.seasonStats p)
  /\ name (Performance.player p) = name (Performance.seasonStats p)
  /\ ((exists before after,
         careerPlayers = before ++ Performance.player p :: after
         /\ forall c, In c before ->
              name c <> name (Performance.seasonStats p))
      \/ (Performance.player p = Performance.seasonStats p
          /\ forall c, In c careerPlayers ->
               name c <> name (Performance.seasonStats p))).
Proof.
  intros Hp. apply getPerformances_In in Hp.
  destruct Hp as [sp [Hin [Hpos ->]]].
  cbn [performanceOf Performance.seasonStats Performance.tier
       Performance.keyStats Performance.player].
  repeat (split; [assumption || reflexivity|]).
  destruct (find (fun c => name c =? name sp) careerPlayers) as [c|] eqn:E.
  - pose proof (find_some _ _ E) as [_ Hname]. apply String.eqb_eq in Hname.
    split; [exact Hname|]. left.
    destruct (find_first _ _ _ _ E) as [before [after [Hs Hb]]].
    exists before, after. split; [exact Hs|].
    intros c' Hc'. apply String.eqb_neq. apply Hb, Hc'.
  - split; [reflexivity|]. right. split; [reflexivity|].
    intros c Hc. apply String.eqb_neq. apply (find_none _ _ E c Hc).
Qed.

Lemma getPerformances_of_rows_witness :
  exists p,
    In p (getPerformances (fun _ => "") (fun l => l) [qbClean; qbBench]
            [qbRookie]
            (fun q => [("Pass Yds", Fin (QB.passYds q))])
            (fun q => Fin (QB.passYds q))
            (Thresholds.mk (num 4500) (num 3500) (num 2500) (num 1500)))
    /\ Performance.tier p = SeasonTier.great
    /\ name (Performance.player p) = "Clean".
Proof.
  eexists. split; [left; reflexivity|].
  destruct (getPerformances_of_rows (fun _ => "") (fun l => l) QB.t _
              [qbClean; qbBench] [qbRookie]
              (fun q => [("Pass Yds", Fin (QB.passYds q))])
              (fun q => Fin (QB.passYds q))
              (Thresholds.mk (num 4500) (num 3500) (num 2500) (num 1500))
              _ (or_introl eq_refl)) as [_ [_ [Ht [_ [Hn _]]]]].
  split; [exact Ht | exact Hn].
Defined.

(** X23.  A better primary stat never gets a worse tier, whatever the four
    thresholds are: if [a <= b], the tier of [b] comes no later than the tier
    of [a] in the order legendary, great, good, average, poor. *)
Theorem tierFor_monotone (thresholds : Thresholds.t) (a b : number) :
  (a <=? b)%js = true ->
  (tierOrder (tierFor thresholds b) <=? tierOrder (tierFor thresholds a))%js
  = true.
Proof.
  intros Hab. unfold tierFor.
  pose proof (nge_upward a b (Thresholds.legendary thresholds) Hab) as HL.
  pose proof (nge_upward a b (Thresholds.great thresholds) Hab) as HG.
  pose proof (nge_upward a b (Thresholds.good thresholds) Hab) as Hg.
  pose proof (nge_upward a b (Thresholds.average thresholds) Hab) as HA.
  destruct (a >=? Thresholds.legendary thresholds)%js;
    [rewrite (HL eq_refl); reflexivity|].
  destruct (a >=? Thresholds.great thresholds)%js;
    [rewrite (HG eq_refl);
     destruct (b >=? Thresholds.legendary thresholds)%js; reflexivity|].
  destruct (a >=? Thresholds.good thresholds)%js;
    [rewrite (Hg eq_refl);
     destruct (b >=? Thresholds.legendary thresholds)%js,
       (b >=? Thresholds.great thresholds)%js; reflexivity|].
  destruct (a >=? Thresholds.average thresholds)%js;
    [rewrite (HA eq_refl);
     destruct (b >=? Thresholds.legendary thresholds)%js,
       (b >=? Thresholds.great thresholds)%js,
       (b >=? Thresholds.good thresholds)%js; reflexivity|].
  destruct (b >=? Thresholds.legendary thresholds)%js,
    (b >=? Thresholds.great thresholds)%js,
    (b >=? Thresholds.good thresholds)%js,
    (b >=? Thresholds.average thresholds)%js; reflexivity.
Qed.

Lemma tierFor_monotone_witness :
  (tierOrder (tierFor (Thresholds.mk (num 4500) (num 3500) (num 2500)
                         (num 1500)) (Fin 4000))
   <=? tierOrder (tierFor (Thresholds.mk (num 4500) (num 3500) (num 2500)
                             (num 1500)) (Fin 2600)))%js = true.
Proof.
  apply (tierFor_monotone
           (Thresholds.mk (num 4500) (num 3500) (num 2500) (num 1500))
           (Fin 2600) (Fin 4000)).
  reflexivity.
Defined.

(** X24.  The three lists of season cards share out the performances: each
    performance is in exactly one of the legendary list, the great-or-good
    list and the average-or-poor list, so together they are a rearrangement
    of all the performances. *)
Theorem season_sections_partition (T : Type)
  (performances : list (Performance.t T)) :
  Permutation
    (legendarySection performances ++ strongSection performances
     ++ otherSection performances)
    performances
  /\ (List.length (legendarySection performances)
      + List.length (strongSection performances)
      + List.length (otherSection performances)
      = List.length performances)%nat
  /\ (forall p,
        ~ (In p (legendarySection performances)
           /\ In p (strongSection performances))
        /\ ~ (In p (legendarySection performances)
              /\ In p (otherSection performances))
        /\ ~ (In p (strongSection performances)
              /\ In p (otherSection performances))).
Proof.
  assert (Hperm : Permutation
            (legendarySection performances ++ strongSection performances
             ++ otherSection performances) performances).
  { unfold legendarySection, strongSection, otherSection.
    induction performances as [|x l IH]; [apply perm_nil|].
    cbn [filter]. destruct (Performance.tier x); cbn [SeasonTier.eqb orb].
    - cbn [app]. apply perm_skip, IH.
    - eapply perm_trans; [apply Permutation_sym, Permutation_middle|].
      apply perm_skip, IH.
    - eapply perm_trans; [apply Permutation_sym, Permutation_middle|].
      apply perm_skip, IH.
    - rewrite app_assoc.
      eapply perm_trans; [apply Permutation_sym, Permutation_middle|].
      rewrite <- app_assoc. apply perm_skip, IH.
    - rewrite app_assoc.
      eapply perm_trans; [apply Permutation_sym, Permutation_middle|].
      rewrite <- app_assoc. apply perm_skip, IH. }
  split; [exact Hperm|]. split.
  - apply Permutation_length in Hperm. rewrite !length_app in Hperm. lia.
  - intros p. unfold legendarySection, strongSection, otherSection.
    rewrite !filter_In.
    repeat split; intros [[_ H1] [_ H2]];
      destruct (Performance.tier p); discriminate.
Qed.

(** ** The season label of an uploaded file *)

Lemma takeDigits_allDigits (s : string) : allDigits (takeDigits s) = true.
Proof.
  induction s as [|c s IH]; [reflexivity|]. cbn [takeDigits].
  destruct (isDigit c) eqn:E; [|reflexivity]. cbn [allDigits].
  rewrite E, IH. reflexivity.
Qed.

Lemma takeDigits_app (ds rest : string) :
  allDigits ds = true -> startsWithDigit rest = false ->
  takeDigits (ds ++ rest) = ds.
Proof.
  intros Hds Hrest. induction ds as [|c ds IH].
  - destruct rest as [|r rest]; [reflexivity|]. simpl in Hrest.
    cbn [append takeDigits]. rewrite Hrest. reflexivity.
  - cbn [allDigits] in Hds. apply andb_true_iff in Hds.
    destruct Hds as [Hc Hds]. cbn [append takeDigits]. rewrite Hc, (IH Hds).
    reflexivity.
Qed.

Lemma seasonMatch_digits (filename ds : string) :
  seasonMatch filename = Some ds -> ds <> "" /\ allDigits ds = true.
Proof.
  induction filename as [|c rest IH]; [discriminate|]. cbn [seasonMatch].
  destruct (isY c && startsWithDigit rest) eqn:E; [|exact IH].
  intros [= <-]. split; [|apply takeDigits_allDigits].
  apply andb_true_iff in E. destruct E as [_ E].
  destruct rest as [|d rest]; [discriminate|]. simpl in E.
  cbn [takeDigits]. rewrite E. discriminate.
Qed.

Lemma seasonNameOf_Y (y : ascii) (ds rest : string) :
  isY y = true -> ds <> "" -> allDigits ds = true ->
  startsWithDigit rest = false ->
  seasonNameOf (String y (ds ++ rest)) = ("Y" ++ ds)%string.
Proof.
  intros Hy Hne Hds Hrest. unfold seasonNameOf. cbn [seasonMatch].
  assert (Hstart : startsWithDigit (ds ++ rest) = true).
  { destruct ds as [|d ds]; [congruence|]. cbn [allDigits] in Hds.
    apply andb_true_iff in Hds. apply Hds. }
  rewrite Hy, Hstart. cbn [andb]. rewrite (takeDigits_app ds rest Hds Hrest).
  reflexivity.
Qed.

Lemma string_app_empty (s : string) : (s ++ "")%string = s.
Proof. induction s as [|c s IH]; simpl; [|rewrite IH]; reflexivity. Qed.

(** X25.  The season label read off a file name is either "New Season" or
    the letter Y followed by one or more digits; a file name that is
    [y] or [Y], then digits, then something that does not begin with a digit
    gets Y and exactly those digits; and reading a label as a file name
    gives the label back. *)
Theorem seasonNameOf_label (filename : string) :
  (seasonNameOf filename = "New Season"
   \/ exists ds, ds <> "" /\ allDigits ds = true
                 /\ seasonNameOf filename = ("Y" ++ ds)%string)
  /\ (forall y ds rest,
        isY y = true -> ds <> "" -> allDigits ds = true ->
        startsWithDigit rest = false ->
        seasonNameOf (String y (ds ++ rest)) = ("Y" ++ ds)%string)
  /\ seasonNameOf (seasonNameOf filename) = seasonNameOf filename.
Proof.
  assert (Hshape : seasonNameOf filename = "New Season"
            \/ exists ds, ds <> "" /\ allDigits ds = true
                          /\ seasonNameOf filename = ("Y" ++ ds)%string).
  { unfold seasonNameOf. destruct (seasonMatch filename) as [ds|] eqn:E.
    - right. destruct (seasonMatch_digits filename ds E) as [Hne Hds].
      exists ds. auto.
    - left. reflexivity. }
  split; [exact Hshape|]. split; [apply seasonNameOf_Y|].
  destruct Hshape as [->|[ds [Hne [Hds ->]]]]; [reflexivity|].
  rewrite <- (string_app_empty ds) at 1.
  apply (seasonNameOf_Y "Y"%char ds "" eq_refl Hne Hds eq_refl).
Qed.

Lemma seasonNameOf_label_witness :
  seasonNameOf "Y12_final.csv" = "Y12"
  /\ seasonNameOf "league_y3.csv" = "Y3"
  /\ seasonNameOf "career.csv" = "New Season".
Proof.
  split; [|split; reflexivity].
  apply (proj1 (proj2 (seasonNameOf_label "")) "Y"%char "12" "_final.csv");
    try reflexivity.
  discriminate.
Defined.

(** ** The commentary tab *)

Section DescendingSort.
Variable A : Type.
Variable key : A -> number.
Variable cmp : A -> A -> number.
Variable pos : A -> bool.
Hypothesis key_defined : forall x, defined (key x).
Hypothesis cmp_spec : forall a b, cmp a b = (key b - key a)%js.
Hypothesis pos_spec : forall x, pos x = (key x >? num 0)%js.

Lemma js_sort_desc_strongly (l : list A) :
  StronglySorted (fun x y => (key x >=? key y)%js = true) (js_sort cmp l).
Proof.
  apply (js_sort_sorted A cmp (fun x y => (key x >=? key y)%js = true)
           (fun _ => True)).
  - intros x y z Hxy Hyz. unfold nge in *. eapply nle_trans; eassumption.
  - intros x y _ _ Hc. rewrite cmp_spec in Hc. unfold nge.
    apply nsub_nonpos_ge; [apply key_defined..|exact Hc].
  - intros x y _ _ Hc. rewrite cmp_spec in Hc. unfold nge.
    apply nsub_pos_lt; [apply key_defined..|exact Hc].
  - apply Forall_forall. intros x _. exact I.
Qed.

Lemma sorted_tail_not_pos (y : A) (l : list A) :
  StronglySorted (fun x y => (key x >=? key y)%js = true) (y :: l) ->
  pos y = false -> filter pos l = [].
Proof.
  intros Hs Hy. inversion Hs as [|? ? _ Hall]; subst.
  apply filter_none. intros x Hx. rewrite Forall_forall in Hall.
  rewrite pos_spec in *.
  eapply nle_not_pos; [apply (Hall x Hx) | exact Hy].
Qed.

Lemma sort_insert_filter_pos (x : A) (l : list A) :
  StronglySorted (fun x y => (key x >=? key y)%js = true) l ->
  filter pos (sort_insert cmp x l)
  = if pos x then sort_insert cmp x (filter pos l) else filter pos l.
Proof.
  induction l as [|y l IH]; intros Hs.
  - cbn [sort_insert filter]. destruct (pos x); reflexivity.
  - assert (Hs' : StronglySorted (fun x y => (key x >=? key y)%js = true) l)
      by (inversion Hs; assumption).
    cbn [sort_insert]. destruct (cmp x y >? num 0)%js eqn:E.
    + cbn [filter]. rewrite (IH Hs'). destruct (pos x) eqn:Px.
      * assert (Py : pos y = true).
        { destruct (pos y) eqn:Py; [reflexivity|]. exfalso.
          rewrite cmp_spec in E. rewrite pos_spec in Px, Py.
          assert (Hle : (key x <=? key y)%js = true)
            by (apply nsub_pos_lt; [apply key_defined..|exact E]).
          rewrite (nle_not_pos _ _ Hle Py) in Px. discriminate. }
        rewrite Py. cbn [sort_insert]. rewrite E. reflexivity.
      * reflexivity.
    + cbn [filter]. destruct (pos x) eqn:Px; [|reflexivity].
      destruct (pos y) eqn:Py.
      * cbn [sort_insert]. rewrite E. reflexivity.
      * rewrite (sorted_tail_not_pos y l Hs Py). reflexivity.
Qed.

Lemma js_sort_filter_pos (l : list A) :
  filter pos (js_sort cmp l) = js_sort cmp (filter pos l).
Proof.
  induction l as [|x l IH]; [reflexivity|].
  cbn [js_sort fold_right]. fold (js_sort cmp l).
  rewrite (sort_insert_filter_pos x _ (js_sort_desc_strongly l)), IH.
  cbn [filter]. destruct (pos x); reflexivity.
Qed.

Lemma firstn_filter_pos (n : nat) (l : list A) :
  StronglySorted (fun x y => (key x >=? key y)%js = true) l ->
  filter pos (firstn n l) = firstn n (filter pos l).
Proof.
  revert n. induction l as [|y l IH]; intros n Hs.
  - destruct n; reflexivity.
  - assert (Hs' : StronglySorted (fun x y => (key x >=? key y)%js = true) l)
      by (inversion Hs; assumption).
    destruct n as [|n]; [reflexivity|]. cbn [firstn filter].
    destruct (pos y) eqn:Py.
    + cbn [firstn]. rewrite (IH n Hs'). reflexivity.
    + pose proof (sorted_tail_not_pos y l Hs Py) as Hnil.
      rewrite Hnil. cbn [firstn].
      apply filter_none. intros x Hx. apply firstn_In in Hx.
      destruct (pos x) eqn:Px; [|reflexivity]. exfalso.
      assert (Hin : In x (filter pos l)) by (apply filter_In; auto).
      rewrite Hnil in Hin. contradiction.
Qed.

(** The positive part of a top list is the top list of the positive part. *)
Lemma top_filter_pos (n : nat) (l : list A) :
  filter pos (slice0 n (js_sort cmp l))
  = slice0 n (js_sort cmp (filter pos l)).
Proof.
  unfold slice0.
  rewrite (firstn_filter_pos n _ (js_sort_desc_strongly l)), js_sort_filter_pos.
  reflexivity.
Qed.

(** The head of a top list has a largest key. *)
Lemma top_head_max (n : nat) (l : list A) (h : A) :
  nth_error (slice0 n (js_sort cmp l)) 0 = Some h ->
  In h l /\ forall x, In x l -> (key x <=? key h)%js = true.
Proof.
  unfold slice0. intros Hh.
  pose proof (js_sort_desc_strongly l) as Hs.
  assert (Hin : forall x, In x l -> In x (js_sort cmp l))
    by (intros x Hx; apply js_sort_In; exact Hx).
  assert (Hback : forall x, In x (js_sort cmp l) -> In x l)
    by (intros x Hx; apply js_sort_In in Hx; exact Hx).
  destruct (js_sort cmp l) as [|y s]; [destruct n; discriminate|].
  destruct n as [|n]; [discriminate|]. cbn in Hh. injection Hh as ->.
  split; [apply Hback; now left|].
  intros x Hx. destruct (Hin x Hx) as [<-|Hx'].
  - apply nle_refl, key_defined.
  - inversion Hs as [|? ? _ Hall]; subst. rewrite Forall_forall in Hall.
    apply (Hall x Hx').
Qed.

End DescendingSort.

Lemma filter_length_weaker (A : Type) (f g : A -> bool) (l : list A) :
  (forall x, f x = true -> g x = true) ->
  (List.length (filter f l) <= List.length (filter g l))%nat
  /\ incl (filter f l) (filter g l).
Proof.
  intros Hfg. split.
  - induction l as [|x l IH]; [apply Nat.le_refl|]. cbn [filter].
    destruct (f x) eqn:F.
    + rewrite (Hfg x F). cbn [List.length]. lia.
    + destruct (g x); cbn [List.length]; lia.
  - intros x Hx. apply filter_In in Hx. apply filter_In.
    split; [apply Hx | apply Hfg, Hx].
Qed.

Lemma filter_length_le (A : Type) (f : A -> bool) (l : list A) :
  (List.length (filter f l) <= List.length l)%nat.
Proof.
  induction l as [|x l IH]; [apply Nat.le_refl|]. cbn [filter].
  destruct (f x); cbn [List.length]; lia.
Qed.

(** X26.  The numbers of the league summary fit together: every legendary
    player (legacy >= 8000) is also a Hall of Famer (legacy >= 5000), so
    legendaryCount <= hofCount <= totalPlayers, and activePlayers <=
    totalPlayers; each top list has at most five players, the TPG list holds
    active players only and the MVP list holds MVP winners only. *)
Theorem commentary_counts (c : CareerData) :
  (List.length (legendaryPlayers c) <= List.length (hofPlayers c))%nat
  /\ (List.length (hofPlayers c) <= List.length (allPlayers c))%nat
  /\ (List.length (activePlayers c) <= List.length (allPlayers c))%nat
  /\ incl (legendaryPlayers c) (hofPlayers c)
  /\ (List.length (topByLegacy c) <= 5)%nat
  /\ (List.length (topByTPG c) <= 5)%nat
  /\ (List.length (topByRings c) <= 5)%nat
  /\ (List.length (topByMVP c) <= 5)%nat
  /\ (forall p, In p (topByTPG c) ->
        Player.status p = "Active" /\ In p (allPlayers c))
  /\ (forall p, In p (topByMVP c) ->
        0 < Player.mvp p /\ In p (allPlayers c)).
Proof.
  assert (Hweaker : forall p : Player.t,
            (Fin (Player.careerLegacy p) >=? num 8000)%js = true ->
            (Fin (Player.careerLegacy p) >=? num 5000)%js = true).
  { intros p Hp. unfold nge in *. apply nle_fin in Hp. apply nle_fin.
    eapply Qle_trans; [|exact Hp]. apply Qle_bool_iff. reflexivity. }
  destruct (filter_length_weaker _ _ _ (allPlayers c) Hweaker) as [Hlen Hincl].
  split; [exact Hlen|]. split; [apply filter_length_le|].
  split; [apply filter_length_le|]. split; [exact Hincl|].
  repeat (split; [apply firstn_le_length|]).
  split.
  - intros p Hp. unfold topByTPG, slice0 in Hp. apply firstn_In in Hp.
    apply js_sort_In in Hp. unfold activePlayers in Hp.
    apply filter_In in Hp. destruct Hp as [Hin Hs].
    split; [apply String.eqb_eq, Hs | exact Hin].
  - intros p Hp. unfold topByMVP, slice0 in Hp. apply firstn_In in Hp.
    apply js_sort_In in Hp. apply filter_In in Hp. destruct Hp as [Hin Hm].
    split; [apply ngt0_fin, Hm | exact Hin].
Qed.

Lemma findTopN_names (T : Type) (HT : IsPlayer T) (players : list T)
  (getValue : T -> number) (stat description : string) (n : nat)
  (r : TopNRecord.t) :
  findTopN players getValue stat description n = Some r ->
  map RecordEntry.playerName (TopNRecord.entries r)
  = map name (topPlayers players getValue n).
Proof.
  intros Hr. apply findTopN_Some in Hr. destruct Hr as [-> _].
  cbn [TopNRecord.entries]. rewrite map_map. reflexivity.
Qed.

(** X27.  The commentary and the records tab name the same people.  The
    players of the commentary's MVP list are those of the "MVP Awards"
    board, in the same order; the ring holders of the commentary's rings
    list (which may also show players without a ring) are those of the
    "Championships" board, in the same order. *)
Theorem commentary_matches_records (c : CareerData) :
  topByMVP c = topPlayers (allPlayers c) (fun p => Fin (Player.mvp p)) 5
  /\ filter (fun p => (Player.rings p >? num 0)%js) (topByRings c)
     = topPlayers (allPlayers c) (fun p => Fin (Player.rings p)) 5
  /\ (forall r, AllTime.mvp (records c) = Some r ->
        map RecordEntry.playerName (TopNRecord.entries r)
        = map Player.name (topByMVP c))
  /\ (forall r, AllTime.rings (records c) = Some r ->
        map RecordEntry.playerName (TopNRecord.entries r)
        = map Player.name
            (filter (fun p => (Player.rings p >? num 0)%js) (topByRings c))).
Proof.
  assert (Hrings : filter (fun p => (Fin (Player.rings p) >? num 0)%js)
                     (topByRings c)
                   = topPlayers (allPlayers c)
                       (fun p => Fin (Player.rings p)) 5).
  { unfold topByRings, topPlayers.
    apply (top_filter_pos Player.t (fun p => Fin (Player.rings p))
             (fun a b => (Player.rings b - Player.rings a)%js)
             (fun p => (Fin (Player.rings p) >? num 0)%js)).
    - intros x. discriminate.
    - reflexivity.
    - reflexivity. }
  split; [reflexivity|]. split; [exact Hrings|]. split.
  - intros r Hr. unfold records in Hr. cbn [AllTime.mvp] in Hr.
    apply findTopN_names in Hr. exact Hr.
  - intros r Hr. unfold records in Hr. cbn [AllTime.rings] in Hr.
    apply findTopN_names in Hr. rewrite Hrings. exact Hr.
Qed.

Lemma commentary_matches_records_witness :
  map Player.name (topByRings accoladeLeague)
  = ["Thrice"; "Twice"; "AlsoTwice"; "Ringless"]
  /\ exists r,
       AllTime.rings (records accoladeLeague) = Some r
       /\ map RecordEntry.playerName (TopNRecord.entries r)
          = map Player.name
              (filter (fun p => (Player.rings p >? num 0)%js)
                 (topByRings accoladeLeague)).
Proof.
  split; [reflexivity|]. eexists. split; [reflexivity|].
  apply (proj2 (proj2 (proj2 (commentary_matches_records accoladeLeague)))).
  reflexivity.
Defined.

(** X28.  The leaders the commentary names are leaders: the first player of
    the rings list has the most rings of all players, the first of the
    legacy list the highest career legacy, and the first of the TPG list the
    highest TPG among the active players. *)
Theorem commentary_leaders (c : CareerData) :
  (forall h, nth_error (topByRings c) 0 = Some h ->
     In h (allPlayers c)
     /\ forall p, In p (allPlayers c) -> Player.rings p <= Player.rings h)
  /\ (forall h, nth_error (topByLegacy c) 0 = Some h ->
        In h (allPlayers c)
        /\ forall p, In p (allPlayers c) ->
             Player.careerLegacy p <= Player.careerLegacy h)
  /\ (forall h, nth_error (topByTPG c) 0 = Some h ->
        In h (allPlayers c) /\ Player.status h = "Active"
        /\ forall p, In p (allPlayers c) -> Player.status p = "Active" ->
             Player.tpg p <= Player.tpg h).
Proof.
  split; [|split].
  - intros h Hh.
    destruct (top_head_max Player.t (fun p => Fin (Player.rings p))
                (fun a b => (Player.rings b - Player.rings a)%js)
                (fun x => ltac:(discriminate)) (fun a b => eq_refl)
                5 (allPlayers c) h Hh) as [Hin Hmax].
    split; [exact Hin|]. intros p Hp. apply nle_fin. apply Hmax, Hp.
  - intros h Hh.
    destruct (top_head_max Player.t (fun p => Fin (Player.careerLegacy p))
                (fun a b => (Player.careerLegacy b - Player.careerLegacy a)%js)
                (fun x => ltac:(discriminate)) (fun a b => eq_refl)
                5 (allPlayers c) h Hh) as [Hin Hmax].
    split; [exact Hin|]. intros p Hp. apply nle_fin. apply Hmax, Hp.
  - intros h Hh.
    destruct (top_head_max Player.t (fun p => Fin (Player.tpg p))
                (fun a b => (Player.tpg b - Player.tpg a)%js)
                (fun x => ltac:(discriminate)) (fun a b => eq_refl)
                5 (activePlayers c) h Hh) as [Hin Hmax].
    unfold activePlayers in Hin. apply filter_In in Hin.
    destruct Hin as [Hin Hs]. split; [exact Hin|].
    split; [apply String.eqb_eq, Hs|].
    intros p Hp Hact. apply nle_fin. apply Hmax. unfold activePlayers.
    apply filter_In. split; [exact Hp | apply String.eqb_eq, Hact].
Qed.

Lemma commentary_leaders_witness :
  exists h,
    nth_error (topByTPG accoladeLeague) 0 = Some h
    /\ Player.name h = "Thrice"
    /\ Player.status h = "Active".
Proof.
  eexists. split; [reflexivity|]. split; [reflexivity|].
  apply (proj2 (proj2 (commentary_leaders accoladeLeague)) _ eq_refl).
Defined.
